(** * Rendering of transcription results: [save_outputs] of index.py

    The development embeds the serializer of [index.py] (lines 16-51):
    the timestamp primitive [secs_to_ts], the srt, vtt and txt renderers and
    the file-writing driver [save_outputs], over

    - Python [str] values as lists of code points,
    - Python [float] values as IEEE 754 binary64 numbers (the Standard
      Library's [spec_float] at precision 53), with CPython's algorithms
      for [//], [%], [int()] and the format specifications [02d], [06.3f],
    - a small file system threaded through a state-and-exception monad. *)

From Stdlib Require Import ZArith QArith Qround Qabs Qpower Lia List Ascii String.
From Stdlib Require Import DecimalString SpecFloat Lqa.
From stdpp Require Import gmap sets list.
Import ListNotations.
Local Open Scope Z_scope.

(** ** Exceptions and results *)

(** The built-in exceptions the embedded code can raise. *)
Inductive exn : Type :=
  | ValueError          (* int() of a NaN *)
  | OverflowError       (* int() of an infinity *)
  | ZeroDivisionError   (* float // 0.0, float % 0.0 *)
  | FileNotFoundError
  | FileExistsError
  | NotADirectoryError
  | IsADirectoryError
  | PermissionError
  | RuntimeError.       (* a failure of the transcription engine *)

(** Outcome of evaluating an expression: a value, or a raised exception. *)
Inductive res (A : Type) : Type :=
  | Ok (a : A)
  | Raise (e : exn).
Arguments Ok {A} a.
Arguments Raise {A} e.

Definition res_bind {A B} (r : res A) (k : A -> res B) : res B :=
  match r with
  | Ok a => k a
  | Raise e => Raise e
  end.

Declare Scope res_scope.
Delimit Scope res_scope with res.
Notation "x <- r ;; k" := (res_bind r (fun x => k))
  (at level 100, r at next level, right associativity) : res_scope.

(** ** Python strings *)

Module PyStr.

(** A character is a Unicode code point, a [str] a sequence of them. *)
Definition char := N.
Definition pystr := list char.

Definition ch (a : ascii) : char := N_of_ascii a.
Arguments ch a%_char.

(** String literals of the source. *)
Definition lit (s : string) : pystr := map N_of_ascii (list_ascii_of_string s).
Arguments lit s%_string.

(** [str.isspace] on one code point: the characters [str.strip()]
    removes (CPython's [Py_UNICODE_ISSPACE]). *)
Definition isspace (c : char) : bool :=
  (((9 <=? c) && (c <=? 13)) || ((28 <=? c) && (c <=? 32))
   || (c =? 133) || (c =? 160) || (c =? 5760)
   || ((8192 <=? c) && (c <=? 8202))
   || (c =? 8232) || (c =? 8233) || (c =? 8239) || (c =? 8287)
   || (c =? 12288))%N.

Fixpoint lstrip (s : pystr) : pystr :=
  match s with
  | c :: s' => if isspace c then lstrip s' else s
  | [] => []
  end.

Definition rstrip (s : pystr) : pystr := rev (lstrip (rev s)).

(** [s.strip()]: the left index moves right over whitespace, then the
    right index moves left. *)
Definition strip (s : pystr) : pystr := rstrip (lstrip s).

(** [sep.join(l)] *)
Fixpoint join (sep : pystr) (l : list pystr) : pystr :=
  match l with
  | [] => []
  | [x] => x
  | x :: l' => x ++ sep ++ join sep l'
  end.

(** [s.replace(old, new)] for one-character [old] and [new]. *)
Definition replace (old new : char) (s : pystr) : pystr :=
  map (fun c => if (c =? old)%N then new else c) s.

(** [str(z)] for an integer: its decimal numeral. *)
Definition str_of_Z (z : Z) : pystr := lit (NilZero.string_of_int (Z.to_int z)).

(** Sign-aware zero padding, the [0] flag of a format specification:
    zeros go between the sign and the digits up to the field width. *)
Definition zero_pad (width : nat) (sign digits : pystr) : pystr :=
  sign ++ repeat (ch "0") (width - length sign - length digits) ++ digits.

(** [format(z, "0<width>d")] *)
Definition format_d (width : nat) (z : Z) : pystr :=
  zero_pad width (if z <? 0 then lit "-" else []) (str_of_Z (Z.abs z)).

(** Rounding of a rational to the nearest integer, ties to even: the
    rounding of correctly rounded decimal output. *)
Definition round_half_even (q : Q) : Z :=
  let f := Qfloor q in
  match Qcompare (q - inject_Z f) (1 # 2) with
  | Lt => f
  | Gt => f + 1
  | Eq => if Z.even f then f else f + 1
  end.

(** The digits of a non-negative rational in fixed-point notation with
    three decimals. *)
Definition fixed3 (q : Q) : pystr :=
  let n := round_half_even (q * inject_Z 1000) in
  str_of_Z (n / 1000) ++ lit "." ++ zero_pad 3 [] (str_of_Z (n mod 1000)).

End PyStr.
Export PyStr.

(** ** Python floats *)

Module PyFloat.

(** A [float] is a binary64 number: precision 53, maximal exponent 1024. *)
Definition float := spec_float.

Definition fadd : float -> float -> float := SFadd 53 1024.
Definition fsub : float -> float -> float := SFsub 53 1024.
Definition fdiv : float -> float -> float := SFdiv 53 1024.

(** Conversion of an integer operand ([3600], [60]) to [float]: the
    nearest binary64 number. *)
Definition float_of_Z (z : Z) : float := binary_normalize 53 1024 z 0 false.

(** The rational value of a finite float; [0] for the others. *)
Definition F2Q (x : float) : Q :=
  match x with
  | S754_finite s m e => (inject_Z (cond_Zopp s (Zpos m)) * 2 ^ e)%Q
  | _ => 0%Q
  end.

Definition is_finite (x : float) : bool :=
  match x with
  | S754_zero _ | S754_finite _ _ _ => true
  | _ => false
  end.

Definition sign_bit (x : float) : bool :=
  match x with
  | S754_zero s | S754_infinity s | S754_finite s _ _ => s
  | S754_nan => false
  end.

(** [x == 0.0] and [x < 0.0] of C. *)
Definition is_zero (x : float) : bool := SFeqb x (S754_zero false).
Definition lt_zero (x : float) : bool := SFltb x (S754_zero false).

(** C's [copysign(0.0, x)]. *)
Definition copysign0 (x : float) : float := S754_zero (sign_bit x).

(** C's [fmod(x, y)]: [x - n * y] for [n] the quotient truncated toward
    zero, computed exactly; the result has the sign of [x]. *)
Definition fmod (x y : float) : float :=
  match x, y with
  | S754_nan, _ | _, S754_nan => S754_nan
  | S754_infinity _, _ => S754_nan
  | _, S754_zero _ => S754_nan
  | S754_zero _, _ => x
  | S754_finite _ _ _, S754_infinity _ => x
  | S754_finite sx mx ex, S754_finite _ my ey =>
      let ez := Z.min ex ey in
      let a := Zpos (fst (shl_align mx ex ez)) in
      let b := Zpos (fst (shl_align my ey ez)) in
      binary_normalize 53 1024 (cond_Zopp sx (Z.rem a b)) ez sx
  end.

(** C's [floor(x)]: the largest integral float not above [x]. *)
Definition ffloor (x : float) : float :=
  match x with
  | S754_finite s m (Zneg p) =>
      let q := Zpos m / 2 ^ Zpos p in
      let r := Zpos m mod 2 ^ Zpos p in
      if s then binary_normalize 53 1024 (- (if r =? 0 then q else q + 1)) 0 true
      else binary_normalize 53 1024 q 0 false
  | _ => x
  end.

Definition one : float := float_of_Z 1.
Definition half : float := binary_normalize 53 1024 1 (-1) false.

(** CPython's [_float_div_mod] (floatobject.c), for a divisor that is
    not zero: the pair [(floordiv, mod)].
<<
    mod = fmod(vx, wx);
    div = (vx - mod) / wx;
    if (mod) { if ((wx < 0) != (mod < 0)) { mod += wx; div -= 1.0; } }
    else mod = copysign(0.0, wx);
    if (div) { floordiv = floor(div);
               if (div - floordiv > 0.5) floordiv += 1.0; }
    else floordiv = copysign(0.0, vx / wx);
>> *)
Definition float_div_mod (vx wx : float) : float * float :=
  let mod0 := fmod vx wx in
  let div0 := fdiv (fsub vx mod0) wx in
  let '(div, md) :=
    if negb (is_zero mod0) then
      if xorb (lt_zero wx) (lt_zero mod0)
      then (fsub div0 one, fadd mod0 wx)
      else (div0, mod0)
    else (div0, copysign0 wx) in
  let floordiv :=
    if negb (is_zero div) then
      let fl := ffloor div in
      if SFltb half (fsub div fl) then fadd fl one else fl
    else copysign0 (fdiv vx wx) in
  (floordiv, md).

(** [vx // wx] on floats ([float_floor_div]). *)
Definition float_floor_div (vx wx : float) : res float :=
  if is_zero wx then Raise ZeroDivisionError
  else Ok (fst (float_div_mod vx wx)).

(** [vx % wx] on floats ([float_rem]).
<<
    mod = fmod(vx, wx);
    if (mod) { if ((wx < 0) != (mod < 0)) mod += wx; }
    else mod = copysign(0.0, wx);
>> *)
Definition float_rem (vx wx : float) : res float :=
  if is_zero wx then Raise ZeroDivisionError
  else
    let mod0 := fmod vx wx in
    Ok (if negb (is_zero mod0) then
          if xorb (lt_zero wx) (lt_zero mod0) then fadd mod0 wx else mod0
        else copysign0 wx).

(** [int(x)]: truncation toward zero; a NaN or an infinity raises. *)
Definition int_of_float (x : float) : res Z :=
  match x with
  | S754_nan => Raise ValueError
  | S754_infinity _ => Raise OverflowError
  | S754_zero _ => Ok 0
  | S754_finite s m e =>
      Ok (cond_Zopp s (match e with
                       | Zneg p => Zpos m / 2 ^ Zpos p
                       | _ => Zpos m * 2 ^ e
                       end))
  end.

(** [format(x, "06.3f")]: the value correctly rounded to three decimals
    (ties to even on the exact binary value), the sign taken from the
    sign bit, zero-padded to six characters. *)
Definition format_06_3f (x : float) : pystr :=
  let sign := if sign_bit x then lit "-" else [] in
  match x with
  | S754_nan => zero_pad 6 [] (lit "nan")
  | S754_infinity _ => zero_pad 6 sign (lit "inf")
  | _ => zero_pad 6 sign (fixed3 (Qabs (F2Q x)))
  end.

End PyFloat.
Export PyFloat.

(** ** The timestamp primitive *)

Local Open Scope res_scope.

(** [secs_to_ts], lines 23-27.
<<
    h = int(t // 3600)
    m = int((t % 3600) // 60)
    s = t % 60
    return f"{h:02d}:{m:02d}:{s:06.3f}".replace(".", ",")
>> *)
Definition secs_to_ts (t : float) : res pystr :=
  q <- float_floor_div t (float_of_Z 3600) ;;
  h <- int_of_float q ;;
  r <- float_rem t (float_of_Z 3600) ;;
  q' <- float_floor_div r (float_of_Z 60) ;;
  m <- int_of_float q' ;;
  s <- float_rem t (float_of_Z 60) ;;
  Ok (replace (ch ".") (ch ",")
        (format_d 2 h ++ lit ":" ++ format_d 2 m ++ lit ":" ++ format_06_3f s)).

(** The timestamp expression of the vtt cues, lines 45-46, written inline
    in the source and without the replacement.
<<
    f"{int(seg['start']//3600):02d}:{int((seg['start']%3600)//60):02d}:{seg['start']%60:06.3f}"
>> *)
Definition vtt_ts (t : float) : res pystr :=
  q <- float_floor_div t (float_of_Z 3600) ;;
  h <- int_of_float q ;;
  r <- float_rem t (float_of_Z 3600) ;;
  q' <- float_floor_div r (float_of_Z 60) ;;
  m <- int_of_float q' ;;
  s <- float_rem t (float_of_Z 60) ;;
  Ok (format_d 2 h ++ lit ":" ++ format_d 2 m ++ lit ":" ++ format_06_3f s).

(** ** The transcription result *)

(** The engine's result is a dict [{"text": ..., "segments": [...]}]; a
    segment is a dict with the keys ["start"], ["end"], ["text"] and,
    when word timestamps were requested, ["words"]; a word is a dict with
    the key ["word"] and its own timings.  The records below carry the keys
    that [save_outputs] reads; an absent ["words"] key is [None]. *)
Record Word : Type := {
  w_word : pystr;
  w_start : float;
  w_end : float
}.

Record Segment : Type := {
  seg_start : float;
  seg_end : float;
  seg_text : pystr;
  seg_words : option (list Word)
}.

Record TranscriptionResult : Type := {
  r_text : pystr;
  r_segments : list Segment
}.

(** ** The renderers *)

Definition nl : pystr := [10%N].

(** The content of the txt file, line 21. *)
Definition txt_content (result : TranscriptionResult) : pystr :=
  strip (r_text result) ++ nl.

(** The text lines of one srt cue, lines 34-38.
<<
    lines = [seg["text"].strip()]
    if with_words and "words" in seg:
        word_line = " ".join([w["word"] for w in seg["words"]])
        if word_line:
            lines.append(word_line.strip())
>> *)
Definition srt_lines (seg : Segment) (with_words : bool) : list pystr :=
  [strip (seg_text seg)] ++
  match with_words, seg_words seg with
  | true, Some ws =>
      let word_line := join (lit " ") (map w_word ws) in
      match word_line with
      | [] => []
      | _ :: _ => [strip word_line]
      end
  | _, _ => []
  end.

(** One srt cue, lines 32-39: what the loop body writes for the segment
    numbered [i]. *)
Definition srt_cue (i : Z) (seg : Segment) (with_words : bool) : res pystr :=
  start <- secs_to_ts (seg_start seg) ;;
  end_ <- secs_to_ts (seg_end seg) ;;
  let lines := srt_lines seg with_words in
  Ok ((str_of_Z i ++ nl ++ start ++ lit " --> " ++ end_ ++ nl)
        ++ join nl lines ++ nl ++ nl).

(** One vtt cue, lines 45-47. *)
Definition vtt_cue (seg : Segment) : res pystr :=
  start <- vtt_ts (seg_start seg) ;;
  end_ <- vtt_ts (seg_end seg) ;;
  Ok (start ++ lit " --> " ++ end_ ++ nl ++ strip (seg_text seg) ++ nl ++ nl).

(** [enumerate(l, start)] *)
Fixpoint enumerate {A} (start : Z) (l : list A) : list (Z * A) :=
  match l with
  | [] => []
  | x :: l' => (start, x) :: enumerate (start + 1) l'
  end.

(** ** Paths *)

Definition path := pystr.
Definition sep : char := ch "/".

(** [(p[:i], p[i:])] for [i = p.rfind("/") + 1]. *)
Fixpoint rsplit_sep (p : path) : path * path :=
  match p with
  | [] => ([], [])
  | c :: p' =>
      let '(h, t) := rsplit_sep p' in
      match h with
      | _ :: _ => (c :: h, t)
      | [] => if (c =? sep)%N then ([c], t) else ([], c :: t)
      end
  end.

Fixpoint lstrip_sep (s : path) : path :=
  match s with
  | c :: s' => if (c =? sep)%N then lstrip_sep s' else s
  | [] => []
  end.

(** [s.rstrip("/")] *)
Definition rstrip_sep (s : path) : path := rev (lstrip_sep (rev s)).

(** [os.path.dirname] (posixpath).
<<
    i = p.rfind(sep) + 1
    head = p[:i]
    if head and head != sep*len(head):
        head = head.rstrip(sep)
    return head
>> *)
Definition dirname (p : path) : path :=
  let head := fst (rsplit_sep p) in
  match rstrip_sep head with
  | [] => head                  (* empty, or nothing but separators *)
  | stripped => stripped
  end.

(** ** The file system and the I/O monad *)

(** The calls the program makes to the operating system. *)
Inductive event : Type :=
  | EMakedirs (d : path)
  | EOpen (p : path)
  | EWrite (p : path) (s : pystr)
  | EWarn (s : pystr).            (* a line printed to the error stream *)

(** The state of the world, as far as the serializer can change or
    observe it: the directories that exist, the regular files with their
    text, the paths the process is not permitted to create or truncate,
    and the trace of the calls made so far.  Paths are compared as
    written. *)
Record world : Type := {
  dirs : gset path;
  files : gmap path pystr;
  denied : gset path;
  log : list event
}.

Definition io (A : Type) : Type := world -> res A * world.

Definition ret {A} (a : A) : io A := fun w => (Ok a, w).

Definition bind {A B} (c : io A) (k : A -> io B) : io B :=
  fun w =>
    match c w with
    | (Ok a, w') => k a w'
    | (Raise e, w') => (Raise e, w')
    end.

(** An expression evaluated inside a statement: its exception propagates. *)
Definition lift {A} (r : res A) : io A := fun w => (r, w).

Declare Scope io_scope.
Delimit Scope io_scope with io.
Notation "x <- c ;; k" := (bind c (fun x => k))
  (at level 100, c at next level, right associativity) : io_scope.
Notation "c ;; k" := (bind c (fun _ => k))
  (at level 100, right associativity) : io_scope.

Definition record (ev : event) : io unit :=
  fun w => (Ok tt, {| dirs := dirs w; files := files w; denied := denied w;
                      log := log w ++ [ev] |}).

Definition raise {A} (e : exn) : io A := fun w => (Raise e, w).

(** The proper ancestors of a directory, outermost first: [dirname]
    iterated until the current directory or the root is reached, the way
    [os.makedirs] recurses on the head of its argument. *)
Fixpoint ancestors_fuel (fuel : nat) (d : path) : list path :=
  match fuel with
  | O => []
  | S fuel' =>
      let head := dirname d in
      match rstrip_sep head with
      | [] => []
      | _ :: _ => ancestors_fuel fuel' head ++ [head]
      end
  end.

Definition ancestors (d : path) : list path := ancestors_fuel (length d) d.

(** [mkdir] of one directory on behalf of [os.makedirs(leaf,
    exist_ok=True)]: nothing to do when it exists; a regular file in its
    place fails, as does a missing permission. *)
Definition mkdir_one (leaf p : path) : io unit :=
  fun w =>
    if bool_decide (p ∈ dirs w) then (Ok tt, w)
    else if bool_decide (is_Some (files w !! p))
         then (Raise (if bool_decide (p = leaf) then FileExistsError else NotADirectoryError), w)
    else if bool_decide (p ∈ denied w) then (Raise PermissionError, w)
    else (Ok tt, {| dirs := {[ p ]} ∪ dirs w; files := files w;
                    denied := denied w; log := log w |}).

Fixpoint for_each {A} (l : list A) (body : A -> io unit) : io unit :=
  match l with
  | [] => ret tt
  | x :: l' => (body x ;; for_each l' body)%io
  end.

(** [os.makedirs(d, exist_ok=True)]: the empty path names no directory;
    otherwise the missing ancestors are created outermost first, then the
    directory itself. *)
Definition makedirs (d : path) : io unit :=
  (record (EMakedirs d) ;;
   match d with
   | [] => raise FileNotFoundError
   | _ :: _ => for_each (ancestors d ++ [d]) (mkdir_one d)
   end)%io.

(** Whether [d] names an existing directory: the current directory, the
    root, or one of [dirs]. *)
Definition dir_exists (w : world) (d : path) : bool :=
  match rstrip_sep d with
  | [] => true
  | _ :: _ => bool_decide (d ∈ dirs w)
  end.

(** [open(p, "w", encoding="utf-8")]: creates the file or truncates it,
    in a directory that exists. *)
Definition open_w (p : path) : io unit :=
  (record (EOpen p) ;;
   fun w =>
     if bool_decide (p ∈ dirs w) then (Raise IsADirectoryError, w)
     else if negb (dir_exists w (dirname p))
          then (Raise (if bool_decide (is_Some (files w !! dirname p))
                       then NotADirectoryError else FileNotFoundError), w)
     else if bool_decide (p ∈ denied w) then (Raise PermissionError, w)
     else (Ok tt, {| dirs := dirs w; files := <[ p := [] ]> (files w);
                     denied := denied w; log := log w |}))%io.

(** [f.write(s)] on the file opened at [p]: the text is appended. *)
Definition write (p : path) (s : pystr) : io unit :=
  (record (EWrite p s) ;;
   fun w => (Ok tt, {| dirs := dirs w; files := alter (fun c => c ++ s) p (files w);
                       denied := denied w; log := log w |}))%io.

(** ** The serializer *)

Section Serializer.

(** The text [json.dump(result, f, ensure_ascii=False, indent=2)] writes.
    The encoder is Python's standard library's and stays a parameter. *)
Variable json_dumps : TranscriptionResult -> pystr.

Definition when (b : bool) (c : io unit) : io unit := if b then c else ret tt.

(** [save_outputs], lines 16-51. *)
Definition save_outputs (base_out : path) (result : TranscriptionResult)
    (formats : gset pystr) (with_words : bool) : io unit :=
  (makedirs (dirname base_out) ;;
   when (bool_decide (lit "txt" ∈ formats))
     (let f := base_out ++ lit ".txt" in
      open_w f ;;
      write f (strip (r_text result) ++ nl)) ;;
   when (bool_decide (lit "srt" ∈ formats))
     (let f := base_out ++ lit ".srt" in
      open_w f ;;
      for_each (enumerate 1 (r_segments result)) (fun '(i, seg) =>
        cue <- lift (srt_cue i seg with_words) ;;
        write f cue)) ;;
   when (bool_decide (lit "vtt" ∈ formats))
     (let f := base_out ++ lit ".vtt" in
      open_w f ;;
      write f (lit "WEBVTT" ++ nl ++ nl) ;;
      for_each (r_segments result) (fun seg =>
        cue <- lift (vtt_cue seg) ;;
        write f cue)) ;;
   when (bool_decide (lit "json" ∈ formats))
     (let f := base_out ++ lit ".json" in
      open_w f ;;
      write f (json_dumps result)))%io.

End Serializer.

(** ** The command line driver *)

(** [s.split(c)] for a one-character separator: the pieces between the
    occurrences of [c], at least one. *)
Fixpoint split (c : char) (s : pystr) : list pystr :=
  match s with
  | [] => [[]]
  | x :: s' =>
      if (x =? c)%N then [] :: split c s'
      else match split c s' with
           | piece :: pieces => (x :: piece) :: pieces
           | [] => [[x]]
           end
  end.

(** [str.lower] on the letters of ASCII. *)
Definition ascii_lower (s : pystr) : pystr :=
  map (fun c => if ((65 <=? c) && (c <=? 90))%N then (c + 32)%N else c) s.

(** [(p[:i], p[i:])] for [i = p.rfind(c) + 1]. *)
Fixpoint rsplit_on (c : char) (p : pystr) : pystr * pystr :=
  match p with
  | [] => ([], [])
  | x :: p' =>
      let '(h, t) := rsplit_on c p' in
      match h with
      | _ :: _ => (x :: h, t)
      | [] => if (x =? c)%N then ([x], t) else ([], x :: t)
      end
  end.

(** [os.path.basename] (posixpath): what follows the last separator. *)
Definition basename (p : path) : path := snd (rsplit_sep p).

(** [os.path.splitext] (posixpath, [genericpath._splitext]): the
    extension starts at the last dot of the last component, unless only
    dots come before it there.
<<
    sepIndex = p.rfind(sep)
    dotIndex = p.rfind(extsep)
    if dotIndex > sepIndex:
        filenameIndex = sepIndex + 1
        while filenameIndex < dotIndex:
            if p[filenameIndex:filenameIndex+1] != extsep:
                return p[:dotIndex], p[dotIndex:]
            filenameIndex += 1
    return p, p[:0]
>> *)
Definition splitext (p : path) : path * path :=
  let '(head, name) := rsplit_sep p in
  let '(stem_dot, ext) := rsplit_on (ch ".") name in
  match stem_dot with
  | [] => (p, [])
  | _ :: _ =>
      let stem := removelast stem_dot in
      if forallb (fun c => (c =? ch ".")%N) stem then (p, [])
      else (head ++ stem, ch "." :: ext)
  end.

(** [os.path.join(a, b)] (posixpath).
<<
    if b.startswith(sep): path = b
    elif not path or path.endswith(sep): path += b
    else: path += sep + b
>> *)
Definition join2 (a b : path) : path :=
  if match b with c :: _ => (c =? sep)%N | [] => false end then b
  else if match rev a with z :: _ => (z =? sep)%N | [] => true end then a ++ b
  else a ++ [sep] ++ b.

(** The base path of the outputs of one input, lines 107-108.
<<
    base = os.path.splitext(os.path.basename(path))[0]
    out_base = os.path.join(args.output_dir, base)
>> *)
Definition out_base (output_dir input : path) : path :=
  join2 output_dir (fst (splitext (basename input))).

(** [os.path.isfile]: a regular file exists at the path. *)
Definition isfile (p : path) : io bool :=
  fun w => (Ok (bool_decide (is_Some (files w !! p))), w).

(** [print(s, file=sys.stderr)] *)
Definition warn (s : pystr) : io unit := record (EWarn s).

Section Driver.

(** [str.lower]; its action outside ASCII is left open. *)
Variable lower : pystr -> pystr.

Variable json_dumps : TranscriptionResult -> pystr.

(** [whisper.load_model(args.model, device=args.device)], for the
    arguments of the run: it returns or raises. *)
Variable load_model : res unit.

(** [model.transcribe(path, ...)] with the options of the run: the result
    of the engine for an input, or its failure. *)
Variable transcribe : path -> res TranscriptionResult.

(** The set of formats, line 77.
<<
    formats = {fmt.strip().lower() for fmt in args.formats.split(",") if fmt.strip()}
>> *)
Definition parse_formats (arg : pystr) : gset pystr :=
  list_to_set
    (map (fun fmt => lower (strip fmt))
       (filter (fun fmt => strip fmt <> []) (split (ch ",") arg))).


(** The body of the loop over the inputs, lines 86-109; the progress
    messages on the standard output, which carry the time of day, are
    left out. *)
Definition process (output_dir : path) (formats : gset pystr) (word_timestamps : bool)
    (input : path) : io unit :=
  (found <- isfile input ;;
   if negb found then warn (lit "Skipping (not found): " ++ input)
   else
     result <- lift (transcribe input) ;;
     save_outputs json_dumps (out_base output_dir input) result formats word_timestamps)%io.

(** [main] after the parsing of the command line, lines 77-109. *)
Definition main (formats_arg output_dir : pystr) (word_timestamps : bool)
    (inputs : list path) : io unit :=
  let formats := parse_formats formats_arg in
  (lift load_model ;;
   makedirs output_dir ;;
   for_each inputs (process output_dir formats word_timestamps))%io.

End Driver.

(** ** Specification of the timestamp *)

Abbreviation fexp64 := (fexp 53 1024).
Abbreviation bra := (binary_round_aux 53 1024).

(** A seconds value of the data model: a finite binary64 number. *)
Definition binary64 (t : float) : Prop :=
  is_finite t = true /\ valid_binary 53 1024 t = true.

(** The remainder of the division with floored quotient. *)
Definition Qmod (t d : Q) : Q := (t - inject_Z (Qfloor (t / d)) * d)%Q.

(** The decomposition of a seconds value, in exact arithmetic:
    [h = floor(t/3600)], [m = floor((t mod 3600)/60)], [s = t mod 60]. *)
Definition spec_hours (t : Q) : Z := Qfloor (t / 3600).
Definition spec_minutes (t : Q) : Z := Qfloor (Qmod t 3600 / 60).
Definition spec_seconds (t : Q) : Q := Qmod t 60.

(** The timestamp [HH:MM:SS<point>mmm]: hours and minutes zero-padded to
    two digits at least, the seconds rounded to three decimals, their
    integer part zero-padded to two digits. *)
Definition spec_timestamp (point : char) (t : Q) : pystr :=
  let ms := round_half_even (spec_seconds t * inject_Z 1000) in
  format_d 2 (spec_hours t) ++ lit ":" ++ format_d 2 (spec_minutes t) ++ lit ":"
    ++ format_d 2 (ms / 1000) ++ [point] ++ zero_pad 3 [] (str_of_Z (ms mod 1000)).

(** [binary_round] is exact on a mantissa and exponent whose canonical
    exponent does not exceed the given one, or exceeds it by a number of
    bits that are all zero in the mantissa. *)
Definition representable (m : positive) (e : Z) : Prop :=
  let E := fexp64 (Zpos (digits2_pos m) + e) in
  E <= 971 /\ (E <= e \/ exists k : positive, Zpos m = Zpos k * 2 ^ (E - e)).

(** Whether the decimal numerals of the naturals below [bound] have at
    most [width] digits. *)
Definition numeral_within (width : nat) (bound : nat) : bool :=
  forallb (fun n => Nat.leb (length (str_of_Z (Z.of_nat n))) width) (seq 0 bound).


(** The seconds values on which the arithmetic of [secs_to_ts] is exact:
    the finite binary64 numbers of magnitude below [2^53]. *)
Definition seconds (t : float) : Prop :=
  binary64 t /\ (Qabs (F2Q t) < inject_Z (2 ^ 53))%Q.

(** ** Specification of the files *)

(** The world after a file was opened for writing at [p] and the [chunks]
    were written to it in order. *)
Definition emit (p : path) (chunks : list pystr) (w : world) : world :=
  {| dirs := dirs w;
     files := <[ p := concat chunks ]> (files w);
     denied := denied w;
     log := log w ++ EOpen p :: map (EWrite p) chunks |}.

(** A path at which a regular file may be created or truncated. *)
Definition writable (w : world) (p : path) : Prop :=
  (p ∉ dirs w) /\ (p ∉ denied w).

(** The results of a list of evaluations, up to the first exception. *)
Fixpoint res_map {A B} (f : A -> res B) (l : list A) : res (list B) :=
  match l with
  | [] => Ok []
  | x :: l' =>
      match f x with
      | Ok y => match res_map f l' with Ok ys => Ok (y :: ys) | Raise e => Raise e end
      | Raise e => Raise e
      end
  end.

(** A segment whose two times are seconds values. *)
Definition timed (seg : Segment) : Prop :=
  seconds (seg_start seg) /\ seconds (seg_end seg).

(** The data model's segment: its times are moreover not negative. *)
Definition well_timed (seg : Segment) : Prop :=
  timed seg /\ (0 <= F2Q (seg_start seg))%Q /\ (0 <= F2Q (seg_end seg))%Q.

(** The word line of a segment: the words joined by single spaces, when
    the line is wanted, the words are present and the joined text is not
    empty. *)
Definition spec_word_line (seg : Segment) (includeWordLine : bool) : option pystr :=
  if includeWordLine then
    match seg_words seg with
    | Some ws =>
        match join (lit " ") (map w_word ws) with
        | [] => None
        | joined => Some (strip joined)
        end
    | None => None
    end
  else None.

(** The srt cue numbered [i]: index line, time line with comma
    timestamps, trimmed text, optional word line, blank line. *)
Definition spec_srt_cue (i : Z) (seg : Segment) (includeWordLine : bool) : pystr :=
  str_of_Z i ++ nl
    ++ spec_timestamp (ch ",") (F2Q (seg_start seg)) ++ lit " --> "
    ++ spec_timestamp (ch ",") (F2Q (seg_end seg)) ++ nl
    ++ strip (seg_text seg) ++ nl
    ++ match spec_word_line seg includeWordLine with
       | Some line => line ++ nl
       | None => []
       end
    ++ nl.

(** The vtt cue: time line with period timestamps, trimmed text, blank
    line. *)
Definition spec_vtt_cue (seg : Segment) : pystr :=
  spec_timestamp (ch ".") (F2Q (seg_start seg)) ++ lit " --> "
    ++ spec_timestamp (ch ".") (F2Q (seg_end seg)) ++ nl
    ++ strip (seg_text seg) ++ nl ++ nl.

(** The files one call writes, in the order of the source: the path and
    the chunks written to it. *)
Definition planned (json_dumps : TranscriptionResult -> pystr)
    (base_out : path) (result : TranscriptionResult) (formats : gset pystr)
    (srt_cues vtt_cues : list pystr) : list (path * list pystr) :=
  (if bool_decide (lit "txt" ∈ formats)
   then [(base_out ++ lit ".txt", [strip (r_text result) ++ nl])] else [])
  ++ (if bool_decide (lit "srt" ∈ formats)
      then [(base_out ++ lit ".srt", srt_cues)] else [])
  ++ (if bool_decide (lit "vtt" ∈ formats)
      then [(base_out ++ lit ".vtt", (lit "WEBVTT" ++ nl ++ nl) :: vtt_cues)] else [])
  ++ (if bool_decide (lit "json" ∈ formats)
      then [(base_out ++ lit ".json", [json_dumps result])] else []).

(** The format tags the serializer knows. *)
Definition recognized : gset pystr :=
  {[ lit "txt"; lit "srt"; lit "vtt"; lit "json" ]}.

(** ** Specification of the effects *)

(** The format tags the serializer knows, in the order it handles them. *)
Definition tags : list pystr := [lit "txt"; lit "srt"; lit "vtt"; lit "json"].

(** The recognized tags of a request, in that order. *)
Definition requested (formats : gset pystr) : list pystr :=
  filter (fun tag => tag ∈ formats) tags.

(** The file of a tag: [{base_out}.{tag}]. *)
Definition out_path (base_out : path) (tag : pystr) : path :=
  base_out ++ lit "." ++ tag.

(** A call to the operating system that opens or writes a file at one of
    the paths [P]. *)
Definition file_event_within (P : path -> Prop) (ev : event) : Prop :=
  match ev with
  | EMakedirs _ | EWarn _ => False
  | EOpen p | EWrite p _ => P p
  end.

(** A computation that makes no directory and touches no file outside
    the paths [P], whether it returns or raises. *)
Definition writes_within {A} (P : path -> Prop) (c : io A) : Prop :=
  forall w,
    dirs (snd (c w)) = dirs w /\ denied (snd (c w)) = denied w /\
    (forall p, ~ P p -> files (snd (c w)) !! p = files w !! p) /\
    exists evs, log (snd (c w)) = log w ++ evs /\ Forall (file_event_within P) evs.

(** The world after the planned files were written, one after the
    other. *)
Definition emit_all (plan : list (path * list pystr)) (w : world) : world :=
  fold_left (fun w pc => emit (fst pc) (snd pc) w) plan w.

(** The calls that write one file: it is opened, then each chunk is
    written. *)
Definition file_events (pc : path * list pystr) : list event :=
  EOpen (fst pc) :: map (EWrite (fst pc)) (snd pc).

(** ** Sample values *)

(** The binary64 number nearest to [m * 2^e]. *)
Definition dyadic (m e : Z) : float := binary_normalize 53 1024 m e false.

(** [float.fromhex("0x1.00eadbc3be93bp+63")], about 9.26e18 seconds. *)
Definition far_secs : float := S754_finite false 4519738977544507 11.

(** The double nearest to 59.9996, [float.fromhex("0x1.dfff2e48e8a72p+5")]. *)
Definition near_minute : float := S754_finite false 8444193006324338 (-47).

(** The files opened by a trace, in order. *)
Definition opened (evs : list event) : list path :=
  flat_map (fun ev => match ev with EOpen p => [p] | _ => [] end) evs.

(** The world before any call. *)
Definition empty_world : world :=
  {| dirs := ∅; files := ∅; denied := ∅; log := [] |}.

(** A word with its text; the timings play no part in the rendering. *)
Definition word_of (s : pystr) : Word :=
  {| w_word := s; w_start := float_of_Z 0; w_end := float_of_Z 0 |}.

(** A result of two segments, the second with its words. *)
Definition sample_result : TranscriptionResult :=
  {| r_text := lit "  Hello world. Hi there. " ++ nl;
     r_segments :=
       [ {| seg_start := float_of_Z 0; seg_end := dyadic 5 (-1);
            seg_text := lit " Hello world."; seg_words := None |};
         {| seg_start := dyadic 5 (-1); seg_end := dyadic 7323 (-1);
            seg_text := lit " Hi there.";
            seg_words := Some [word_of (lit "hi"); word_of (lit "there")] |} ] |}.

(** A segment that ends before it starts, at a negative time. *)
Definition reversed_segment : Segment :=
  {| seg_start := float_of_Z 5; seg_end := float_of_Z (-1);
     seg_text := lit "back"; seg_words := None |}.

(** An encoder for the sample runs. *)
Definition sample_json (result : TranscriptionResult) : pystr := lit "{}".

(** The code points of ASCII. *)
Definition is_ascii (s : pystr) : Prop := Forall (fun c => (c < 128)%N) s.

(** The warning for an input that is no regular file. *)
Definition skipped (input : path) : event := EWarn (lit "Skipping (not found): " ++ input).

(** A world with a log extended. *)
Definition logged (w : world) (evs : list event) : world :=
  {| dirs := dirs w; files := files w; denied := denied w; log := log w ++ evs |}.

(** An engine for the sample runs: it fails on the input [bad.mp3]. *)
Definition sample_engine (input : path) : res TranscriptionResult :=
  if bool_decide (input = lit "bad.mp3") then Raise RuntimeError else Ok sample_result.

(** The sample result followed by a segment that starts at a NaN and one
    more segment. *)
Definition broken_result : TranscriptionResult :=
  {| r_text := r_text sample_result;
     r_segments :=
       r_segments sample_result ++
       {| seg_start := S754_nan; seg_end := float_of_Z 4;
          seg_text := lit "lost"; seg_words := None |} :: [reversed_segment] |}.

(** A world with two audio files in the current directory. *)
Definition sample_world : world :=
  {| dirs := ∅; files := {[ lit "bad.mp3" := []; lit "a.mp3" := [] ]};
     denied := ∅; log := [] |}.
Local Open Scope Z_scope.

Local Open Scope Z_scope.

Lemma digits2_log2 m : Zpos (digits2_pos m) = Z.log2 (Zpos m) + 1.
Proof.
  assert (H : digits2_pos m = Pos.size m) by (induction m; simpl; congruence).
  rewrite H. symmetry.
  assert (Hgt := Pos.size_gt m). assert (Hle := Pos.size_le m).
  assert (Hgt' : Zpos m < Zpos (2 ^ Pos.size m)) by lia.
  assert (Hle' : Zpos (2 ^ Pos.size m) <= 2 * Zpos m) by lia.
  clear Hgt Hle. rename Hgt' into Hgt. rename Hle' into Hle.
  rewrite Pos2Z.inj_pow in Hgt, Hle.
  assert (Z.log2 (Z.pos m) = Z.pos (Pos.size m) - 1); [|lia].
  apply Z.log2_unique; [lia|].
  replace (Z.succ (Z.pos (Pos.size m) - 1)) with (Z.pos (Pos.size m)) by lia.
  split; [|lia].
  replace (Z.pos (Pos.size m)) with (Z.succ (Z.pos (Pos.size m) - 1)) in Hle by lia.
  rewrite Z.pow_succ_r in Hle by lia. lia.
Qed.

Lemma Zdigits2_log2 m : 0 < m -> Zdigits2 m = Z.log2 m + 1.
Proof. destruct m; try lia. intros _. apply digits2_log2. Qed.

(* bounds *)
Lemma Zdigits2_bounds m : 0 < m -> 2 ^ (Zdigits2 m - 1) <= m < 2 ^ Zdigits2 m.
Proof.
  intros H. rewrite Zdigits2_log2 by lia.
  replace (Z.log2 m + 1 - 1) with (Z.log2 m) by lia.
  pose proof (Z.log2_spec m H). replace (Z.log2 m + 1) with (Z.succ (Z.log2 m)) by lia. lia.
Qed.

Lemma Zdigits2_le m k : 0 < m -> 0 <= k -> m < 2 ^ k -> Zdigits2 m <= k.
Proof.
  intros H Hk Hlt. rewrite Zdigits2_log2 by lia.
  apply Z.log2_lt_pow2 in Hlt; lia.
Qed.

Lemma Zdigits2_shift m k : 0 < m -> 0 <= k -> Zdigits2 (m * 2 ^ k) = Zdigits2 m + k.
Proof.
  intros H Hk. assert (0 < 2 ^ k) by (apply Z.pow_pos_nonneg; lia).
  rewrite !Zdigits2_log2 by nia. rewrite Z.log2_mul_pow2 by lia. lia.
Qed.

Lemma iter_xO m d : Zpos (Pos.iter xO m d) = Zpos m * 2 ^ Zpos d.
Proof.
  revert m. induction d using Pos.peano_ind; intros m.
  - simpl. lia.
  - rewrite Pos.iter_succ. rewrite Pos2Z.inj_xO, IHd, Pos2Z.inj_succ, Z.pow_succ_r by lia. lia.
Qed.

Lemma shl_align_spec m e e' :
  let r := shl_align m e e' in
  snd r = Z.min e e' /\ Zpos (fst r) = Zpos m * 2 ^ (e - Z.min e e').
Proof.
  unfold shl_align. destruct (e' - e) eqn:E; simpl.
  - split; [lia|]. replace (e - Z.min e e') with 0 by lia. rewrite Z.pow_0_r. lia.
  - split; [lia|]. replace (e - Z.min e e') with 0 by lia. rewrite Z.pow_0_r. lia.
  - split; [lia|]. rewrite iter_xO. replace (e - Z.min e e') with (Z.pos p) by lia. reflexivity.
Qed.

Lemma iter_pos_iter {A} (f : A -> A) p x : SpecFloat.iter_pos f p x = Pos.iter f x p.
Proof.
  revert x. induction p; intros x; simpl; rewrite ?IHp; auto.
  rewrite <- !Pos.iter_swap. reflexivity.
Qed.

(* exact right shift *)
Lemma shr_1_even m : shr_1 (Build_shr_record (2 * m) false false) = Build_shr_record m false false.
Proof. destruct m; reflexivity. Qed.

Lemma shr_exact p m :
  Pos.iter shr_1 (Build_shr_record (m * 2 ^ Zpos p) false false) p = Build_shr_record m false false.
Proof.
  revert m. induction p using Pos.peano_ind; intros m.
  - change (shr_1 (Build_shr_record (m * 2 ^ 1) false false) = Build_shr_record m false false).
    replace (m * 2 ^ 1) with (2 * m) by lia. apply shr_1_even.
  - rewrite Pos.iter_succ_r. rewrite Pos2Z.inj_succ, Z.pow_succ_r by lia.
    replace (m * (2 * 2 ^ Z.pos p)) with (2 * (m * 2 ^ Z.pos p)) by lia.
    rewrite shr_1_even. apply IHp.
Qed.


Lemma fexp64_eq e : fexp64 e = Z.max (e - 53) (-1074).
Proof. reflexivity. Qed.

Lemma bra_noshift s m e :
  fexp64 (Zpos (digits2_pos m) + e) <= e -> e <= 971 ->
  bra s (Zpos m) e loc_Exact = S754_finite s m e.
Proof.
  intros Hn He. unfold binary_round_aux, shr_fexp.
  change (Zdigits2 (Z.pos m)) with (Zpos (digits2_pos m)).
  assert (Hshr : forall mrs, shr mrs e (fexp64 (Z.pos (digits2_pos m) + e) - e) = (mrs, e)).
  { intros mrs. unfold shr. destruct (fexp64 (Z.pos (digits2_pos m) + e) - e) eqn:E; auto; lia. }
  rewrite Hshr. cbn [shr_record_of_loc loc_of_shr_record shr_m round_nearest_even].
  change (Zdigits2 (Z.pos m)) with (Zpos (digits2_pos m)).
  rewrite Hshr. cbn [shr_m].
  replace (e <=? 1024 - 53) with true by (symmetry; apply Z.leb_le; lia).
  reflexivity.
Qed.

Lemma bra_shift s (M : Z) (m p : positive) e :
  M = Zpos m * 2 ^ Zpos p ->
  fexp64 (Zdigits2 M + e) - e = Zpos p -> e + Zpos p <= 971 ->
  bra s M e loc_Exact = S754_finite s m (e + Zpos p).
Proof.
  intros HM Hn He.
  assert (Hd : Zdigits2 M = Zpos (digits2_pos m) + Zpos p).
  { rewrite HM. rewrite Zdigits2_shift by lia. reflexivity. }
  unfold binary_round_aux, shr_fexp.
  rewrite Hn. unfold shr at 1. rewrite iter_pos_iter.
  cbn [shr_record_of_loc]. rewrite HM. rewrite shr_exact.
  cbn [shr_record_of_loc loc_of_shr_record shr_m round_nearest_even].
  change (Zdigits2 (Z.pos m)) with (Zpos (digits2_pos m)).
  replace (Z.pos (digits2_pos m) + (e + Z.pos p)) with (Zdigits2 M + e) by lia.
  replace (fexp64 (Zdigits2 M + e) - (e + Z.pos p)) with 0 by lia.
  cbn [shr shr_m].
  replace (e + Z.pos p <=? 1024 - 53) with true by (symmetry; apply Z.leb_le; lia).
  reflexivity.
Qed.

(** powers of two in Q *)
Local Open Scope Q_scope.

Lemma Qpow2_pos e : 0 < 2 ^ e.
Proof. apply Qpower_0_lt. reflexivity. Qed.

Lemma Qpow2_nonneg_int e : (0 <= e)%Z -> 2 ^ e == inject_Z (2 ^ e).
Proof.
  intros H. change 2 with (inject_Z 2). rewrite Zpower_Qpower by lia. reflexivity.
Qed.

Lemma Qpow2_add a b : 2 ^ (a + b) == 2 ^ a * 2 ^ b.
Proof. apply Qpower_plus. discriminate. Qed.

Lemma Qpow2_scale (m : Z) (e k : Z) :
  (0 <= k)%Z -> inject_Z (m * 2 ^ k) * 2 ^ e == inject_Z m * 2 ^ (e + k).
Proof.
  intros Hk. rewrite Qpow2_add, (Qpow2_nonneg_int k) by lia.
  rewrite inject_Z_mult. ring.
Qed.

(** An integer times a power of two that is an integer. *)
Lemma scaled_int (m v e : Z) :
  inject_Z m * 2 ^ e == inject_Z v ->
  if (0 <=? e)%Z then (m * 2 ^ e)%Z = v else m = (v * 2 ^ (- e))%Z.
Proof.
  intros H. destruct (Z.leb_spec 0 e) as [He|He].
  - rewrite Qpow2_nonneg_int in H by lia. rewrite <- inject_Z_mult in H.
    apply inject_Z_injective. exact H.
  - assert (H2 : inject_Z m == inject_Z v * 2 ^ (- e)).
    { rewrite <- H. rewrite <- Qmult_assoc, <- Qpow2_add.
      replace (e + - e)%Z with 0%Z by lia. simpl. ring. }
    rewrite Qpow2_nonneg_int in H2 by lia. rewrite <- inject_Z_mult in H2.
    apply inject_Z_injective. exact H2.
Qed.

Local Open Scope Z_scope.


Lemma binary_round_exact s m e :
  representable m e ->
  exists M E,
    binary_round 53 1024 s m e = S754_finite s M E /\
    E = fexp64 (Zpos (digits2_pos M) + E) /\ E <= 971 /\
    (inject_Z (Zpos M) * 2 ^ E == inject_Z (Zpos m) * 2 ^ e)%Q.
Proof.
  intros [HE Hrep]. set (E := fexp64 (Zpos (digits2_pos m) + e)) in *.
  unfold binary_round. fold E.
  destruct (shl_align_spec m e E) as [Hsnd Hfst].
  destruct (shl_align m e E) as [mz ez] eqn:Hsh. simpl in Hsnd, Hfst.
  destruct (Z.le_gt_cases E e) as [Hle|Hgt].
  - (* left shift *)
    subst ez. replace (Z.min e E) with E in * by lia.
    assert (Hd : Zpos (digits2_pos mz) + E = Zpos (digits2_pos m) + e).
    { change (Zdigits2 (Zpos mz) + E = Zdigits2 (Zpos m) + e).
      rewrite Hfst, Zdigits2_shift by lia. lia. }
    exists mz, E. rewrite bra_noshift; [|rewrite Hd; fold E; lia|lia].
    split; [reflexivity|]. split; [rewrite Hd; reflexivity|]. split; [lia|].
    rewrite Hfst. rewrite Qpow2_scale by lia. replace (E + (e - E)) with e by lia. reflexivity.
  - (* right shift of zero bits *)
    destruct Hrep as [?|[k Hk]]; [lia|].
    subst ez. replace (Z.min e E) with e in * by lia. replace (e - e) with 0 in Hfst by lia.
    assert (mz = m) by (rewrite Z.pow_0_r in Hfst; lia). subst mz.
    destruct (E - e) as [|p|p] eqn:Hp; try lia.
    exists k, E. rewrite (bra_shift s (Zpos m) k p e Hk); [| |lia].
    + replace (e + Z.pos p) with E by lia.
      assert (Hd : Zpos (digits2_pos k) + E = Zpos (digits2_pos m) + e).
      { change (Zdigits2 (Zpos k) + E = Zdigits2 (Zpos m) + e).
        rewrite Hk, Zdigits2_shift by lia. lia. }
      split; [reflexivity|]. split; [rewrite Hd; reflexivity|]. split; [lia|].
      rewrite Hk. rewrite Qpow2_scale by lia. replace (e + Z.pos p) with E by lia. reflexivity.
    + change (Zdigits2 (Zpos m)) with (Zpos (digits2_pos m)). fold E. lia.
Qed.

Lemma valid_finite s m e :
  valid_binary 53 1024 (S754_finite s m e) = true ->
  fexp64 (Zpos (digits2_pos m) + e) = e /\ e <= 971.
Proof.
  simpl. unfold bounded, canonical_mantissa. intros H.
  apply andb_prop in H. destruct H as [H1 H2].
  apply Z.eqb_eq in H1. apply Z.leb_le in H2. split; [exact H1|lia].
Qed.

Lemma valid_bounds s m e :
  valid_binary 53 1024 (S754_finite s m e) = true ->
  Zpos (digits2_pos m) <= 53 /\ -1074 <= e <= 971.
Proof.
  intros H. apply valid_finite in H. destruct H as [H1 H2].
  rewrite fexp64_eq in H1. lia.
Qed.

Lemma rep_small m e :
  Zpos (digits2_pos m) <= 53 -> -1074 <= e -> e <= 971 -> representable m e.
Proof.
  intros Hd He He'. unfold representable. rewrite fexp64_eq. split; [lia|left; lia].
Qed.

Lemma rep_int m e v :
  (inject_Z (Zpos m) * 2 ^ e == inject_Z v)%Q -> 0 < v < 2 ^ 53 -> representable m e.
Proof.
  intros H Hv. apply scaled_int in H.
  assert (Hdv : Zdigits2 v <= 53) by (apply Zdigits2_le; lia).
  assert (Hdv0 : 0 < Zdigits2 v) by (rewrite Zdigits2_log2 by lia; pose proof (Z.log2_nonneg v); lia).
  unfold representable. rewrite fexp64_eq.
  destruct (Z.leb_spec 0 e) as [He|He].
  - assert (Hd : Zpos (digits2_pos m) + e = Zdigits2 v).
    { rewrite <- H. rewrite Zdigits2_shift by lia. reflexivity. }
    rewrite Hd. split; [lia|left; lia].
  - assert (Hd : Zpos (digits2_pos m) + e = Zdigits2 v).
    { change (Zdigits2 (Zpos m) + e = Zdigits2 v). rewrite H, Zdigits2_shift by lia. lia. }
    rewrite Hd. split; [lia|].
    set (E := Z.max (Zdigits2 v - 53) (-1074)).
    destruct (Z.le_gt_cases E e) as [Hle|Hgt]; [left; exact Hle|right].
    assert (0 < v * 2 ^ (- E)) by (apply Z.mul_pos_pos; [lia|apply Z.pow_pos_nonneg; lia]).
    exists (Z.to_pos (v * 2 ^ (- E))). rewrite Z2Pos.id by lia.
    rewrite H. rewrite <- Z.mul_assoc, <- Z.pow_add_r by lia. f_equal. f_equal. lia.
Qed.

(** [binary_normalize] on a non-zero integer mantissa. *)
Lemma normalize_exact (M : Z) e sz :
  M <> 0 -> representable (Z.to_pos (Z.abs M)) e ->
  exists m' E,
    binary_normalize 53 1024 M e sz = S754_finite (M <? 0) m' E /\
    valid_binary 53 1024 (S754_finite (M <? 0) m' E) = true /\
    (F2Q (S754_finite (M <? 0) m' E) == inject_Z M * 2 ^ e)%Q.
Proof.
  intros HM Hrep. destruct M as [|p|p]; [congruence| |]; simpl Z.abs in Hrep; simpl Z.to_pos in Hrep.
  - destruct (binary_round_exact false p e Hrep) as (m' & E & Hr & Hc & HE & Hv).
    exists m', E. simpl. rewrite Hr. split; [reflexivity|]. split.
    + unfold bounded, canonical_mantissa. rewrite <- Hc, Z.eqb_refl. simpl. apply Z.leb_le. lia.
    + exact Hv.
  - destruct (binary_round_exact true p e Hrep) as (m' & E & Hr & Hc & HE & Hv).
    exists m', E. simpl. rewrite Hr. split; [reflexivity|]. split.
    + unfold bounded, canonical_mantissa. rewrite <- Hc, Z.eqb_refl. simpl. apply Z.leb_le. lia.
    + unfold F2Q, cond_Zopp. change (Z.neg p) with (- Z.pos p)%Z.
      rewrite !inject_Z_opp.
      transitivity (- (inject_Z (Z.pos m') * 2 ^ E))%Q; [ring|].
      rewrite Hv. ring.
Qed.

Local Open Scope Q_scope.

Lemma F2Q_finite s m e : F2Q (S754_finite s m e) = inject_Z (cond_Zopp s (Zpos m)) * 2 ^ e.
Proof. reflexivity. Qed.

Lemma cond_Zopp_mul s a b : (cond_Zopp s a * b)%Z = cond_Zopp s (a * b)%Z.
Proof. destruct s; simpl; lia. Qed.

Lemma align_value s m e e' :
  (e' <= e)%Z ->
  inject_Z (cond_Zopp s (Zpos (fst (shl_align m e e')))) * 2 ^ e' == F2Q (S754_finite s m e).
Proof.
  intros H. destruct (shl_align_spec m e e') as [_ Hf]. rewrite Hf.
  replace (Z.min e e') with e' by lia.
  rewrite <- cond_Zopp_mul. rewrite Qpow2_scale by lia.
  replace (e' + (e - e'))%Z with e by lia. reflexivity.
Qed.

Lemma Qabs_scaled (M : Z) e : Qabs (inject_Z M * 2 ^ e) == inject_Z (Z.abs M) * 2 ^ e.
Proof.
  rewrite Qabs_Qmult. rewrite (Qabs_pos (2 ^ e)) by (apply Qlt_le_weak, Qpow2_pos).
  apply Qmult_comp; [|reflexivity]. unfold Qabs, inject_Z. simpl. reflexivity.
Qed.

(** Rounding an integer multiple of a power of two whose value is a small
    integer changes nothing. *)
Lemma normalize_int (M : Z) e (v : Z) sz :
  inject_Z M * 2 ^ e == inject_Z v -> (Z.abs v < 2 ^ 53)%Z ->
  let r := binary_normalize 53 1024 M e sz in
  is_finite r = true /\ valid_binary 53 1024 r = true /\ F2Q r == inject_Z v /\
  (v <> 0%Z -> sign_bit r = (v <? 0)%Z) /\ (v = 0%Z -> r = S754_zero sz).
Proof.
  intros Hv Hb. destruct (Z.eq_dec M 0%Z) as [->|HM].
  - assert (v = 0%Z).
    { apply inject_Z_injective. rewrite <- Hv. ring. }
    subst v. simpl. repeat split; try reflexivity. congruence.
  - assert (Hs : v <> 0%Z /\ (M <? 0)%Z = (v <? 0)%Z).
    { pose proof (scaled_int _ _ _ Hv) as Hs.
      destruct (Z.leb_spec 0 e) as [He|He].
      - assert (0 < 2 ^ e)%Z by (apply Z.pow_pos_nonneg; lia).
        split; [nia|]. destruct (Z.ltb_spec M 0), (Z.ltb_spec v 0); auto; nia.
      - assert (0 < 2 ^ (- e))%Z by (apply Z.pow_pos_nonneg; lia).
        split; [nia|]. destruct (Z.ltb_spec M 0), (Z.ltb_spec v 0); auto; nia. }
    destruct Hs as [Hv0 Hsign].
    assert (Hrep : representable (Z.to_pos (Z.abs M)) e).
    { apply (rep_int _ _ (Z.abs v)); [|lia].
      rewrite Z2Pos.id by lia. rewrite <- Qabs_scaled, Hv.
      unfold Qabs, inject_Z. simpl. reflexivity. }
    destruct (normalize_exact M e sz HM Hrep) as (m' & E & Hr & Hval & HQ).
    simpl. rewrite Hr. repeat split.
    + exact Hval.
    + rewrite HQ. exact Hv.
    + intros _. simpl. exact Hsign.
    + intros. contradiction.
Qed.


Lemma fsub_exact x y v :
  is_finite x = true -> is_finite y = true ->
  F2Q x - F2Q y == inject_Z v -> (Z.abs v < 2 ^ 53)%Z ->
  is_finite (fsub x y) = true /\ F2Q (fsub x y) == inject_Z v.
Proof.
  intros Fx Fy Hv Hb.
  destruct x as [sx|sx| |sx mx ex], y as [sy|sy| |sy my ey]; try discriminate.
  - (* zero - zero *)
    assert (v = 0%Z) by (apply inject_Z_injective; rewrite <- Hv; simpl; ring). subst v.
    destruct sx, sy; simpl; split; reflexivity.
  - (* zero - finite *)
    unfold fsub, SFsub. split; [reflexivity|].
    rewrite <- Hv. rewrite !F2Q_finite. simpl F2Q. destruct sy; simpl cond_Zopp; simpl negb.
    + change (Z.neg my) with (- Z.pos my)%Z. rewrite inject_Z_opp. ring.
    + change (Z.neg my) with (- Z.pos my)%Z. rewrite inject_Z_opp. ring.
  - (* finite - zero *)
    unfold fsub, SFsub. split; [assumption|].
    rewrite <- Hv. simpl (F2Q (S754_zero sy)). ring.
  - (* finite - finite *)
    unfold fsub, SFsub. set (ez := Z.min ex ey).
    set (M := (cond_Zopp sx (Z.pos (fst (shl_align mx ex ez))) -
               cond_Zopp sy (Z.pos (fst (shl_align my ey ez))))%Z).
    assert (HM : inject_Z M * 2 ^ ez == inject_Z v).
    { rewrite <- Hv. unfold M. rewrite <- (align_value sx mx ex ez), <- (align_value sy my ey ez) by lia.
      unfold Zminus. rewrite inject_Z_plus, inject_Z_opp. ring. }
    destruct (normalize_int M ez v false HM Hb) as (H1 & H2 & H3 & _).
    split; assumption.
Qed.

Lemma fadd_exact x y v :
  is_finite x = true -> is_finite y = true ->
  F2Q x + F2Q y == inject_Z v -> (Z.abs v < 2 ^ 53)%Z ->
  is_finite (fadd x y) = true /\ F2Q (fadd x y) == inject_Z v.
Proof.
  intros Fx Fy Hv Hb.
  destruct x as [sx|sx| |sx mx ex], y as [sy|sy| |sy my ey]; try discriminate.
  - assert (v = 0%Z) by (apply inject_Z_injective; rewrite <- Hv; simpl; ring). subst v.
    destruct sx, sy; simpl; split; reflexivity.
  - unfold fadd, SFadd. split; [assumption|].
    rewrite <- Hv. simpl (F2Q (S754_zero sx)). ring.
  - unfold fadd, SFadd. split; [assumption|].
    rewrite <- Hv. simpl (F2Q (S754_zero sy)). ring.
  - unfold fadd, SFadd. set (ez := Z.min ex ey).
    set (M := (cond_Zopp sx (Z.pos (fst (shl_align mx ex ez))) +
               cond_Zopp sy (Z.pos (fst (shl_align my ey ez))))%Z).
    assert (HM : inject_Z M * 2 ^ ez == inject_Z v).
    { rewrite <- Hv. unfold M. rewrite <- (align_value sx mx ex ez), <- (align_value sy my ey ez) by lia.
      rewrite inject_Z_plus. ring. }
    destruct (normalize_int M ez v false HM Hb) as (H1 & H2 & H3 & _).
    split; assumption.
Qed.

Lemma bra_exact s m e :
  representable m e -> (e <= 971)%Z ->
  exists M E, binary_round_aux 53 1024 s (Zpos m) e loc_Exact = S754_finite s M E /\
              inject_Z (Zpos M) * 2 ^ E == inject_Z (Zpos m) * 2 ^ e.
Proof.
  intros [HE Hrep] He. set (E := fexp64 (Zpos (digits2_pos m) + e)) in *.
  destruct (Z.le_gt_cases E e) as [Hle|Hgt].
  - exists m, e. rewrite bra_noshift by (fold E; lia). split; reflexivity.
  - destruct Hrep as [?|[k Hk]]; [lia|].
    destruct (E - e)%Z as [|p|p] eqn:Hp; try lia.
    exists k, E. rewrite (bra_shift s (Zpos m) k p e Hk).
    + replace (e + Z.pos p)%Z with E by lia. split; [reflexivity|].
      rewrite Hk. rewrite Qpow2_scale by lia. replace (e + Z.pos p)%Z with E by lia. reflexivity.
    + change (Zdigits2 (Zpos m)) with (Zpos (digits2_pos m)). fold E. lia.
    + lia.
Qed.

Lemma mag_int m e v :
  inject_Z (Zpos m) * 2 ^ e == inject_Z v -> (0 < v)%Z ->
  (Zpos (digits2_pos m) + e = Zdigits2 v)%Z.
Proof.
  intros H Hv. apply scaled_int in H. destruct (Z.leb_spec 0 e) as [He|He].
  - rewrite <- H. rewrite Zdigits2_shift by lia. reflexivity.
  - change (Zdigits2 (Zpos m) + e = Zdigits2 v)%Z. rewrite H, Zdigits2_shift by lia. lia.
Qed.

Lemma Zdigits2_mul a b : (0 < a)%Z -> (0 < b)%Z -> (Zdigits2 (a * b) <= Zdigits2 a + Zdigits2 b)%Z.
Proof.
  intros Ha Hb. pose proof (Zdigits2_bounds a Ha). pose proof (Zdigits2_bounds b Hb).
  assert (0 < Zdigits2 a)%Z by (rewrite Zdigits2_log2 by lia; pose proof (Z.log2_nonneg a); lia).
  assert (0 < Zdigits2 b)%Z by (rewrite Zdigits2_log2 by lia; pose proof (Z.log2_nonneg b); lia).
  apply Zdigits2_le; [nia|lia|]. rewrite Z.pow_add_r by lia. nia.
Qed.

Lemma Zdigits2_pos v : (0 < v)%Z -> (0 < Zdigits2 v)%Z.
Proof. intros. rewrite Zdigits2_log2 by lia. pose proof (Z.log2_nonneg v). lia. Qed.

Lemma div_core_exact mx ex my ey a k :
  inject_Z (Zpos mx) * 2 ^ ex == inject_Z (a * k) ->
  inject_Z (Zpos my) * 2 ^ ey == inject_Z k ->
  (0 < k)%Z -> (0 < a < 2 ^ 53)%Z ->
  exists e', (e' <= 0)%Z /\
    SFdiv_core_binary 53 1024 (Zpos mx) ex (Zpos my) ey = ((a * 2 ^ (- e'))%Z, e', loc_Exact).
Proof.
  intros Hx Hy Hk Ha.
  assert (Hd1 := mag_int _ _ _ Hx ltac:(nia)).
  assert (Hd2 := mag_int _ _ _ Hy Hk).
  unfold SFdiv_core_binary.
  change (Zdigits2 (Z.pos mx)) with (Zpos (digits2_pos mx)).
  change (Zdigits2 (Z.pos my)) with (Zpos (digits2_pos my)).
  rewrite Hd1, Hd2.
  set (e' := Z.min (fexp64 (Zdigits2 (a * k) - Zdigits2 k)) (ex - ey)).
  assert (He' : (e' <= 0)%Z).
  { pose proof (Zdigits2_mul a k ltac:(lia) Hk).
    assert (Zdigits2 a <= 53)%Z by (apply Zdigits2_le; lia).
    unfold e'. rewrite fexp64_eq. lia. }
  exists e'. split; [exact He'|].
  set (s := (ex - ey - e')%Z). assert (Hs : (0 <= s)%Z) by (unfold s, e'; lia).
  set (m' := match s with Z0 => Zpos mx | Zpos _ => Z.shiftl (Zpos mx) s | Zneg _ => 0%Z end).
  assert (Hm' : m' = (Zpos mx * 2 ^ s)%Z).
  { unfold m'. clear - Hs. clearbody s. destruct s as [|p|p]; try lia.
    rewrite Z.shiftl_mul_pow2 by lia. reflexivity. }
  assert (Hval : inject_Z m' * 2 ^ e' == inject_Z (a * Zpos my)).
  { rewrite Hm'. rewrite Qpow2_scale by lia. unfold s.
    replace (e' + (ex - ey - e'))%Z with (ex + - ey)%Z by lia.
    rewrite Qpow2_add. rewrite Qmult_assoc, Hx.
    rewrite !inject_Z_mult. rewrite <- Hy.
    rewrite <- !Qmult_assoc. rewrite (Qmult_comm (2 ^ ey)). rewrite <- Qpow2_add.
    replace (- ey + ey)%Z with 0%Z by lia. simpl. ring. }
  apply scaled_int in Hval.
  assert (Hm'' : m' = (a * 2 ^ (- e') * Zpos my)%Z).
  { destruct (Z.leb_spec 0 e').
    - replace e' with 0%Z in * by lia. simpl in *. lia.
    - lia. }
  rewrite Hm''.
  pose proof (Z.div_eucl_eq (a * 2 ^ (- e') * Z.pos my) (Zpos my) ltac:(lia)) as Hdiv.
  pose proof (Z.mod_pos_bound (a * 2 ^ (- e') * Z.pos my) (Zpos my) ltac:(lia)) as Hmod.
  unfold Z.modulo in Hmod.
  destruct (Z.div_eucl (a * 2 ^ (- e') * Z.pos my) (Z.pos my)) as [q r] eqn:Hqr.
  assert (Hq : q = (a * 2 ^ (- e'))%Z /\ r = 0%Z).
  { assert (r = (Z.pos my) * (a * 2 ^ (- e') - q))%Z by lia.
    assert (a * 2 ^ (- e') - q = 0)%Z by nia. split; nia. }
  destruct Hq as [-> ->].
  unfold new_location. destruct (Z.even (Z.pos my)); reflexivity.
Qed.

Lemma F2Q_abs s m e : inject_Z (Zpos m) * 2 ^ e == Qabs (F2Q (S754_finite s m e)).
Proof.
  rewrite F2Q_finite, Qabs_scaled. destruct s; reflexivity.
Qed.

Lemma Qabs_inject (v : Z) : Qabs (inject_Z v) == inject_Z (Z.abs v).
Proof. unfold Qabs, inject_Z. simpl. reflexivity. Qed.

Lemma F2Q_sign s m e v :
  F2Q (S754_finite s m e) == inject_Z v -> v <> 0%Z /\ s = (v <? 0)%Z.
Proof.
  rewrite F2Q_finite. intros H. apply scaled_int in H.
  destruct (Z.leb_spec 0 e) as [He|He].
  - assert (0 < 2 ^ e)%Z by (apply Z.pow_pos_nonneg; lia).
    destruct s; simpl in H.
    + split; [nia|]. symmetry. apply Z.ltb_lt. nia.
    + split; [nia|]. symmetry. apply Z.ltb_ge. nia.
  - assert (0 < 2 ^ (- e))%Z by (apply Z.pow_pos_nonneg; lia).
    destruct s; simpl in H.
    + split; [nia|]. symmetry. apply Z.ltb_lt. nia.
    + split; [nia|]. symmetry. apply Z.ltb_ge. nia.
Qed.

Lemma fdiv_exact x my ey n k :
  is_finite x = true ->
  F2Q (S754_finite false my ey) == inject_Z k -> (0 < k)%Z ->
  F2Q x == inject_Z (n * k) -> (Z.abs n < 2 ^ 53)%Z ->
  is_finite (fdiv x (S754_finite false my ey)) = true /\
  F2Q (fdiv x (S754_finite false my ey)) == inject_Z n.
Proof.
  intros Fx Hy Hk Hx Hn.
  destruct x as [sx|sx| |sx mx ex]; try discriminate.
  - assert (n = 0%Z).
    { assert (n * k = 0)%Z by (apply inject_Z_injective; rewrite <- Hx; reflexivity). nia. }
    subst n. simpl. split; reflexivity.
  - destruct (F2Q_sign _ _ _ _ Hx) as [Hnk Hsx].
    assert (Hn0 : n <> 0%Z) by nia.
    assert (Hax : inject_Z (Zpos mx) * 2 ^ ex == inject_Z (Z.abs n * k)).
    { rewrite F2Q_abs with (s := sx), Hx, Qabs_inject.
      rewrite Z.abs_mul, (Z.abs_eq k) by lia. reflexivity. }
    rewrite F2Q_finite in Hy. simpl cond_Zopp in Hy.
    destruct (div_core_exact mx ex my ey (Z.abs n) k Hax Hy Hk ltac:(lia)) as (e' & He' & Hcore).
    unfold fdiv, SFdiv. rewrite Hcore.
    assert (Hpos : (0 < Z.abs n * 2 ^ (- e'))%Z).
    { apply Z.mul_pos_pos; [lia|apply Z.pow_pos_nonneg; lia]. }
    destruct (Z.abs n * 2 ^ (- e'))%Z as [|q|q] eqn:Hq; try lia.
    assert (Hqv : inject_Z (Zpos q) * 2 ^ e' == inject_Z (Z.abs n)).
    { rewrite <- Hq. rewrite Qpow2_scale by lia. replace (e' + - e')%Z with 0%Z by lia. simpl. ring. }
    assert (Hrep : representable q e') by (apply (rep_int _ _ (Z.abs n)); [exact Hqv|lia]).
    destruct (bra_exact (xorb sx false) q e' Hrep ltac:(lia)) as (M & E & Hr & Hv).
    rewrite Hr. split; [reflexivity|].
    rewrite F2Q_finite. rewrite xorb_false_r. rewrite Hsx.
    assert (Hsgn : (n * k <? 0)%Z = (n <? 0)%Z).
    { destruct (Z.ltb_spec (n * k) 0), (Z.ltb_spec n 0); auto; nia. }
    rewrite Hsgn. destruct (Z.ltb_spec n 0); simpl cond_Zopp.
    + change (Z.neg M) with (- Z.pos M)%Z. rewrite inject_Z_opp.
      transitivity (- (inject_Z (Z.pos M) * 2 ^ E)); [ring|]. rewrite Hv, Hqv.
      rewrite <- inject_Z_opp. replace (- Z.abs n)%Z with n by lia. reflexivity.
    + rewrite Hv, Hqv. replace (Z.abs n) with n by lia. reflexivity.
Qed.

Lemma scaled_int_cases (m v e : Z) :
  inject_Z m * 2 ^ e == inject_Z v ->
  ((0 <= e)%Z -> (m * 2 ^ e)%Z = v) /\ ((e < 0)%Z -> m = (v * 2 ^ (- e))%Z).
Proof.
  intros H. apply scaled_int in H. destruct (Z.leb_spec 0 e); split; intros; try lia; exact H.
Qed.

Lemma int_of_float_int x v :
  is_finite x = true -> F2Q x == inject_Z v -> int_of_float x = Ok v.
Proof.
  intros Fx Hv. destruct x as [sx|sx| |sx mx ex]; try discriminate.
  - simpl. f_equal. apply inject_Z_injective. rewrite <- Hv. reflexivity.
  - rewrite F2Q_finite in Hv. apply scaled_int_cases in Hv. destruct Hv as [Hp Hn].
    unfold int_of_float. f_equal.
    destruct ex as [|p|p].
    + rewrite <- Hp by lia. destruct sx; cbn [cond_Zopp]; lia.
    + rewrite <- Hp by lia. destruct sx; cbn [cond_Zopp]; lia.
    + specialize (Hn ltac:(lia)). change (- Z.neg p)%Z with (Z.pos p) in Hn.
      assert (0 < 2 ^ Z.pos p)%Z by (apply Z.pow_pos_nonneg; lia).
      destruct sx; cbn [cond_Zopp] in *.
      * assert (Hm : (Z.pos mx = (- v) * 2 ^ Z.pos p)%Z) by lia.
        rewrite Hm. rewrite Z.div_mul by lia. lia.
      * rewrite Hn. rewrite Z.div_mul by lia. reflexivity.
Qed.

Lemma ffloor_int x v :
  is_finite x = true -> F2Q x == inject_Z v -> (Z.abs v < 2 ^ 53)%Z ->
  is_finite (ffloor x) = true /\ F2Q (ffloor x) == inject_Z v.
Proof.
  intros Fx Hv Hb. destruct x as [sx|sx| |sx mx ex]; try discriminate.
  - split; [reflexivity|exact Hv].
  - destruct ex as [|p|p]; try (split; [reflexivity|exact Hv]).
    destruct (F2Q_sign _ _ _ _ Hv) as [Hv0 Hs].
    pose proof Hv as Hv'. rewrite F2Q_finite in Hv'. apply scaled_int_cases in Hv'.
    destruct Hv' as [_ Hv']. specialize (Hv' ltac:(lia)). change (- Z.neg p)%Z with (Z.pos p) in Hv'.
    assert (H2 : (0 < 2 ^ Z.pos p)%Z) by (apply Z.pow_pos_nonneg; lia).
    unfold ffloor.
    assert (Hq : (Z.pos mx / 2 ^ Z.pos p = Z.abs v)%Z /\ (Z.pos mx mod 2 ^ Z.pos p = 0)%Z).
    { destruct sx; cbn [cond_Zopp] in Hv'.
      - assert (Hm : (Z.pos mx = (- v) * 2 ^ Z.pos p)%Z) by lia.
        rewrite Hm. rewrite Z.div_mul, Z.mod_mul by lia. symmetry in Hs. apply Z.ltb_lt in Hs. lia.
      - rewrite Hv'. rewrite Z.div_mul, Z.mod_mul by lia. symmetry in Hs. apply Z.ltb_ge in Hs. lia. }
    destruct Hq as [-> ->]. simpl (0 =? 0)%Z. cbv iota.
    destruct sx.
    + symmetry in Hs. apply Z.ltb_lt in Hs.
      destruct (normalize_int (- Z.abs v) 0 v true) as (H1 & _ & H3 & _); [|lia|split; assumption].
      simpl. rewrite Qmult_1_r. replace (- Z.abs v)%Z with v by lia. reflexivity.
    + symmetry in Hs. apply Z.ltb_ge in Hs.
      destruct (normalize_int (Z.abs v) 0 v false) as (H1 & _ & H3 & _); [|lia|split; assumption].
      simpl. rewrite Qmult_1_r. replace (Z.abs v) with v by lia. reflexivity.
Qed.

Lemma Qfloor_scaled (a b : Z) (c : Q) :
  (0 < b)%Z -> 0 < c -> Qfloor (inject_Z a * c / (inject_Z b * c)) = (a / b)%Z.
Proof.
  intros Hb Hc.
  assert (E : inject_Z a * c / (inject_Z b * c) == a # Z.to_pos b).
  { assert (Hc' : ~ c == 0) by (apply Qnot_eq_sym, Qlt_not_eq, Hc).
    assert (Hb' : ~ inject_Z b == 0).
    { intros H. apply (inject_Z_injective b 0) in H. lia. }
    rewrite Qmake_Qdiv. rewrite Z2Pos.id by lia. field. split; assumption. }
  rewrite E. unfold Qfloor. rewrite Z2Pos.id by lia. reflexivity.
Qed.

Lemma digits_le_of_le (r : positive) (m : positive) :
  (Zpos r <= Zpos m)%Z -> (Zpos (digits2_pos r) <= Zpos (digits2_pos m))%Z.
Proof.
  intros H. rewrite !digits2_log2. pose proof (Z.log2_le_mono _ _ H). lia.
Qed.

Lemma fmod_spec x my ey :
  is_finite x = true -> valid_binary 53 1024 x = true ->
  valid_binary 53 1024 (S754_finite false my ey) = true ->
  let y := S754_finite false my ey in
  let r := fmod x y in
  is_finite r = true /\ valid_binary 53 1024 r = true /\
  (is_zero r = false -> sign_bit r = sign_bit x) /\
  Qabs (F2Q r) == Qabs (F2Q x) - inject_Z (Qfloor (Qabs (F2Q x) / F2Q y)) * F2Q y.
Proof.
  intros Fx Vx Vy y r. subst r.
  destruct x as [sx|sx| |sx mx ex]; try discriminate.
  - (* zero *)
    simpl. repeat split; reflexivity.
  - destruct (valid_bounds _ _ _ Vx) as [Hdx Hex]. destruct (valid_bounds _ _ _ Vy) as [Hdy Hey].
    unfold y, fmod. set (ez := Z.min ex ey).
    set (a := Z.pos (fst (shl_align mx ex ez))). set (b := Z.pos (fst (shl_align my ey ez))).
    assert (Ha : inject_Z a * 2 ^ ez == Qabs (F2Q (S754_finite sx mx ex))).
    { unfold a. rewrite <- F2Q_abs. apply (align_value false mx ex ez). lia. }
    assert (Hb : inject_Z b * 2 ^ ez == F2Q (S754_finite false my ey)).
    { unfold b. apply (align_value false my ey ez). lia. }
    assert (Hapos : (0 < a)%Z) by (unfold a; lia).
    assert (Hbpos : (0 < b)%Z) by (unfold b; lia).
    assert (Hfl : Qfloor (Qabs (F2Q (S754_finite sx mx ex)) / F2Q (S754_finite false my ey)) = (a / b)%Z).
    { rewrite <- Ha, <- Hb. apply Qfloor_scaled; [unfold b; lia|apply Qpow2_pos]. }
    rewrite Hfl. rewrite Z.rem_mod_nonneg by (unfold a, b; lia).
    assert (Hmod := Z.mod_pos_bound a b ltac:(unfold b; lia)).
    assert (Hdm := Z.div_mod a b ltac:(unfold b; lia)).
    assert (Hval : inject_Z (a mod b) * 2 ^ ez ==
                   Qabs (F2Q (S754_finite sx mx ex)) - inject_Z (a / b) * F2Q (S754_finite false my ey)).
    { rewrite <- Ha, <- Hb. replace (a mod b)%Z with (a - (a / b) * b)%Z by lia.
      unfold Zminus. rewrite inject_Z_plus, inject_Z_opp, inject_Z_mult. ring. }
    destruct (Z.eq_dec (a mod b) 0%Z) as [H0|H0].
    + rewrite H0. replace (cond_Zopp sx 0) with 0%Z by (destruct sx; reflexivity).
      simpl binary_normalize.
      split; [reflexivity|]. split; [reflexivity|]. split; [intros Hz; discriminate Hz|].
      rewrite <- Hval, H0. unfold F2Q. change (Qabs 0) with 0. change (inject_Z 0) with 0. ring.
    + (* the remainder has at most 53 digits *)
      assert (Hrep : representable (Z.to_pos (Z.abs (cond_Zopp sx (a mod b)))) ez).
      { replace (Z.abs (cond_Zopp sx (a mod b))) with (a mod b)%Z by (destruct sx; cbn [cond_Zopp]; lia).
        apply rep_small; [|lia|lia].
        destruct (shl_align_spec mx ex ez) as [_ Hfa]. destruct (shl_align_spec my ey ez) as [_ Hfb].
        fold a in Hfa. fold b in Hfb.
        destruct (Z.le_ge_cases ex ey).
        - (* ez = ex: a = mx *)
          replace (Z.min ex ez) with ex in Hfa by lia. replace (ex - ex)%Z with 0%Z in Hfa by lia.
          rewrite Z.pow_0_r in Hfa.
          assert (Hle : (Zpos (Z.to_pos (a mod b)) <= Zpos mx)%Z).
          { rewrite Z2Pos.id by lia.
            pose proof (Z.mod_le a b (Z.lt_le_incl _ _ Hapos) Hbpos) as Hml.
            clearbody a b. lia. }
          apply digits_le_of_le in Hle. lia.
        - replace (Z.min ey ez) with ey in Hfb by lia. replace (ey - ey)%Z with 0%Z in Hfb by lia.
          rewrite Z.pow_0_r in Hfb.
          assert (Hle : (Zpos (Z.to_pos (a mod b)) <= Zpos my)%Z).
          { rewrite Z2Pos.id by lia. lia. }
          apply digits_le_of_le in Hle. lia. }
      assert (Hne : cond_Zopp sx (a mod b) <> 0%Z) by (destruct sx; cbn [cond_Zopp]; lia).
      destruct (normalize_exact _ ez sx Hne Hrep) as (m' & E & Hr & Hv & HQ).
      rewrite Hr. assert (Hs : (cond_Zopp sx (a mod b) <? 0)%Z = sx).
      { destruct sx; cbn [cond_Zopp]; [apply Z.ltb_lt|apply Z.ltb_ge]; lia. }
      rewrite Hs in *.
      split; [reflexivity|]. split; [exact Hv|]. split; [reflexivity|].
      rewrite HQ. rewrite Qabs_scaled.
      replace (Z.abs (cond_Zopp sx (a mod b))) with (a mod b)%Z by (destruct sx; cbn [cond_Zopp]; lia).
      exact Hval.
Qed.

Local Open Scope Q_scope.

Lemma F2Q_zero_inv z : is_finite z = true -> F2Q z == 0 -> exists s, z = S754_zero s.
Proof.
  intros Fz Hz. destruct z as [s|s| |s m e]; try discriminate.
  - exists s. reflexivity.
  - destruct (F2Q_sign s m e 0 Hz) as [H _]. congruence.
Qed.

Lemma F2Q_nonneg_sign s m e : 0 <= F2Q (S754_finite s m e) -> s = false.
Proof.
  rewrite F2Q_finite. destruct s; [|reflexivity]. intros H. exfalso.
  assert (Hp := Qpow2_pos e). cbn [cond_Zopp] in H.
  change (Z.neg m) with (- Z.pos m)%Z in H. rewrite inject_Z_opp in H.
  assert (0 < inject_Z (Z.pos m)) by (unfold Qlt; simpl; lia).
  assert (0 < inject_Z (Z.pos m) * 2 ^ e) by (apply Qmult_lt_0_compat; assumption).
  lra.
Qed.

Lemma is_zero_zero s : is_zero (S754_zero s) = true.
Proof. reflexivity. Qed.

Lemma is_zero_finite s m e : is_zero (S754_finite s m e) = false.
Proof. destruct s; reflexivity. Qed.

Lemma lt_zero_finite s m e : lt_zero (S754_finite s m e) = s.
Proof. destruct s; reflexivity. Qed.

Lemma Qmod_bounds t d : 0 < d -> 0 <= Qmod t d /\ Qmod t d < d.
Proof.
  intros Hd. unfold Qmod.
  assert (H1 := Qfloor_le (t / d)). assert (H2 := Qlt_floor (t / d)).
  assert (Ht : t == t / d * d) by (field; lra).
  rewrite inject_Z_plus in H2.
  split.
  - assert (inject_Z (Qfloor (t / d)) * d <= t / d * d) by (apply Qmult_le_compat_r; lra). lra.
  - assert (t / d * d < (inject_Z (Qfloor (t / d)) + inject_Z 1) * d) by (apply Qmult_lt_compat_r; lra).
    change (inject_Z 1) with 1 in H. lra.
Qed.

Lemma Qfloor_nonneg q : 0 <= q -> (0 <= Qfloor q)%Z.
Proof. intros H. change 0%Z with (Qfloor 0). apply Qfloor_resp_le. exact H. Qed.

Lemma F2Q_nonneg_abs x : is_finite x = true -> 0 <= F2Q x -> Qabs (F2Q x) == F2Q x.
Proof. intros _ H. apply Qabs_pos. exact H. Qed.

Lemma sign_nonneg x : is_finite x = true -> is_zero x = false -> 0 <= F2Q x -> sign_bit x = false.
Proof.
  intros Fx Hz H. destruct x as [s|s| |s m e]; try discriminate.
  simpl. apply (F2Q_nonneg_sign s m e H).
Qed.

Lemma F2Q_sign_false x : is_finite x = true -> sign_bit x = false -> 0 <= F2Q x.
Proof.
  intros Fx Hs. destruct x as [s|s| |s m e]; try discriminate Fx; simpl in Hs; subst; simpl F2Q.
  - apply Qle_refl.
  - apply Qmult_le_0_compat; [unfold Qle; simpl; lia|apply Qlt_le_weak, Qpow2_pos].
Qed.

(** The remainder part, shared by [float_rem] and [float_div_mod]. *)
Lemma fmod_nonneg x my ey :
  let y := S754_finite false my ey in
  is_finite x = true -> valid_binary 53 1024 x = true -> valid_binary 53 1024 y = true ->
  0 <= F2Q x ->
  let r := fmod x y in
  is_finite r = true /\ valid_binary 53 1024 r = true /\
  (is_zero r = false -> lt_zero r = false) /\ F2Q r == Qmod (F2Q x) (F2Q y).
Proof.
  intros y Fx Vx Vy Hx r.
  destruct (fmod_spec x my ey Fx Vx Vy) as (Fr & Vr & Sr & Hr). fold y in Fr, Vr, Sr, Hr. fold r in Fr, Vr, Sr, Hr.
  assert (Hs : is_zero r = false -> sign_bit r = false).
  { intros Hz. rewrite (Sr Hz). destruct x as [s|s| |s m e]; try discriminate Fx.
    - unfold r in Hz. simpl in Hz. discriminate Hz.
    - simpl. apply (F2Q_nonneg_sign s m e Hx). }
  clearbody r.
  split; [exact Fr|]. split; [exact Vr|]. split.
  - intros Hz. specialize (Hs Hz). destruct r as [s|s| |s m e]; try discriminate Fr.
    + rewrite is_zero_zero in Hz. discriminate Hz.
    + rewrite lt_zero_finite. exact Hs.
  - unfold Qmod. rewrite <- (F2Q_nonneg_abs x Fx Hx) at 1.
    assert (Hfl : Qfloor (Qabs (F2Q x) / F2Q y) = Qfloor (F2Q x / F2Q y)).
    { apply Qfloor_comp. rewrite (F2Q_nonneg_abs x Fx Hx). reflexivity. }
    rewrite <- Hfl, <- Hr.
    destruct (is_zero r) eqn:Hz.
    + destruct r as [s|s| |s m e]; try discriminate Fr.
      * reflexivity.
      * rewrite is_zero_finite in Hz. discriminate Hz.
    + symmetry. apply Qabs_pos. apply F2Q_sign_false; [exact Fr|apply Hs; reflexivity].
Qed.

Lemma half_not_lt_zero s : SFltb half (S754_zero s) = false.
Proof. destruct s; reflexivity. Qed.

Lemma float_div_mod_nonneg x my ey k :
  let y := S754_finite false my ey in
  is_finite x = true -> valid_binary 53 1024 x = true -> valid_binary 53 1024 y = true ->
  F2Q y == inject_Z k -> (0 < k)%Z ->
  0 <= F2Q x -> F2Q x < inject_Z (2 ^ 53) ->
  int_of_float (fst (float_div_mod x y)) = Ok (Qfloor (F2Q x / F2Q y)).
Proof.
  intros y Fx Vx Vy Hy Hk Hx0 Hx1.
  set (n := Qfloor (F2Q x / F2Q y)).
  destruct (fmod_nonneg x my ey Fx Vx Vy Hx0) as (Fm & Vm & Hlt & Hm).
  fold y in Fm, Vm, Hlt, Hm.
  assert (Hypos : 0 < F2Q y) by (rewrite Hy; unfold Qlt; simpl; lia).
  destruct (Qmod_bounds (F2Q x) (F2Q y) Hypos) as [Hm0 Hm1].
  assert (Hn0 : (0 <= n)%Z).
  { apply Qfloor_nonneg. apply Qle_shift_div_l; [exact Hypos|]. lra. }
  assert (Hsub : F2Q x - F2Q (fmod x y) == inject_Z (n * k)).
  { rewrite Hm. unfold Qmod. fold n. rewrite inject_Z_mult, Hy. ring. }
  assert (Hnk : (n * k < 2 ^ 53)%Z).
  { rewrite Zlt_Qlt. rewrite <- Hsub. rewrite Hm. lra. }
  assert (Hn1 : (n < 2 ^ 53)%Z) by nia.
  destruct (fsub_exact x (fmod x y) (n * k) Fx Fm Hsub ltac:(lia)) as [Fs Hs].
  destruct (fdiv_exact (fsub x (fmod x y)) my ey n k Fs Hy Hk Hs ltac:(lia)) as [Fd Hd].
  fold y in Fd, Hd.
  unfold float_div_mod. set (mod0 := fmod x y) in *. set (div0 := fdiv (fsub x mod0) y) in *.
  assert (Hdiv : fst (if negb (is_zero mod0)
                      then if xorb (lt_zero y) (lt_zero mod0)
                           then (fsub div0 one, fadd mod0 y) else (div0, mod0)
                      else (div0, copysign0 y)) = div0).
  { destruct (is_zero mod0) eqn:Hz; [reflexivity|]. simpl negb. cbv iota.
    rewrite (Hlt eq_refl). unfold y. rewrite lt_zero_finite. reflexivity. }
  destruct (if negb (is_zero mod0)
            then if xorb (lt_zero y) (lt_zero mod0)
                 then (fsub div0 one, fadd mod0 y) else (div0, mod0)
            else (div0, copysign0 y)) as [dv md].
  simpl in Hdiv. subst dv. cbn [fst].
  destruct (is_zero div0) eqn:Hz; cbn [negb].
  - (* the quotient is zero *)
    assert (n = 0%Z).
    { destruct div0 as [s|s| |s m e]; try discriminate Fd.
      - apply inject_Z_injective. rewrite <- Hd. reflexivity.
      - rewrite is_zero_finite in Hz. discriminate Hz. }
    rewrite H. reflexivity.
  - destruct (ffloor_int div0 n Fd Hd ltac:(lia)) as [Ff Hf].
    assert (Hdiff : F2Q div0 - F2Q (ffloor div0) == inject_Z 0).
    { rewrite Hd, Hf. change (inject_Z 0) with 0. ring. }
    destruct (fsub_exact div0 (ffloor div0) 0 Fd Ff Hdiff ltac:(simpl; lia)) as [Fz Hz0].
    destruct (F2Q_zero_inv _ Fz Hz0) as [s Hzs].
    rewrite Hzs, half_not_lt_zero.
    apply int_of_float_int; assumption.
Qed.

Lemma float_floor_div_nonneg x my ey k :
  let y := S754_finite false my ey in
  is_finite x = true -> valid_binary 53 1024 x = true -> valid_binary 53 1024 y = true ->
  F2Q y == inject_Z k -> (0 < k)%Z ->
  0 <= F2Q x -> F2Q x < inject_Z (2 ^ 53) ->
  exists q, float_floor_div x y = Ok q /\ int_of_float q = Ok (Qfloor (F2Q x / F2Q y)).
Proof.
  intros y Fx Vx Vy Hy Hk Hx0 Hx1. unfold float_floor_div.
  unfold y at 1. rewrite is_zero_finite. eexists. split; [reflexivity|].
  apply (float_div_mod_nonneg x my ey k); assumption.
Qed.

Lemma float_rem_nonneg x my ey :
  let y := S754_finite false my ey in
  is_finite x = true -> valid_binary 53 1024 x = true -> valid_binary 53 1024 y = true ->
  0 <= F2Q x ->
  exists r, float_rem x y = Ok r /\
    is_finite r = true /\ valid_binary 53 1024 r = true /\ sign_bit r = false /\
    F2Q r == Qmod (F2Q x) (F2Q y).
Proof.
  intros y Fx Vx Vy Hx0. unfold float_rem. unfold y at 1. rewrite is_zero_finite.
  destruct (fmod_nonneg x my ey Fx Vx Vy Hx0) as (Fm & Vm & Hlt & Hm).
  fold y in Fm, Vm, Hlt, Hm. eexists. split; [reflexivity|].
  destruct (is_zero (fmod x y)) eqn:Hz; cbn [negb].
  - (* copysign(0.0, wx) *)
    unfold copysign0. change (sign_bit y) with false.
    split; [reflexivity|]. split; [reflexivity|]. split; [reflexivity|].
    rewrite <- Hm. destruct (fmod x y) as [s|s| |s m e]; try discriminate Fm.
    + reflexivity.
    + rewrite is_zero_finite in Hz. discriminate Hz.
  - rewrite (Hlt eq_refl). unfold y at 1. rewrite lt_zero_finite. cbn [xorb].
    split; [exact Fm|]. split; [exact Vm|]. split; [|exact Hm].
    destruct (fmod x y) as [s|s| |s m e]; try discriminate Fm.
    + rewrite is_zero_zero in Hz. discriminate Hz.
    + specialize (Hlt eq_refl). rewrite lt_zero_finite in Hlt. exact Hlt.
Qed.

Local Open Scope Z_scope.

Lemma shr_1_m r : 0 <= shr_m r -> shr_m (shr_1 r) = shr_m r / 2.
Proof.
  destruct r as [m b c]. simpl. intros H.
  destruct m as [|[p|p|]|p]; simpl; try lia; try reflexivity.
  - rewrite Pos2Z.inj_xI. apply Z.div_unique with 1; lia.
  - rewrite Pos2Z.inj_xO. apply Z.div_unique with 0; lia.
Qed.

Lemma shr_m_iter p r : 0 <= shr_m r -> shr_m (Pos.iter shr_1 r p) = shr_m r / 2 ^ Zpos p.
Proof.
  intros H. induction p using Pos.peano_ind.
  - simpl Pos.iter. rewrite shr_1_m by lia. reflexivity.
  - rewrite Pos.iter_succ. rewrite shr_1_m.
    + rewrite IHp. rewrite Pos2Z.inj_succ, Z.pow_succ_r by lia.
      rewrite Z.div_div by (try apply Z.pow_pos_nonneg; lia). f_equal. lia.
    + rewrite IHp. apply Z.div_pos; [lia|apply Z.pow_pos_nonneg; lia].
Qed.

Lemma rne_bounds m l : m <= round_nearest_even m l <= m + 1.
Proof. destruct l as [|[| |]]; simpl; try lia. destruct (Z.even m); lia. Qed.

Lemma Zdigits2_0 : Zdigits2 0 = 0.
Proof. reflexivity. Qed.

Lemma Zdigits2_nonneg m : 0 <= m -> 0 <= Zdigits2 m.
Proof. destruct m; simpl; lia. Qed.

Lemma Zdigits2_mono a b : 0 <= a <= b -> Zdigits2 a <= Zdigits2 b.
Proof.
  intros [Ha Hab]. destruct (Z.eq_dec a 0%Z) as [->|Hne].
  - apply Zdigits2_nonneg. lia.
  - rewrite !Zdigits2_log2 by lia. pose proof (Z.log2_le_mono a b Hab). lia.
Qed.

Lemma Zdigits2_lt_pow m k : 0 <= m -> 0 <= k -> Zdigits2 m <= k -> m < 2 ^ k.
Proof.
  intros Hm Hk H. destruct (Z.eq_dec m 0%Z) as [->|Hne]; [apply Z.pow_pos_nonneg; lia|].
  pose proof (Zdigits2_bounds m ltac:(lia)) as [_ Hb].
  eapply Z.lt_le_trans; [exact Hb|]. apply Z.pow_le_mono_r; lia.
Qed.

Lemma Zdigits2_pow2 k : 0 <= k -> Zdigits2 (2 ^ k) = k + 1.
Proof.
  intros Hk. rewrite Zdigits2_log2 by (apply Z.pow_pos_nonneg; lia).
  rewrite Z.log2_pow2 by lia. reflexivity.
Qed.

(** Digits of a quotient by a power of two. *)
Lemma Zdigits2_div m p : 0 < m -> 0 <= p -> Zdigits2 (m / 2 ^ p) = Z.max 0 (Zdigits2 m - p).
Proof.
  intros Hm Hp. pose proof (Zdigits2_bounds m Hm) as [Hlo Hhi].
  pose proof (Zdigits2_pos m Hm) as Hd.
  assert (H2p : 0 < 2 ^ p) by (apply Z.pow_pos_nonneg; lia).
  destruct (Z.le_gt_cases (Zdigits2 m) p) as [Hle|Hgt].
  - rewrite Z.div_small; [simpl; lia|]. split; [lia|].
    eapply Z.lt_le_trans; [exact Hhi|]. apply Z.pow_le_mono_r; lia.
  - rewrite Z.max_r by lia.
    assert (Hq : 2 ^ (Zdigits2 m - p - 1) <= m / 2 ^ p < 2 ^ (Zdigits2 m - p)).
    { split.
      - apply Z.div_le_lower_bound; [lia|]. rewrite <- Z.pow_add_r by lia.
        replace (p + (Zdigits2 m - p - 1)) with (Zdigits2 m - 1) by lia. exact Hlo.
      - apply Z.div_lt_upper_bound; [lia|]. rewrite <- Z.pow_add_r by lia.
        replace (p + (Zdigits2 m - p)) with (Zdigits2 m) by lia. exact Hhi. }
    assert (0 < 2 ^ (Zdigits2 m - p - 1)) by (apply Z.pow_pos_nonneg; lia).
    rewrite Zdigits2_log2 by lia.
    assert (Z.log2 (m / 2 ^ p) = Zdigits2 m - p - 1); [|lia].
    apply Z.log2_unique; [lia|]. replace (Z.succ (Zdigits2 m - p - 1)) with (Zdigits2 m - p) by lia.
    exact Hq.
Qed.

Lemma shr_m_of_loc m l : shr_m (shr_record_of_loc m l) = m.
Proof. destruct l as [|[| |]]; reflexivity. Qed.

Lemma shr_spec m l e n :
  0 <= m -> 0 <= n ->
  exists rec', shr (shr_record_of_loc m l) e n = (rec', e + n) /\ shr_m rec' = m / 2 ^ n.
Proof.
  intros Hm Hn. destruct n as [|p|p]; try lia.
  - exists (shr_record_of_loc m l). simpl. rewrite shr_m_of_loc, Z.add_0_r, Z.div_1_r. auto.
  - exists (Pos.iter shr_1 (shr_record_of_loc m l) p). unfold shr. rewrite iter_pos_iter.
    split; [reflexivity|]. rewrite shr_m_iter; rewrite shr_m_of_loc; [reflexivity|lia].
Qed.

(** Rounding without overflow: the result of [binary_round_aux] on a
    mantissa that needs no left shift is a zero or a valid finite number,
    not above the enclosing power of two. *)
Lemma bra_bounded s m e l :
  0 < m -> e <= fexp64 (Zdigits2 m + e) -> Zdigits2 m + e <= 1023 ->
  binary_round_aux 53 1024 s m e l = S754_zero s \/
  exists M E',
    binary_round_aux 53 1024 s m e l = S754_finite s M E' /\
    valid_binary 53 1024 (S754_finite s M E') = true /\
    (inject_Z (Zpos M) * 2 ^ E' <= 2 ^ (Z.max (Zdigits2 m + e) (fexp64 (Zdigits2 m + e))))%Q.
Proof.
  intros Hm Hn Hd. set (d := Zdigits2 m) in *. set (E := fexp64 (d + e)) in *.
  assert (HE : E = Z.max (d + e - 53) (-1074)) by reflexivity.
  assert (Hdpos : 0 < d) by (apply Zdigits2_pos; exact Hm).
  unfold binary_round_aux, shr_fexp. fold d. fold E.
  destruct (shr_spec m l e (E - e) ltac:(lia) ltac:(lia)) as (rec1 & Hshr & Hm1).
  rewrite Hshr. replace (e + (E - e)) with E by lia.
  set (m' := m / 2 ^ (E - e)) in *.
  set (m1 := round_nearest_even (shr_m rec1) (loc_of_shr_record rec1)).
  assert (Hr : m' <= m1 <= m' + 1) by (unfold m1; rewrite Hm1; apply rne_bounds).
  assert (Hm'0 : 0 <= m') by (apply Z.div_pos; [lia|apply Z.pow_pos_nonneg; lia]).
  assert (Hdm' : Zdigits2 m' = Z.max 0 (d - (E - e))) by (apply Zdigits2_div; lia).
  assert (Hm'lt : m' < 2 ^ (Z.max 0 (d - (E - e)))).
  { apply Zdigits2_lt_pow; lia. }
  assert (Hbound : (inject_Z m1 * 2 ^ E <= 2 ^ (Z.max (d + e) E))%Q).
  { assert (m1 <= 2 ^ (Z.max 0 (d - (E - e)))) by lia.
    rewrite Zle_Qle in H. rewrite <- Qpow2_nonneg_int in H by lia.
    eapply Qle_trans; [apply Qmult_le_compat_r; [exact H|apply Qlt_le_weak, Qpow2_pos]|].
    rewrite <- Qpow2_add. replace (Z.max 0 (d - (E - e)) + E) with (Z.max (d + e) E) by lia.
    apply Qle_refl. }
  destruct (Z.eq_dec m1 0%Z) as [H0|H0].
  - (* rounded to zero *)
    left. fold m1. rewrite H0. simpl shr_record_of_loc. rewrite Zdigits2_0.
    assert (Hn2 : fexp64 (0 + E) - E <= 0) by (rewrite fexp64_eq; lia).
    unfold shr. destruct (fexp64 (0 + E) - E) eqn:E2; try lia; reflexivity.
  - right. fold m1.
    destruct (Z.lt_ge_cases m1 (2 ^ 53)) as [Hlt|Hge].
    + (* no carry *)
      assert (Hd1 : Zdigits2 m1 <= 53) by (apply Zdigits2_le; lia).
      assert (Hd1' : Z.max 0 (d - (E - e)) <= Zdigits2 m1).
      { rewrite <- Hdm'. apply Zdigits2_mono. lia. }
      assert (Hcan : fexp64 (Zdigits2 m1 + E) = E) by (rewrite fexp64_eq; lia).
      rewrite Hcan. replace (E - E) with 0 by lia.
      cbn [shr shr_record_of_loc shr_m]. destruct m1 as [|M|M] eqn:EM; try lia.
      replace (E <=? 1024 - 53) with true by (symmetry; apply Z.leb_le; lia).
      exists M, E. split; [reflexivity|]. split; [|exact Hbound].
      simpl. unfold bounded, canonical_mantissa.
      change (Z.pos (digits2_pos M)) with (Zdigits2 (Z.pos M)).
      rewrite Hcan, Z.eqb_refl. simpl. apply Z.leb_le. lia.
    + (* carry into the next binade *)
      assert (Hc : m1 = 2 ^ 53).
      { assert (Z.max 0 (d - (E - e)) <= 53) by lia.
        assert (2 ^ Z.max 0 (d - (E - e)) <= 2 ^ 53) by (apply Z.pow_le_mono_r; lia). lia. }
      assert (Hdig : Zdigits2 m1 = 54) by (rewrite Hc; apply (Zdigits2_pow2 53); lia).
      rewrite Hdig. replace (fexp64 (54 + E) - E) with 1 by (rewrite fexp64_eq; lia).
      rewrite Hc. exists (2 ^ 52)%positive, (E + 1). split; [|split].
      * assert (Hs1 : shr (shr_record_of_loc (2 ^ 53) loc_Exact) E 1 =
                      (Build_shr_record (Z.pos (2 ^ 52)) false false, E + 1)) by reflexivity.
        rewrite Hs1. cbn [shr_m].
        replace (E + 1 <=? 1024 - 53) with true by (symmetry; apply Z.leb_le; lia).
        reflexivity.
      * simpl. unfold bounded, canonical_mantissa.
        replace (fexp 53 1024 (Z.pos (digits2_pos (2 ^ 52)) + (E + 1))) with (E + 1).
        -- rewrite Z.eqb_refl. simpl. apply Z.leb_le. lia.
        -- change (Z.pos (digits2_pos (2 ^ 52))) with 53. rewrite fexp64_eq. lia.
      * rewrite Hc in Hbound.
        assert (Heq : (inject_Z (Z.pos (2 ^ 52)) * 2 ^ (E + 1) == inject_Z (2 ^ 53) * 2 ^ E)%Q).
        { rewrite (Qpow2_add E 1). change (inject_Z (2 ^ 53)) with (inject_Z (Z.pos (2 ^ 52)) * 2 ^ 1)%Q.
          ring. }
        rewrite Heq. exact Hbound.
Qed.

Lemma mag_le (M e B : Z) :
  0 < M -> (inject_Z M * 2 ^ e < 2 ^ B)%Q -> Zdigits2 M + e <= B.
Proof.
  intros HM H. pose proof (Zdigits2_bounds M HM) as [Hlo _].
  pose proof (Zdigits2_pos M HM) as Hd.
  assert (H1 : (2 ^ (Zdigits2 M - 1 + e) < 2 ^ B)%Q).
  { eapply Qle_lt_trans; [|exact H]. rewrite Qpow2_add.
    apply Qmult_le_compat_r; [|apply Qlt_le_weak, Qpow2_pos].
    rewrite Qpow2_nonneg_int by lia. rewrite <- Zle_Qle. exact Hlo. }
  apply Qpower_lt_compat_l_inv in H1; [lia|reflexivity].
Qed.

Lemma value_lt_pow (m : positive) e : (inject_Z (Zpos m) * 2 ^ e < 2 ^ (Zpos (digits2_pos m) + e))%Q.
Proof.
  pose proof (Zdigits2_bounds (Zpos m) ltac:(lia)) as [_ Hhi].
  change (Zdigits2 (Zpos m)) with (Zpos (digits2_pos m)) in Hhi.
  rewrite Qpow2_add. apply Qmult_lt_compat_r; [apply Qpow2_pos|].
  rewrite Qpow2_nonneg_int by lia. rewrite <- Zlt_Qlt. exact Hhi.
Qed.

Lemma binary_round_bounded s m e :
  Zpos (digits2_pos m) + e <= 1023 ->
  binary_round 53 1024 s m e = S754_zero s \/
  exists M E',
    binary_round 53 1024 s m e = S754_finite s M E' /\
    valid_binary 53 1024 (S754_finite s M E') = true /\
    (inject_Z (Zpos M) * 2 ^ E' <=
       2 ^ (Z.max (Zpos (digits2_pos m) + e) (fexp64 (Zpos (digits2_pos m) + e))))%Q.
Proof.
  intros Hd. set (d := Zpos (digits2_pos m)) in *. set (E := fexp64 (d + e)).
  assert (HE : E = Z.max (d + e - 53) (-1074)) by reflexivity.
  destruct (Z.le_gt_cases E e) as [Hle|Hgt].
  - right. assert (Hrep : representable m e).
    { unfold representable. fold d. fold E. split; [lia|left; exact Hle]. }
    destruct (binary_round_exact s m e Hrep) as (M & E' & Hr & Hc & HE' & Hv).
    exists M, E'. split; [exact Hr|]. split.
    + simpl. unfold bounded, canonical_mantissa. rewrite <- Hc, Z.eqb_refl. simpl.
      apply Z.leb_le. lia.
    + rewrite Hv. eapply Qle_trans; [apply Qlt_le_weak, value_lt_pow|]. fold d.
      apply Qpower_le_compat_l; [lia|]. discriminate.
  - unfold binary_round. fold d. fold E.
    destruct (shl_align_spec m e E) as [Hsnd Hfst].
    destruct (shl_align m e E) as [mz ez]. simpl in Hsnd, Hfst. subst ez.
    replace (Z.min e E) with e in * by lia. replace (e - e) with 0 in Hfst by lia.
    rewrite Z.pow_0_r in Hfst. assert (mz = m) by lia. subst mz.
    apply (bra_bounded s (Zpos m) e loc_Exact); [lia| |].
    + change (Zdigits2 (Zpos m)) with d. fold E. lia.
    + change (Zdigits2 (Zpos m)) with d. exact Hd.
Qed.

Local Open Scope Q_scope.

(** Adding a positive float to a negative one of smaller magnitude. *)
Lemma fadd_neg_pos mx ex my ey (B : Z) :
  0 < F2Q (S754_finite true mx ex) + F2Q (S754_finite false my ey) ->
  F2Q (S754_finite false my ey) < 2 ^ B -> (-1074 <= B <= 1023)%Z ->
  let r := fadd (S754_finite true mx ex) (S754_finite false my ey) in
  is_finite r = true /\ valid_binary 53 1024 r = true /\ sign_bit r = false /\
  F2Q r <= 2 ^ B.
Proof.
  intros Hpos Hy HB r. subst r. unfold fadd, SFadd. set (ez := Z.min ex ey).
  set (M := (cond_Zopp true (Z.pos (fst (shl_align mx ex ez))) +
             cond_Zopp false (Z.pos (fst (shl_align my ey ez))))%Z).
  assert (HM : inject_Z M * 2 ^ ez == F2Q (S754_finite true mx ex) + F2Q (S754_finite false my ey)).
  { unfold M. rewrite <- (align_value true mx ex ez), <- (align_value false my ey ez) by lia.
    rewrite inject_Z_plus. ring. }
  assert (Hneg : F2Q (S754_finite true mx ex) < 0).
  { rewrite F2Q_finite. cbn [cond_Zopp]. change (Z.neg mx) with (- Z.pos mx)%Z.
    rewrite inject_Z_opp. assert (0 < inject_Z (Z.pos mx) * 2 ^ ex).
    { apply Qmult_lt_0_compat; [unfold Qlt; simpl; lia|apply Qpow2_pos]. }
    lra. }
  assert (HMpos : (0 < M)%Z).
  { destruct (Z.lt_ge_cases 0 M) as [|Hle]; [assumption|exfalso].
    assert (H0 : inject_Z M * 2 ^ ez <= 0 * 2 ^ ez).
    { apply Qmult_le_compat_r; [|apply Qlt_le_weak, Qpow2_pos].
      change 0 with (inject_Z 0). rewrite <- Zle_Qle. exact Hle. }
    rewrite Qmult_0_l in H0. lra. }
  destruct M as [|p|p] eqn:EM; try lia. cbn [binary_normalize].
  assert (Hmag : (Zdigits2 (Z.pos p) + ez <= B)%Z).
  { apply mag_le; [lia|]. rewrite HM. lra. }
  change (Zdigits2 (Z.pos p)) with (Z.pos (digits2_pos p)) in Hmag.
  destruct (binary_round_bounded false p ez ltac:(lia)) as [Hz|(M' & E' & Hr & Hv & Hb)].
  - rewrite Hz. repeat split. cbn [F2Q]. apply Qlt_le_weak, Qpow2_pos.
  - rewrite Hr. split; [reflexivity|]. split; [exact Hv|]. split; [reflexivity|].
    rewrite F2Q_finite. cbn [cond_Zopp]. eapply Qle_trans; [exact Hb|].
    apply Qpower_le_compat_l; [|discriminate]. rewrite fexp64_eq. lia.
Qed.

Lemma F2Q_neg_of_sign m e : F2Q (S754_finite true m e) == - Qabs (F2Q (S754_finite true m e)).
Proof.
  rewrite <- F2Q_abs. rewrite F2Q_finite. cbn [cond_Zopp].
  change (Z.neg m) with (- Z.pos m)%Z. rewrite inject_Z_opp. ring.
Qed.

(** [float_rem] never fails on a finite dividend and a positive divisor;
    the remainder is a valid float in [[0, 2^B]]. *)
Lemma float_rem_total x my ey (B : Z) :
  let y := S754_finite false my ey in
  is_finite x = true -> valid_binary 53 1024 x = true -> valid_binary 53 1024 y = true ->
  F2Q y < 2 ^ B -> (-1074 <= B <= 1023)%Z ->
  exists r, float_rem x y = Ok r /\
    is_finite r = true /\ valid_binary 53 1024 r = true /\ sign_bit r = false /\
    F2Q r <= 2 ^ B.
Proof.
  intros y Fx Vx Vy Hy HB. unfold float_rem. unfold y at 1. rewrite is_zero_finite.
  eexists. split; [reflexivity|].
  destruct (fmod_spec x my ey Fx Vx Vy) as (Fm & Vm & Sm & Hm). fold y in Fm, Vm, Sm, Hm.
  assert (Hypos : 0 < F2Q y).
  { unfold y. rewrite F2Q_finite. cbn [cond_Zopp].
    apply Qmult_lt_0_compat; [unfold Qlt; simpl; lia|apply Qpow2_pos]. }
  destruct (Qmod_bounds (Qabs (F2Q x)) (F2Q y) Hypos) as [Hq0 Hq1]. unfold Qmod in Hq0, Hq1.
  rewrite <- Hm in Hq0, Hq1.
  destruct (fmod x y) as [s|s| |s m e] eqn:Er; try discriminate Fm.
  - (* zero remainder *)
    rewrite is_zero_zero. cbn [negb]. unfold copysign0, y. cbn [sign_bit].
    split; [reflexivity|]. split; [reflexivity|]. split; [reflexivity|].
    cbn [F2Q]. apply Qlt_le_weak, Qpow2_pos.
  - rewrite is_zero_finite. cbn [negb]. unfold y at 1. rewrite !lt_zero_finite. cbn [xorb].
    destruct s.
    + (* negative remainder: mod += wx *)
      assert (Hsum : 0 < F2Q (S754_finite true m e) + F2Q y).
      { rewrite F2Q_neg_of_sign. lra. }
      apply (fadd_neg_pos m e my ey B Hsum Hy HB).
    + split; [reflexivity|]. split; [exact Vm|]. split; [reflexivity|].
      assert (Ha : Qabs (F2Q (S754_finite false m e)) == F2Q (S754_finite false m e)).
      { apply Qabs_pos. apply F2Q_sign_false; reflexivity. }
      rewrite Ha in Hq1. apply Qlt_le_weak. eapply Qlt_trans; [exact Hq1|exact Hy].
Qed.

(** The snapping of the quotient to an integral value, on a quotient that
    is already a small integer. *)
Lemma snap_int div v f :
  is_finite div = true -> F2Q div == inject_Z v -> (Z.abs v < 2 ^ 53)%Z ->
  int_of_float (if negb (is_zero div)
                then let fl := ffloor div in
                     if SFltb half (fsub div fl) then fadd fl one else fl
                else copysign0 f) = Ok v.
Proof.
  intros Fd Hd Hv. destruct (is_zero div) eqn:Hz; cbn [negb].
  - assert (v = 0%Z).
    { destruct div as [s|s| |s m e]; try discriminate Fd.
      - apply inject_Z_injective. rewrite <- Hd. reflexivity.
      - rewrite is_zero_finite in Hz. discriminate Hz. }
    subst v. reflexivity.
  - destruct (ffloor_int div v Fd Hd Hv) as [Ff Hf].
    assert (Hdiff : F2Q div - F2Q (ffloor div) == inject_Z 0).
    { rewrite Hd, Hf. change (inject_Z 0) with 0. ring. }
    destruct (fsub_exact div (ffloor div) 0 Fd Ff Hdiff ltac:(simpl; lia)) as [Fz Hz0].
    destruct (F2Q_zero_inv _ Fz Hz0) as [s Hzs].
    cbv zeta. rewrite Hzs, half_not_lt_zero.
    apply int_of_float_int; assumption.
Qed.

Lemma Qfloor_unique q z : inject_Z z <= q -> q < inject_Z (z + 1) -> Qfloor q = z.
Proof.
  intros H1 H2. assert (Ha := Qfloor_le q). assert (Hb := Qlt_floor q).
  assert (z < Qfloor q + 1)%Z by (rewrite Zlt_Qlt; lra).
  assert (Qfloor q < z + 1)%Z by (rewrite Zlt_Qlt; lra).
  lia.
Qed.

Lemma one_value : is_finite one = true /\ F2Q one == inject_Z 1.
Proof. split; reflexivity. Qed.

Lemma float_div_mod_neg mx ex my ey k :
  let x := S754_finite true mx ex in
  let y := S754_finite false my ey in
  valid_binary 53 1024 x = true -> valid_binary 53 1024 y = true ->
  F2Q y == inject_Z k -> (2 <= k)%Z ->
  Qabs (F2Q x) < inject_Z (2 ^ 53) ->
  int_of_float (fst (float_div_mod x y)) = Ok (Qfloor (F2Q x / F2Q y)).
Proof.
  intros x y Vx Vy Hy Hk Hx1.
  set (a := Qabs (F2Q x)) in *. set (n' := Qfloor (a / F2Q y)).
  destruct (fmod_spec x my ey eq_refl Vx Vy) as (Fm & Vm & Sm & Hm).
  fold y in Fm, Vm, Sm, Hm. fold a in Hm. fold n' in Hm.
  assert (Hypos : 0 < F2Q y) by (rewrite Hy; unfold Qlt; simpl; lia).
  destruct (Qmod_bounds a (F2Q y) Hypos) as [Hq0 Hq1]. unfold Qmod in Hq0, Hq1. fold n' in Hq0, Hq1.
  assert (Hx : F2Q x == - a) by (apply F2Q_neg_of_sign).
  assert (Ha0 : 0 <= a) by apply Qabs_nonneg.
  assert (Hn0 : (0 <= n')%Z).
  { apply Qfloor_nonneg. apply Qle_shift_div_l; [exact Hypos|]. lra. }
  assert (Hnk : (n' * k < 2 ^ 53)%Z).
  { rewrite Zlt_Qlt. rewrite inject_Z_mult, <- Hy. lra. }
  assert (Hn1 : (2 * n' < 2 ^ 53)%Z) by nia.
  assert (Hmv : F2Q (fmod x y) == - (a - inject_Z n' * F2Q y)).
  { rewrite <- Hm. destruct (fmod x y) as [s|s| |s m e] eqn:Er; try discriminate Fm.
    - reflexivity.
    - assert (s = true) by (apply (Sm (is_zero_finite s m e))). subst s.
      apply F2Q_neg_of_sign. }
  assert (Hsub : F2Q x - F2Q (fmod x y) == inject_Z (- n' * k)).
  { rewrite Hx, Hmv. rewrite inject_Z_mult, inject_Z_opp, Hy. ring. }
  destruct (fsub_exact x (fmod x y) (- n' * k) eq_refl Fm Hsub ltac:(lia)) as [Fs Hs].
  destruct (fdiv_exact (fsub x (fmod x y)) my ey (- n') k Fs Hy ltac:(lia) Hs ltac:(lia)) as [Fd Hd].
  fold y in Fd, Hd.
  unfold float_div_mod. set (mod0 := fmod x y) in *. set (div0 := fdiv (fsub x mod0) y) in *.
  destruct (is_zero mod0) eqn:Hz; cbn [negb].
  - (* the division is exact *)
    cbn [fst].
    assert (Hfl : Qfloor (F2Q x / F2Q y) = (- n')%Z).
    { assert (Hm0 : F2Q mod0 == 0).
      { destruct mod0 as [s|s| |s m e]; try discriminate Fm; [reflexivity|].
        rewrite is_zero_finite in Hz. discriminate Hz. }
      assert (Hq : F2Q x / F2Q y == inject_Z (- n')).
      { rewrite inject_Z_opp. field_simplify_eq; [|lra]. rewrite Hx. rewrite Hmv in Hm0. lra. }
      rewrite (Qfloor_comp _ _ Hq). apply Qfloor_Z. }
    rewrite Hfl. apply snap_int; [exact Fd|exact Hd|lia].
  - (* a remainder of the sign of the dividend: the quotient steps down *)
    assert (Hlt : lt_zero mod0 = true).
    { destruct mod0 as [s|s| |s m e]; try discriminate Fm.
      - rewrite is_zero_zero in Hz. discriminate Hz.
      - rewrite lt_zero_finite. apply (Sm eq_refl). }
    rewrite Hlt. unfold y at 1. rewrite lt_zero_finite. cbn [xorb fst].
    destruct one_value as [F1 H1].
    assert (Hdv : F2Q div0 - F2Q one == inject_Z (- n' - 1)).
    { rewrite Hd, H1. unfold Zminus. rewrite inject_Z_plus, !inject_Z_opp. ring. }
    destruct (fsub_exact div0 one (- n' - 1) Fd F1 Hdv ltac:(lia)) as [Fq Hq].
    assert (Hrho : 0 < a - inject_Z n' * F2Q y).
    { destruct (Qle_lt_or_eq _ _ Hq0) as [|He]; [assumption|exfalso].
      assert (Hm0 : F2Q mod0 == 0) by (rewrite Hmv, <- He; ring).
      destruct (F2Q_zero_inv mod0 Fm Hm0) as [s ->]. rewrite is_zero_zero in Hz. discriminate Hz. }
    assert (Hfl : Qfloor (F2Q x / F2Q y) = (- n' - 1)%Z).
    { apply Qfloor_unique.
      - apply Qle_shift_div_l; [exact Hypos|]. rewrite Hx.
        unfold Zminus. rewrite inject_Z_plus, !inject_Z_opp. change (inject_Z 1) with 1. lra.
      - apply Qlt_shift_div_r; [exact Hypos|]. rewrite Hx.
        replace (- n' - 1 + 1)%Z with (- n')%Z by lia. rewrite inject_Z_opp. lra. }
    rewrite Hfl. apply snap_int; [exact Fq|exact Hq|lia].
Qed.

(** * Facts about strings and number formatting *)

Local Open Scope Z_scope.

Lemma lit_String a s : lit (String a s) = N_of_ascii a :: lit s.
Proof. reflexivity. Qed.

Lemma replace_app old new s1 s2 :
  replace old new (s1 ++ s2) = replace old new s1 ++ replace old new s2.
Proof. unfold replace. apply map_app. Qed.

(** A decimal numeral holds no point. *)
Lemma replace_uint c d :
  replace (ch ".") c (lit (NilEmpty.string_of_uint d)) = lit (NilEmpty.string_of_uint d).
Proof.
  induction d; cbn [NilEmpty.string_of_uint]; rewrite ?lit_String;
    [reflexivity|cbn [replace map] in *; f_equal; exact IHd ..].
Qed.

Lemma replace_str_of_Z c z : replace (ch ".") c (str_of_Z z) = str_of_Z z.
Proof.
  unfold str_of_Z. destruct (Z.to_int z) as [d|d]; cbn [NilZero.string_of_int].
  - destruct d; try apply replace_uint. reflexivity.
  - rewrite lit_String. cbn [replace map]. f_equal.
    destruct d; try apply replace_uint. reflexivity.
Qed.

Lemma replace_repeat0 c n : replace (ch ".") c (repeat (ch "0") n) = repeat (ch "0") n.
Proof. induction n; [reflexivity|]. cbn [repeat replace map] in *. f_equal. exact IHn. Qed.

Lemma replace_zero_pad c w sign digits :
  replace (ch ".") c sign = sign -> replace (ch ".") c digits = digits ->
  replace (ch ".") c (zero_pad w sign digits) = zero_pad w sign digits.
Proof.
  intros Hs Hd. unfold zero_pad. rewrite !replace_app, replace_repeat0, Hs, Hd. reflexivity.
Qed.

Lemma replace_format_d c w z : replace (ch ".") c (format_d w z) = format_d w z.
Proof.
  unfold format_d. apply replace_zero_pad; [destruct (z <? 0); reflexivity|apply replace_str_of_Z].
Qed.

Lemma length_zero_pad w sign digits :
  (w <= length (zero_pad w sign digits))%nat /\
  ((length sign + length digits <= w)%nat -> length (zero_pad w sign digits) = w).
Proof.
  unfold zero_pad. rewrite !length_app, repeat_length.
  generalize (length sign) (length digits). intros a b. split; [|intros H]; lia.
Qed.

(** Numerals of small numbers, by enumeration. *)
Lemma numeral_within_spec width bound z :
  numeral_within width bound = true -> 0 <= z < Z.of_nat bound ->
  (length (str_of_Z z) <= width)%nat.
Proof.
  unfold numeral_within. intros H Hz. rewrite forallb_forall in H.
  specialize (H (Z.to_nat z)). rewrite Z2Nat.id in H by lia.
  apply Nat.leb_le, H. apply in_seq. lia.
Qed.

Lemma length_str_lt_1000 z : 0 <= z < 1000 -> (length (str_of_Z z) <= 3)%nat.
Proof. apply (numeral_within_spec 3 1000). vm_compute. reflexivity. Qed.

Lemma length_str_lt_100 z : 0 <= z < 100 -> (length (str_of_Z z) <= 2)%nat.
Proof. apply (numeral_within_spec 2 100). vm_compute. reflexivity. Qed.

Lemma format_d_nonneg w z : 0 <= z -> format_d w z = zero_pad w [] (str_of_Z z).
Proof.
  intros H. unfold format_d. replace (z <? 0) with false by (symmetry; apply Z.ltb_ge; lia).
  rewrite Z.abs_eq by lia. reflexivity.
Qed.

(** The seconds field: padding the whole field to six characters pads its
    integer part to two. *)
Lemma zero_pad_fixed3 i f :
  0 <= i -> 0 <= f < 1000 ->
  zero_pad 6 [] (str_of_Z i ++ lit "." ++ zero_pad 3 [] (str_of_Z f)) =
  format_d 2 i ++ lit "." ++ zero_pad 3 [] (str_of_Z f).
Proof.
  intros Hi Hf. rewrite format_d_nonneg by lia.
  pose proof (length_str_lt_1000 f Hf) as Hl.
  destruct (length_zero_pad 3 [] (str_of_Z f)) as [_ H3]. specialize (H3 Hl).
  unfold zero_pad at 1 3. cbn [app length]. rewrite !length_app, H3. cbn [length lit].
  change (length (lit ".")) with 1%nat.
  rewrite <- app_assoc. f_equal. f_equal. lia.
Qed.

(** ** Stripping *)

Lemma lstrip_decomp s :
  exists l, s = l ++ lstrip s /\ forallb isspace l = true.
Proof.
  induction s as [|c s IH]; [exists []; split; reflexivity|].
  cbn [lstrip]. destruct (isspace c) eqn:Hc.
  - destruct IH as (l & Hs & Hl). exists (c :: l). split.
    + cbn [app]. f_equal. exact Hs.
    + cbn [forallb]. rewrite Hc, Hl. reflexivity.
  - exists []. split; reflexivity.
Qed.

Lemma lstrip_head s c s' : lstrip s = c :: s' -> isspace c = false.
Proof.
  induction s as [|d s IH]; [discriminate|]. cbn [lstrip].
  destruct (isspace d) eqn:Hd; [exact IH|]. intros [= <- <-]. exact Hd.
Qed.

Lemma lstrip_fixed s c s' : s = c :: s' -> isspace c = false -> lstrip s = s.
Proof. intros -> H. cbn [lstrip]. rewrite H. reflexivity. Qed.

Lemma rstrip_decomp s :
  exists r, s = rstrip s ++ r /\ forallb isspace r = true.
Proof.
  unfold rstrip. destruct (lstrip_decomp (rev s)) as (l & Hs & Hl).
  exists (rev l). split.
  - rewrite <- rev_app_distr, <- Hs, rev_involutive. reflexivity.
  - rewrite forallb_forall in *. intros x Hx. apply Hl. apply in_rev. exact Hx.
Qed.

Lemma rstrip_last s c s' : rstrip s = s' ++ [c] -> isspace c = false.
Proof.
  unfold rstrip. intros H. apply (f_equal (@rev _)) in H.
  rewrite rev_involutive, rev_app_distr in H. cbn [rev app] in H.
  exact (lstrip_head _ _ _ H).
Qed.

(** What [strip] returns: the text between a leading and a trailing run
    of whitespace, with no whitespace at either end. *)
Lemma strip_spec s :
  (exists l r, s = l ++ strip s ++ r /\
               forallb isspace l = true /\ forallb isspace r = true) /\
  (forall c s', strip s = c :: s' -> isspace c = false) /\
  (forall c s', strip s = s' ++ [c] -> isspace c = false).
Proof.
  unfold strip.
  destruct (lstrip_decomp s) as (l & Hs & Hl).
  destruct (rstrip_decomp (lstrip s)) as (r & Hr & Hrr).
  split; [|split].
  - exists l, r. split; [|split; assumption].
    rewrite <- Hr. exact Hs.
  - intros c s' H. rewrite H in Hr.
    cbn [app] in Hr. exact (lstrip_head _ _ _ (eq_sym (eq_sym Hr))).
  - intros c s' H. exact (rstrip_last _ _ _ H).
Qed.

Lemma strip_idempotent s : strip (strip s) = strip s.
Proof.
  destruct (strip_spec s) as (_ & Hhead & Hlast).
  destruct (strip s) as [|c t] eqn:E; [reflexivity|].
  unfold strip at 1. rewrite (lstrip_fixed (c :: t) c t eq_refl (Hhead c t eq_refl)).
  unfold rstrip.
  destruct (rev (c :: t)) as [|d u] eqn:Er.
  - apply (f_equal (@length _)) in Er. rewrite length_rev in Er. discriminate.
  - assert (Hd : isspace d = false).
    { apply (Hlast d (rev u)). rewrite <- (rev_involutive (c :: t)), Er. reflexivity. }
    rewrite (lstrip_fixed (d :: u) d u eq_refl Hd). rewrite <- Er. apply rev_involutive.
Qed.

Lemma strip_no_trailing_newline s s' : strip s <> s' ++ nl.
Proof.
  intros H. destruct (strip_spec s) as (_ & _ & Hlast).
  specialize (Hlast _ _ H). discriminate.
Qed.

(** * The timestamp primitive *)

Local Open Scope Q_scope.

Lemma f3600_eq : float_of_Z 3600 = S754_finite false 7916483719987200 (-41).
Proof. reflexivity. Qed.

Lemma f60_eq : float_of_Z 60 = S754_finite false 8444249301319680 (-47).
Proof. reflexivity. Qed.

Lemma f3600_value : F2Q (float_of_Z 3600) == 3600.
Proof. reflexivity. Qed.

Lemma f60_value : F2Q (float_of_Z 60) == 60.
Proof. reflexivity. Qed.

Lemma round_half_even_comp q q' : q == q' -> round_half_even q = round_half_even q'.
Proof.
  intros H. unfold round_half_even. rewrite (Qfloor_comp _ _ H).
  assert (Hc : (q - inject_Z (Qfloor q') ?= 1 # 2) = (q' - inject_Z (Qfloor q') ?= 1 # 2)).
  { apply Qcompare_comp; [rewrite H; reflexivity|reflexivity]. }
  rewrite Hc. reflexivity.
Qed.

Lemma fixed3_comp q q' : q == q' -> fixed3 q = fixed3 q'.
Proof.
  intros H. unfold fixed3.
  rewrite (round_half_even_comp (q * inject_Z 1000) (q' * inject_Z 1000)) by (rewrite H; reflexivity).
  reflexivity.
Qed.

Lemma round_half_even_bounds q : (Qfloor q <= round_half_even q <= Qfloor q + 1)%Z.
Proof.
  unfold round_half_even. destruct (q - inject_Z (Qfloor q) ?= 1 # 2); try lia.
  destruct (Z.even (Qfloor q)); lia.
Qed.

(** The milliseconds of a seconds field below a minute. *)
Lemma millis_range s :
  0 <= s -> s < 60 -> (0 <= round_half_even (s * inject_Z 1000) <= 60000)%Z.
Proof.
  intros H0 H1. pose proof (round_half_even_bounds (s * inject_Z 1000)) as Hb.
  assert (0 <= Qfloor (s * inject_Z 1000))%Z.
  { apply Qfloor_nonneg. change (inject_Z 1000) with 1000. lra. }
  assert (Qfloor (s * inject_Z 1000) < 60000)%Z.
  { rewrite Zlt_Qlt. eapply Qle_lt_trans; [apply Qfloor_le|].
    change (inject_Z 1000) with 1000. change (inject_Z 60000) with 60000. lra. }
  lia.
Qed.

Lemma format_06_3f_nonneg s :
  is_finite s = true -> sign_bit s = false -> 0 <= F2Q s -> F2Q s < 60 ->
  format_06_3f s =
    let ms := round_half_even (F2Q s * inject_Z 1000) in
    format_d 2 (ms / 1000) ++ lit "." ++ zero_pad 3 [] (str_of_Z (ms mod 1000)).
Proof.
  intros Fs Ss H0 H1. unfold format_06_3f. rewrite Ss.
  assert (Hf : zero_pad 6 [] (fixed3 (Qabs (F2Q s))) =
               zero_pad 6 [] (fixed3 (F2Q s))).
  { f_equal. apply fixed3_comp. apply Qabs_pos. exact H0. }
  destruct s as [b|b| |b m e]; try discriminate Fs; rewrite Hf; unfold fixed3;
    pose proof (millis_range _ H0 H1) as Hm; apply zero_pad_fixed3;
    try (apply Z.div_pos; lia); apply Z.mod_pos_bound; lia.
Qed.

Lemma valid_f3600 : valid_binary 53 1024 (S754_finite false 7916483719987200 (-41)) = true.
Proof. reflexivity. Qed.

Lemma valid_f60 : valid_binary 53 1024 (S754_finite false 8444249301319680 (-47)) = true.
Proof. reflexivity. Qed.

(** On a non-negative seconds value below [2^53] the float arithmetic of
    lines 24-26 is exact: both timestamp expressions evaluate to the
    specified rendering. *)
Lemma timestamps_nonneg t :
  binary64 t -> 0 <= F2Q t -> F2Q t < inject_Z (2 ^ 53) ->
  secs_to_ts t = Ok (spec_timestamp (ch ",") (F2Q t)) /\
  vtt_ts t = Ok (spec_timestamp (ch ".") (F2Q t)).
Proof.
  intros [Ft Vt] H0 H1.
  (* hours *)
  destruct (float_floor_div_nonneg t _ _ 3600 Ft Vt valid_f3600 f3600_value
              ltac:(lia) H0 H1) as (q & Hq & Hh).
  (* the remainder below the hour, and its minutes *)
  destruct (float_rem_nonneg t _ _ Ft Vt valid_f3600 H0) as (r & Hr & Fr & Vr & Sr & Hrv).
  rewrite <- f3600_eq in Hq, Hh, Hr, Hrv.
  destruct (Qmod_bounds (F2Q t) (F2Q (float_of_Z 3600)) ltac:(reflexivity)) as [Hr0 Hr1].
  rewrite <- Hrv in Hr0, Hr1.
  assert (Hr2 : F2Q r < inject_Z (2 ^ 53)).
  { eapply Qlt_trans; [exact Hr1|]. reflexivity. }
  destruct (float_floor_div_nonneg r _ _ 60 Fr Vr valid_f60 f60_value
              ltac:(lia) Hr0 Hr2) as (q' & Hq' & Hm).
  (* the seconds *)
  destruct (float_rem_nonneg t _ _ Ft Vt valid_f60 H0) as (s & Hs & Fs & Vs & Ss & Hsv).
  rewrite <- f60_eq in Hq', Hm, Hs, Hsv.
  destruct (Qmod_bounds (F2Q t) (F2Q (float_of_Z 60)) ltac:(reflexivity)) as [Hs0 Hs1].
  rewrite <- Hsv in Hs0, Hs1.
  assert (Hhv : Qfloor (F2Q t / F2Q (float_of_Z 3600)) = spec_hours (F2Q t)).
  { unfold spec_hours. apply Qfloor_comp. rewrite f3600_value. reflexivity. }
  assert (Hmv : Qfloor (F2Q r / F2Q (float_of_Z 60)) = spec_minutes (F2Q t)).
  { unfold spec_minutes. apply Qfloor_comp. rewrite Hrv, f60_value.
    unfold Qmod. rewrite (Qfloor_comp (F2Q t / F2Q (float_of_Z 3600)) (F2Q t / 3600))
      by (rewrite f3600_value; reflexivity).
    rewrite f3600_value. reflexivity. }
  assert (Hsq : F2Q s == spec_seconds (F2Q t)).
  { unfold spec_seconds. rewrite Hsv. unfold Qmod.
    rewrite (Qfloor_comp (F2Q t / F2Q (float_of_Z 60)) (F2Q t / 60))
      by (rewrite f60_value; reflexivity).
    rewrite f60_value. reflexivity. }
  rewrite Hhv in Hh. rewrite Hmv in Hm.
  assert (Hfmt : format_06_3f s =
                 let ms := round_half_even (spec_seconds (F2Q t) * inject_Z 1000) in
                 format_d 2 (ms / 1000) ++ lit "." ++ zero_pad 3 [] (str_of_Z (ms mod 1000))).
  { rewrite (format_06_3f_nonneg s Fs Ss Hs0 ltac:(rewrite f60_value in Hs1; exact Hs1)).
    cbv zeta.
    rewrite (round_half_even_comp (F2Q s * inject_Z 1000) (spec_seconds (F2Q t) * inject_Z 1000))
      by (rewrite Hsq; reflexivity).
    reflexivity. }
  unfold secs_to_ts, vtt_ts.
  rewrite Hq. cbn [res_bind]. rewrite Hh. cbn [res_bind]. rewrite Hr. cbn [res_bind].
  rewrite Hq'. cbn [res_bind]. rewrite Hm. cbn [res_bind]. rewrite Hs. cbn [res_bind].
  rewrite Hfmt. cbv zeta. unfold spec_timestamp. cbv zeta.
  split; [|reflexivity]. f_equal.
  rewrite !replace_app, !replace_format_d, replace_zero_pad;
    [reflexivity|reflexivity|apply replace_str_of_Z].
Qed.

Lemma float_floor_div_small x my ey k :
  let y := S754_finite false my ey in
  seconds x -> valid_binary 53 1024 y = true -> F2Q y == inject_Z k -> (2 <= k)%Z ->
  exists q, float_floor_div x y = Ok q /\ int_of_float q = Ok (Qfloor (F2Q x / F2Q y)).
Proof.
  intros y [[Fx Vx] Hx] Vy Hy Hk. unfold float_floor_div. unfold y at 1.
  rewrite is_zero_finite. eexists. split; [reflexivity|].
  destruct x as [s|s| |[|] m e]; try discriminate Fx.
  - apply (float_div_mod_nonneg _ my ey k); try assumption; try lia; try reflexivity.
    apply Qle_refl.
  - apply (float_div_mod_neg m e my ey k); assumption.
  - assert (H0 : 0 <= F2Q (S754_finite false m e)) by (apply F2Q_sign_false; reflexivity).
    apply (float_div_mod_nonneg _ my ey k); try assumption; try lia.
    rewrite <- (Qabs_pos _ H0). exact Hx.
Qed.

(** Both timestamp expressions evaluate without raising on every seconds
    value, of either sign, and differ by the replacement only. *)
Lemma timestamps_total t :
  seconds t ->
  exists body, vtt_ts t = Ok body /\ secs_to_ts t = Ok (replace (ch ".") (ch ",") body).
Proof.
  intros Ht. pose proof Ht as [[Ft Vt] Hb].
  destruct (float_floor_div_small t _ _ 3600 Ht valid_f3600 f3600_value ltac:(lia))
    as (q & Hq & Hh).
  destruct (float_rem_total t _ _ 12 Ft Vt valid_f3600 ltac:(reflexivity) ltac:(lia))
    as (r & Hr & Fr & Vr & Sr & Hrv).
  assert (Hr0 : 0 <= F2Q r) by (apply F2Q_sign_false; assumption).
  assert (Hr2 : F2Q r < inject_Z (2 ^ 53)).
  { eapply Qle_lt_trans; [exact Hrv|]. reflexivity. }
  destruct (float_floor_div_nonneg r _ _ 60 Fr Vr valid_f60 f60_value
              ltac:(lia) Hr0 Hr2) as (q' & Hq' & Hm).
  destruct (float_rem_total t _ _ 6 Ft Vt valid_f60 ltac:(reflexivity) ltac:(lia))
    as (s & Hs & _).
  rewrite <- f3600_eq in Hq, Hh, Hr. rewrite <- f60_eq in Hq', Hm, Hs.
  eexists. unfold secs_to_ts, vtt_ts.
  rewrite Hq. cbn [res_bind]. rewrite Hh. cbn [res_bind]. rewrite Hr. cbn [res_bind].
  rewrite Hq'. cbn [res_bind]. rewrite Hm. cbn [res_bind]. rewrite Hs. cbn [res_bind].
  split; reflexivity.
Qed.

(** * Facts about the file system and the I/O monad *)

Local Open Scope Z_scope.

Lemma bind_ok {A B} (c : io A) (k : A -> io B) w a w' :
  c w = (Ok a, w') -> bind c k w = k a w'.
Proof. intros H. unfold bind. rewrite H. reflexivity. Qed.

Lemma bind_raise {A B} (c : io A) (k : A -> io B) w e w' :
  c w = (Raise e, w') -> bind c k w = (Raise e, w').
Proof. intros H. unfold bind. rewrite H. reflexivity. Qed.

Lemma write_run p s w :
  write p s w = (Ok tt, {| dirs := dirs w; files := alter (fun c => c ++ s) p (files w);
                           denied := denied w; log := log w ++ [EWrite p s] |}).
Proof. reflexivity. Qed.

Lemma open_w_run p w :
  writable w p -> dir_exists w (dirname p) = true ->
  open_w p w = (Ok tt, emit p [] w).
Proof.
  intros [Hd Hp] He. unfold open_w, bind, record. cbn [dirs files denied log].
  rewrite (bool_decide_eq_false_2 _ Hd).
  unfold dir_exists in *. cbn [dirs]. rewrite He. cbn [negb].
  rewrite (bool_decide_eq_false_2 _ Hp). reflexivity.
Qed.

(** Writing the chunks of a list, each computed by an expression that
    does not raise. *)
Lemma for_each_write {A} p (f : A -> res pystr) (l : list A) cs w :
  res_map f l = Ok cs ->
  for_each l (fun x => bind (lift (f x)) (fun cue => write p cue)) w =
  (Ok tt, {| dirs := dirs w;
             files := alter (fun c => c ++ concat cs) p (files w);
             denied := denied w;
             log := log w ++ map (EWrite p) cs |}).
Proof.
  revert cs w. induction l as [|x l IH]; intros cs w H; cbn [res_map] in H.
  - injection H as <-. cbn [for_each ret concat map]. rewrite app_nil_r.
    f_equal. destruct w as [d fs dn lg]. cbn [dirs files denied log]. f_equal.
    apply map_eq. intros q.
    destruct (decide (p = q)) as [->|Hne]; [|rewrite lookup_alter_ne by exact Hne; reflexivity].
    rewrite lookup_alter_eq.
    destruct (fs !! q); cbn; [rewrite app_nil_r|]; reflexivity.
  - destruct (f x) as [y|e] eqn:Hx; [|discriminate].
    destruct (res_map f l) as [ys|e] eqn:Hl; [|discriminate]. injection H as <-.
    cbn [for_each]. unfold bind at 1. unfold bind at 1. unfold lift. rewrite Hx.
    rewrite write_run. rewrite (IH ys _ eq_refl). cbn [dirs files denied log concat map].
    f_equal. f_equal.
    + apply map_eq. intros q.
      destruct (decide (p = q)) as [->|Hne]; [|rewrite !lookup_alter_ne by exact Hne; reflexivity].
      rewrite !lookup_alter_eq.
      destruct (files w !! q); cbn; [rewrite app_assoc|]; reflexivity.
    + rewrite <- app_assoc. reflexivity.
Qed.

(** Opening a file and writing chunks to it. *)
Lemma emit_alter p cs w :
  {| dirs := dirs (emit p [] w);
     files := alter (fun c => c ++ concat cs) p (files (emit p [] w));
     denied := denied (emit p [] w);
     log := log (emit p [] w) ++ map (EWrite p) cs |} = emit p cs w.
Proof.
  unfold emit. cbn [dirs files denied log concat map]. f_equal.
  - apply map_eq. intros q.
    destruct (decide (p = q)) as [->|Hne].
    + rewrite lookup_alter_eq, !lookup_insert_eq. reflexivity.
    + rewrite lookup_alter_ne, !lookup_insert_ne by exact Hne. reflexivity.
  - rewrite <- app_assoc. reflexivity.
Qed.

Lemma write_emit p c cs w :
  write p c (emit p cs w) = (Ok tt, emit p (cs ++ [c]) w).
Proof.
  rewrite write_run. unfold emit. cbn [dirs files denied log]. f_equal. f_equal.
  - apply map_eq. intros q. destruct (decide (p = q)) as [->|Hne].
    + rewrite lookup_alter_eq, !lookup_insert_eq. cbn. rewrite concat_app. cbn [concat].
      rewrite app_nil_r. reflexivity.
    + rewrite lookup_alter_ne, !lookup_insert_ne by exact Hne. reflexivity.
  - rewrite map_app, <- app_assoc. reflexivity.
Qed.

Lemma for_each_emit {A} p (f : A -> res pystr) (l : list A) cs cs0 w :
  res_map f l = Ok cs ->
  for_each l (fun x => bind (lift (f x)) (fun cue => write p cue)) (emit p cs0 w) =
  (Ok tt, emit p (cs0 ++ cs) w).
Proof.
  intros H. rewrite (for_each_write p f l cs _ H). unfold emit.
  cbn [dirs files denied log]. f_equal. f_equal.
  - apply map_eq. intros q. destruct (decide (p = q)) as [->|Hne].
    + rewrite lookup_alter_eq, !lookup_insert_eq. cbn. rewrite concat_app. reflexivity.
    + rewrite lookup_alter_ne, !lookup_insert_ne by exact Hne. reflexivity.
  - rewrite map_app, <- app_assoc. reflexivity.
Qed.

(** ** Paths *)

Lemma rsplit_sep_ext base ext :
  Forall (fun c => (c =? sep)%N = false) ext ->
  rsplit_sep (base ++ ext) = (fst (rsplit_sep base), snd (rsplit_sep base) ++ ext).
Proof.
  intros Hext. induction base as [|c base IH].
  - cbn [app rsplit_sep fst snd]. induction Hext as [|c ext Hc _ IHe]; [reflexivity|].
    cbn [rsplit_sep]. rewrite IHe. cbn [fst snd app]. rewrite Hc. reflexivity.
  - cbn [app rsplit_sep]. rewrite IH. destruct (rsplit_sep base) as [h t]. cbn [fst snd].
    destruct h; [|reflexivity]. destruct (c =? sep)%N; reflexivity.
Qed.

Lemma dirname_ext base ext :
  Forall (fun c => (c =? sep)%N = false) ext -> dirname (base ++ ext) = dirname base.
Proof. intros H. unfold dirname. rewrite (rsplit_sep_ext base ext H). reflexivity. Qed.

Lemma rsplit_sep_length p :
  (length (fst (rsplit_sep p)) <= length p)%nat.
Proof.
  induction p as [|c p IH]; [cbn; lia|]. cbn [rsplit_sep].
  destruct (rsplit_sep p) as [h t]. cbn [fst] in *.
  destruct h; [destruct (c =? sep)%N|]; cbn [fst length] in *; lia.
Qed.

Lemma lstrip_sep_length s : (length (lstrip_sep s) <= length s)%nat.
Proof.
  induction s as [|c s IH]; [cbn; lia|]. cbn [lstrip_sep].
  destruct (c =? sep)%N; cbn [length]; lia.
Qed.

Lemma dirname_length p : (length (dirname p) <= length p)%nat.
Proof.
  unfold dirname. pose proof (rsplit_sep_length p) as H.
  pose proof (lstrip_sep_length (rev (fst (rsplit_sep p)))) as H'.
  unfold rstrip_sep. rewrite length_rev in H'.
  destruct (rev (lstrip_sep (rev (fst (rsplit_sep p))))) eqn:E; [exact H|].
  rewrite <- E, length_rev. lia.
Qed.

(** The parent directory is empty exactly for a path without separator. *)
Lemma rsplit_sep_nil p :
  fst (rsplit_sep p) = [] <-> Forall (fun c => (c =? sep)%N = false) p.
Proof.
  induction p as [|c p IH]; [cbn; split; [constructor|reflexivity]|].
  cbn [rsplit_sep]. destruct (rsplit_sep p) as [h t]. cbn [fst] in *.
  destruct h as [|x h].
  - destruct (c =? sep)%N eqn:Hc; cbn [fst]; split; intros H.
    + discriminate.
    + apply Forall_cons_1 in H. destruct H as [H _]. rewrite Hc in H. discriminate.
    + constructor; [exact Hc|apply IH; reflexivity].
    + reflexivity.
  - cbn [fst]. split; intros H; [discriminate|].
    apply Forall_cons_1 in H. destruct H as [_ H]. apply IH in H. discriminate.
Qed.

Lemma dirname_nil p :
  dirname p = [] <-> Forall (fun c => (c =? sep)%N = false) p.
Proof.
  rewrite <- rsplit_sep_nil. unfold dirname. split.
  - destruct (rstrip_sep (fst (rsplit_sep p))) eqn:E; [auto|discriminate].
  - intros ->. reflexivity.
Qed.

Lemma ancestors_fuel_length n d a :
  a ∈ ancestors_fuel n d -> (length a <= length d)%nat.
Proof.
  revert d. induction n as [|n IH]; intros d Ha; cbn [ancestors_fuel] in Ha.
  - apply elem_of_nil in Ha. contradiction.
  - pose proof (dirname_length d) as Hd.
    destruct (rstrip_sep (dirname d)); [apply elem_of_nil in Ha; contradiction|].
    apply elem_of_app in Ha. destruct Ha as [Ha|Ha].
    + apply IH in Ha. lia.
    + apply list_elem_of_singleton in Ha. subst a. exact Hd.
Qed.

Lemma ancestors_length d a : a ∈ ancestors d -> (length a <= length d)%nat.
Proof. apply ancestors_fuel_length. Qed.

(** ** Directory creation *)

Lemma mkdir_one_spec leaf p w :
  exists r w', mkdir_one leaf p w = (r, w') /\
    files w' = files w /\ denied w' = denied w /\ log w' = log w /\
    dirs w ⊆ dirs w' /\ dirs w' ⊆ dirs w ∪ {[ p ]} /\
    (r = Ok tt -> p ∈ dirs w').
Proof.
  unfold mkdir_one. destruct (bool_decide (p ∈ dirs w)) eqn:H1.
  - apply bool_decide_eq_true in H1. exists (Ok tt), w. split; [reflexivity|].
    split; [reflexivity|]. split; [reflexivity|]. split; [reflexivity|].
    split; [set_solver|]. split; [set_solver|]. intros _. exact H1.
  - destruct (bool_decide (is_Some (files w !! p))).
    { eexists _, w. split; [reflexivity|].
      split; [reflexivity|]. split; [reflexivity|]. split; [reflexivity|].
      split; [set_solver|]. split; [set_solver|]. intros Hr. discriminate Hr. }
    destruct (bool_decide (p ∈ denied w)).
    { exists (Raise PermissionError), w. split; [reflexivity|].
      split; [reflexivity|]. split; [reflexivity|]. split; [reflexivity|].
      split; [set_solver|]. split; [set_solver|]. intros Hr. discriminate Hr. }
    eexists _, _. split; [reflexivity|]. cbn [dirs files denied log].
    split; [reflexivity|]. split; [reflexivity|]. split; [reflexivity|].
    split; [apply union_subseteq_r|]. split.
    { rewrite (comm_L union). reflexivity. }
    intros _.
    apply elem_of_union. left. apply elem_of_singleton. reflexivity.
Qed.

Lemma mkdirs_spec leaf l w :
  exists r w', for_each l (mkdir_one leaf) w = (r, w') /\
    files w' = files w /\ denied w' = denied w /\ log w' = log w /\
    dirs w ⊆ dirs w' /\ dirs w' ⊆ dirs w ∪ list_to_set l /\
    (r = Ok tt -> forall a, a ∈ l -> a ∈ dirs w').
Proof.
  revert w. induction l as [|p l IH]; intros w.
  - exists (Ok tt), w. cbn [for_each ret]. split; [reflexivity|].
    split; [reflexivity|]. split; [reflexivity|]. split; [reflexivity|].
    split; [set_solver|]. split; [set_solver|].
    intros _ a Ha. apply elem_of_nil in Ha. contradiction.
  - cbn [for_each].
    destruct (mkdir_one_spec leaf p w) as (r1 & w1 & H1 & Hf1 & Hd1 & Hl1 & Hs1 & Hs1' & Hin1).
    destruct r1 as [[]|e].
    + rewrite (bind_ok _ _ _ _ _ H1).
      destruct (IH w1) as (r2 & w2 & H2 & Hf2 & Hd2 & Hl2 & Hs2 & Hs2' & Hin2).
      exists r2, w2. split; [exact H2|].
      split; [congruence|]. split; [congruence|]. split; [congruence|].
      split; [clear -Hs1 Hs2; set_solver|]. split.
      { intros x Hx. apply Hs2' in Hx. apply elem_of_union in Hx. destruct Hx as [Hx|Hx].
        - apply Hs1' in Hx. apply elem_of_union in Hx. destruct Hx as [Hx|Hx].
          + apply elem_of_union. left. exact Hx.
          + apply elem_of_union. right. apply elem_of_singleton in Hx. subst x.
            apply elem_of_list_to_set. apply list_elem_of_here.
        - apply elem_of_union. right. apply elem_of_list_to_set. apply elem_of_list_to_set in Hx.
          apply elem_of_cons. right. exact Hx. }
      intros Hr a Ha. apply elem_of_cons in Ha. destruct Ha as [->|Ha].
      * specialize (Hin1 eq_refl). clear -Hin1 Hs2. set_solver.
      * apply (Hin2 Hr a Ha).
    + rewrite (bind_raise _ _ _ _ _ H1). exists (Raise e), w1. split; [reflexivity|].
      split; [exact Hf1|]. split; [exact Hd1|]. split; [exact Hl1|].
      split; [exact Hs1|]. split.
      { intros x Hx. apply Hs1' in Hx. apply elem_of_union in Hx. destruct Hx as [Hx|Hx].
        - apply elem_of_union. left. exact Hx.
        - apply elem_of_union. right. apply elem_of_singleton in Hx. subst x.
          apply elem_of_list_to_set. apply list_elem_of_here. }
      intros Hr. discriminate Hr.
Qed.

Lemma makedirs_spec d w :
  exists r w', makedirs d w = (r, w') /\
    files w' = files w /\ denied w' = denied w /\ log w' = log w ++ [EMakedirs d] /\
    dirs w ⊆ dirs w' /\ dirs w' ⊆ dirs w ∪ list_to_set (ancestors d ++ [d]) /\
    (r = Ok tt -> d <> [] /\ d ∈ dirs w' /\ forall a, a ∈ ancestors d -> a ∈ dirs w') /\
    (d = [] -> r = Raise FileNotFoundError /\ dirs w' = dirs w).
Proof.
  unfold makedirs, bind, record. cbn [dirs files denied log].
  destruct d as [|c d].
  - eexists _, _. split; [reflexivity|]. cbn [dirs files denied log].
    split; [reflexivity|]. split; [reflexivity|]. split; [reflexivity|].
    split; [set_solver|]. split; [set_solver|]. split.
    + intros Hr. discriminate Hr.
    + intros _. split; reflexivity.
  - set (w0 := {| dirs := dirs w; files := files w; denied := denied w;
                  log := log w ++ [EMakedirs (c :: d)] |}).
    destruct (mkdirs_spec (c :: d) (ancestors (c :: d) ++ [c :: d]) w0)
      as (r & w' & H & Hf & Hd & Hl & Hs & Hs' & Hin).
    exists r, w'. split; [exact H|].
    split; [exact Hf|]. split; [exact Hd|]. split; [exact Hl|].
    split; [exact Hs|]. split; [exact Hs'|]. split.
    + intros Hr. split; [discriminate|]. split.
      * apply Hin; [assumption|]. apply elem_of_app. right.
        apply list_elem_of_singleton. reflexivity.
      * intros a Ha. apply Hin; [assumption|]. apply elem_of_app. left. exact Ha.
    + discriminate.
Qed.

(** ** Writing one file *)

Lemma for_each_ext {A} (l : list A) (body body' : A -> io unit) w :
  (forall x w, body x w = body' x w) -> for_each l body w = for_each l body' w.
Proof.
  intros H. revert w. induction l as [|x l IH]; intros w; [reflexivity|].
  cbn [for_each]. unfold bind. rewrite H. destruct (body' x w) as [[[]|e] w']; [apply IH|reflexivity].
Qed.

Lemma writable_emit p cs w q : writable (emit p cs w) q <-> writable w q.
Proof. reflexivity. Qed.

Lemma dir_exists_emit p cs w d : dir_exists (emit p cs w) d = dir_exists w d.
Proof. reflexivity. Qed.

Lemma block_one p c w :
  writable w p -> dir_exists w (dirname p) = true ->
  bind (open_w p) (fun _ => write p c) w = (Ok tt, emit p [c] w).
Proof.
  intros Hw Hd. rewrite (bind_ok _ _ _ _ _ (open_w_run p w Hw Hd)).
  apply (write_emit p c [] w).
Qed.

Lemma block_list {A} p (f : A -> res pystr) (body : A -> io unit) l cs w :
  writable w p -> dir_exists w (dirname p) = true ->
  (forall x w, body x w = bind (lift (f x)) (fun cue => write p cue) w) ->
  res_map f l = Ok cs ->
  bind (open_w p) (fun _ => for_each l body) w = (Ok tt, emit p cs w).
Proof.
  intros Hw Hd Hb Hl. rewrite (bind_ok _ _ _ _ _ (open_w_run p w Hw Hd)).
  rewrite (for_each_ext l body _ _ Hb). apply (for_each_emit p f l cs [] w Hl).
Qed.

Lemma block_header_list {A} p h (f : A -> res pystr) (body : A -> io unit) l cs w :
  writable w p -> dir_exists w (dirname p) = true ->
  (forall x w, body x w = bind (lift (f x)) (fun cue => write p cue) w) ->
  res_map f l = Ok cs ->
  bind (open_w p) (fun _ => bind (write p h) (fun _ => for_each l body)) w =
  (Ok tt, emit p (h :: cs) w).
Proof.
  intros Hw Hd Hb Hl. rewrite (bind_ok _ _ _ _ _ (open_w_run p w Hw Hd)).
  rewrite (bind_ok _ _ _ _ _ (write_emit p h [] w)).
  rewrite (for_each_ext l body _ _ Hb). apply (for_each_emit p f l cs [h] w Hl).
Qed.

Lemma ext_no_sep (ext : string) :
  forallb (fun c => negb (c =? sep)%N) (lit ext) = true ->
  Forall (fun c => (c =? sep)%N = false) (lit ext).
Proof.
  intros H. rewrite forallb_forall in H. apply List.Forall_forall. intros c Hc.
  specialize (H c Hc). apply negb_true_iff in H. exact H.
Qed.

(** The driver, when the directory can be made, every requested file is
    writable and every cue renders: the planned files are written one
    after the other. *)
Lemma save_outputs_run json_dumps base_out result formats with_words w w1 srt_cues vtt_cues :
  makedirs (dirname base_out) w = (Ok tt, w1) ->
  (forall p cs, (p, cs) ∈ planned json_dumps base_out result formats srt_cues vtt_cues ->
                writable w1 p) ->
  (lit "srt" ∈ formats ->
   res_map (fun x => srt_cue (fst x) (snd x) with_words) (enumerate 1 (r_segments result))
     = Ok srt_cues) ->
  (lit "vtt" ∈ formats -> res_map vtt_cue (r_segments result) = Ok vtt_cues) ->
  save_outputs json_dumps base_out result formats with_words w =
  (Ok tt, fold_left (fun w pc => emit (fst pc) (snd pc) w)
            (planned json_dumps base_out result formats srt_cues vtt_cues) w1).
Proof.
  intros Hmk Hwr Hsrt Hvtt.
  destruct (makedirs_spec (dirname base_out) w) as (r & w1' & Hmk' & _ & _ & _ & _ & _ & Hin & _).
  rewrite Hmk in Hmk'. injection Hmk' as <- <-. destruct (Hin eq_refl) as (Hne & Hd & _).
  assert (Hde : forall ext, forallb (fun c => negb (c =? sep)%N) (lit ext) = true ->
                forall w', dirs w' = dirs w1 -> dir_exists w' (dirname (base_out ++ lit ext)) = true).
  { intros ext Hext w' Hw'. rewrite (dirname_ext _ _ (ext_no_sep ext Hext)).
    unfold dir_exists. rewrite Hw'. destruct (rstrip_sep (dirname base_out)); [reflexivity|].
    apply bool_decide_eq_true. exact Hd. }
  unfold save_outputs. rewrite (bind_ok _ _ _ _ _ Hmk).
  unfold planned in *. unfold when.
  (* txt *)
  set (b1 := bool_decide (lit "txt" ∈ formats)) in *.
  set (b2 := bool_decide (lit "srt" ∈ formats)) in *.
  set (b3 := bool_decide (lit "vtt" ∈ formats)) in *.
  set (b4 := bool_decide (lit "json" ∈ formats)) in *.
  rewrite !fold_left_app.
  set (w2 := fold_left _ (if b1 then _ else []) w1).
  assert (H2 : (if b1 then bind (open_w (base_out ++ lit ".txt"))
                   (fun _ => write (base_out ++ lit ".txt") (strip (r_text result) ++ nl))
                else ret tt) w1 = (Ok tt, w2) /\ dirs w2 = dirs w1 /\ denied w2 = denied w1).
  { subst w2. destruct b1 eqn:E1; [|repeat split]. cbn [fold_left fst snd].
    split; [|split; reflexivity]. apply block_one.
    - apply (Hwr _ [strip (r_text result) ++ nl]). apply elem_of_app. left. apply list_elem_of_here.
    - apply (Hde ".txt"%string); reflexivity. }
  destruct H2 as (H2 & Hd2 & Hn2). cbv zeta. rewrite (bind_ok _ _ _ _ _ H2).
  (* srt *)
  set (w3 := fold_left _ (if b2 then _ else []) w2).
  assert (H3 : (if b2 then bind (open_w (base_out ++ lit ".srt"))
                   (fun _ => for_each (enumerate 1 (r_segments result))
                      (fun '(i, seg) => bind (lift (srt_cue i seg with_words))
                                             (fun cue => write (base_out ++ lit ".srt") cue)))
                else ret tt) w2 = (Ok tt, w3) /\ dirs w3 = dirs w1 /\ denied w3 = denied w1).
  { subst w3. destruct b2 eqn:E2; [|repeat split; assumption]. cbn [fold_left fst snd].
    split; [|split; assumption].
    apply (block_list _ (fun x => srt_cue (fst x) (snd x) with_words)).
    - destruct (Hwr (base_out ++ lit ".srt") srt_cues) as [Ha Hb].
      { apply elem_of_app. right. apply elem_of_app. left. apply list_elem_of_here. }
      split; [rewrite Hd2|rewrite Hn2]; assumption.
    - apply (Hde ".srt"%string); [reflexivity|exact Hd2].
    - intros [i seg] w'. reflexivity.
    - apply Hsrt. apply bool_decide_eq_true in E2. exact E2. }
  destruct H3 as (H3 & Hd3 & Hn3). rewrite (bind_ok _ _ _ _ _ H3).
  (* vtt *)
  set (w4 := fold_left _ (if b3 then _ else []) w3).
  assert (H4 : (if b3 then bind (open_w (base_out ++ lit ".vtt"))
                   (fun _ => bind (write (base_out ++ lit ".vtt") (lit "WEBVTT" ++ nl ++ nl))
                      (fun _ => for_each (r_segments result)
                         (fun seg => bind (lift (vtt_cue seg))
                                          (fun cue => write (base_out ++ lit ".vtt") cue))))
                else ret tt) w3 = (Ok tt, w4) /\ dirs w4 = dirs w1 /\ denied w4 = denied w1).
  { subst w4. destruct b3 eqn:E3; [|repeat split; assumption]. cbn [fold_left fst snd].
    split; [|split; assumption].
    apply (block_header_list _ _ vtt_cue).
    - destruct (Hwr (base_out ++ lit ".vtt") ((lit "WEBVTT" ++ nl ++ nl) :: vtt_cues)) as [Ha Hb].
      { apply elem_of_app. right. apply elem_of_app. right. apply elem_of_app. left.
        apply list_elem_of_here. }
      split; [rewrite Hd3|rewrite Hn3]; assumption.
    - apply (Hde ".vtt"%string); [reflexivity|exact Hd3].
    - intros seg w'. reflexivity.
    - apply Hvtt. apply bool_decide_eq_true in E3. exact E3. }
  destruct H4 as (H4 & Hd4 & Hn4). rewrite (bind_ok _ _ _ _ _ H4).
  (* json *)
  destruct b4 eqn:E4; [|reflexivity]. cbn [fold_left fst snd].
  apply block_one.
  - destruct (Hwr (base_out ++ lit ".json") [json_dumps result]) as [Ha Hb].
    { apply elem_of_app. right. apply elem_of_app. right. apply elem_of_app. right.
      apply list_elem_of_here. }
    split; [rewrite Hd4|rewrite Hn4]; assumption.
  - apply (Hde ".json"%string); [reflexivity|exact Hd4].
Qed.

Lemma writes_within_ret {A} P (a : A) : writes_within P (ret a).
Proof.
  intros w. cbn. split; [reflexivity|]. split; [reflexivity|]. split; [reflexivity|].
  exists []. split; [symmetry; apply app_nil_r|constructor].
Qed.

Lemma writes_within_lift {A} P (r : res A) : writes_within P (lift r).
Proof.
  intros w. cbn. split; [reflexivity|]. split; [reflexivity|]. split; [reflexivity|].
  exists []. split; [symmetry; apply app_nil_r|constructor].
Qed.

Lemma writes_within_bind {A B} P (c : io A) (k : A -> io B) :
  writes_within P c -> (forall a, writes_within P (k a)) -> writes_within P (bind c k).
Proof.
  intros Hc Hk w. unfold bind. destruct (Hc w) as (Hd & Hn & Hf & evs & Hl & Hev).
  destruct (c w) as [[a|e] w1]; cbn [snd] in *.
  - destruct (Hk a w1) as (Hd' & Hn' & Hf' & evs' & Hl' & Hev').
    split; [congruence|]. split; [congruence|]. split.
    + intros p Hp. rewrite (Hf' p Hp). apply (Hf p Hp).
    + exists (evs ++ evs'). split; [rewrite Hl', Hl; symmetry; apply app_assoc|].
      apply Forall_app; split; assumption.
  - split; [exact Hd|]. split; [exact Hn|]. split; [exact Hf|].
    exists evs. split; assumption.
Qed.

Lemma writes_within_open_w (P : path -> Prop) p : P p -> writes_within P (open_w p).
Proof.
  intros HP w. unfold open_w, bind, record. cbn [dirs files denied log].
  destruct (bool_decide (p ∈ dirs w)); [|destruct (negb _); [|destruct (bool_decide (p ∈ denied w))]];
    cbn [snd dirs files denied log];
    (split; [reflexivity|]; split; [reflexivity|]; split;
     [|exists [EOpen p]; split; [reflexivity|constructor; [exact HP|constructor]]]);
    try reflexivity.
  intros q Hq. apply lookup_insert_ne. intros ->. exact (Hq HP).
Qed.

Lemma writes_within_write (P : path -> Prop) p s : P p -> writes_within P (write p s).
Proof.
  intros HP w. unfold write, bind, record. cbn [snd dirs files denied log].
  split; [reflexivity|]. split; [reflexivity|]. split.
  - intros q Hq. apply lookup_alter_ne. intros ->. exact (Hq HP).
  - exists [EWrite p s]. split; [reflexivity|constructor; [exact HP|constructor]].
Qed.

Lemma writes_within_for_each {A} P (l : list A) (body : A -> io unit) :
  (forall x, writes_within P (body x)) -> writes_within P (for_each l body).
Proof.
  intros Hb. induction l as [|x l IH]; cbn [for_each].
  - apply writes_within_ret.
  - apply writes_within_bind; [apply Hb|intros _; exact IH].
Qed.

Lemma writes_within_when P b (c : io unit) :
  writes_within P c -> writes_within P (when b c).
Proof. intros Hc. destruct b; [exact Hc|apply writes_within_ret]. Qed.

Lemma writes_within_mono {A} (P Q : path -> Prop) (c : io A) :
  (forall p, P p -> Q p) -> writes_within P c -> writes_within Q c.
Proof.
  intros HPQ Hc w. destruct (Hc w) as (Hd & Hn & Hf & evs & Hl & Hev).
  split; [exact Hd|]. split; [exact Hn|]. split.
  - intros p Hp. apply Hf. intros HP. exact (Hp (HPQ p HP)).
  - exists evs. split; [exact Hl|]. revert Hev. apply List.Forall_impl.
    intros [d|p|p s|s]; cbn; auto.
Qed.

Lemma writes_within_when' P b (c : io unit) :
  (b = true -> writes_within P c) -> writes_within P (when b c).
Proof. intros Hc. destruct b; [exact (Hc eq_refl)|apply writes_within_ret]. Qed.

(** ** The request *)

Lemma requested_spec tag formats :
  tag ∈ requested formats <-> tag ∈ tags /\ tag ∈ formats.
Proof. unfold requested. rewrite list_elem_of_filter. tauto. Qed.

Lemma filter_ext_in {A} (P Q : A -> Prop)
    `{!forall x, Decision (P x)} `{!forall x, Decision (Q x)} (l : list A) :
  (forall x, x ∈ l -> (P x <-> Q x)) -> filter P l = filter Q l.
Proof.
  induction l as [|a l IH]; intros Hext; [reflexivity|].
  rewrite !filter_cons.
  assert (Ha : P a <-> Q a) by (apply Hext; apply list_elem_of_here).
  assert (Hl : filter P l = filter Q l).
  { apply IH. intros x Hx. apply Hext. apply list_elem_of_further. exact Hx. }
  destruct (decide (P a)) as [p|p], (decide (Q a)) as [q|q]; try tauto; rewrite Hl; reflexivity.
Qed.

Lemma requested_recognized formats :
  requested (formats ∩ recognized) = requested formats.
Proof.
  unfold requested. apply filter_ext_in.
  intros tag Ht. rewrite elem_of_intersection.
  split; [intros [H _]; exact H|intros H; split; [exact H|]].
  unfold recognized, tags in *.
  rewrite !elem_of_union, !elem_of_singleton. rewrite !elem_of_cons, elem_of_nil in Ht.
  tauto.
Qed.

Lemma out_path_inj base tag tag' : out_path base tag = out_path base tag' -> tag = tag'.
Proof.
  unfold out_path. intros H. apply app_inv_head in H. apply app_inv_head in H. exact H.
Qed.

Lemma NoDup_requested formats : NoDup (requested formats).
Proof.
  unfold requested. apply NoDup_filter. unfold tags.
  repeat (apply NoDup_cons; split;
          [rewrite ?elem_of_cons, elem_of_nil; cbv; intuition discriminate|]).
  apply NoDup_nil. exact I.
Qed.

Lemma NoDup_out_paths base formats : NoDup (map (out_path base) (requested formats)).
Proof.
  apply NoDup_fmap_2; [|apply NoDup_requested].
  intros x y. apply out_path_inj.
Qed.

Lemma planned_paths jd base result formats srt_cues vtt_cues :
  map fst (planned jd base result formats srt_cues vtt_cues) =
  map (out_path base) (requested formats).
Proof.
  unfold planned, requested, tags. rewrite !filter_cons, filter_nil.
  destruct (decide (lit "txt" ∈ formats)) as [H1|H1];
    [rewrite (bool_decide_eq_true_2 _ H1)|rewrite (bool_decide_eq_false_2 _ H1)];
  (destruct (decide (lit "srt" ∈ formats)) as [H2|H2];
    [rewrite (bool_decide_eq_true_2 _ H2)|rewrite (bool_decide_eq_false_2 _ H2)]);
  (destruct (decide (lit "vtt" ∈ formats)) as [H3|H3];
    [rewrite (bool_decide_eq_true_2 _ H3)|rewrite (bool_decide_eq_false_2 _ H3)]);
  (destruct (decide (lit "json" ∈ formats)) as [H4|H4];
    [rewrite (bool_decide_eq_true_2 _ H4)|rewrite (bool_decide_eq_false_2 _ H4)]);
  reflexivity.
Qed.

Lemma out_path_requested base tag formats :
  tag ∈ tags -> bool_decide (tag ∈ formats) = true ->
  out_path base tag ∈ map (out_path base) (requested formats).
Proof.
  intros Ht Hb. apply bool_decide_eq_true in Hb.
  apply list_elem_of_fmap_2. apply requested_spec. split; assumption.
Qed.

Ltac within_step :=
  first
    [ apply writes_within_ret
    | apply writes_within_lift
    | apply writes_within_bind; [|intros ?]
    | apply writes_within_for_each; intros ?
    | match goal with |- writes_within _ (let '(_, _) := ?x in _) => destruct x end ].

(** What [save_outputs] does after the directory is made touches the
    files of the requested tags only. *)
Lemma save_outputs_shape jd base result formats with_words :
  exists rest,
    (forall w, save_outputs jd base result formats with_words w =
               bind (makedirs (dirname base)) (fun _ => rest) w) /\
    writes_within (fun p => p ∈ map (out_path base) (requested formats)) rest.
Proof.
  eexists. split; [intros w; unfold save_outputs; reflexivity|].
  assert (Hin : forall tag, tag ∈ tags -> bool_decide (tag ∈ formats) = true ->
            out_path base tag ∈ map (out_path base) (requested formats))
    by (intros; apply out_path_requested; assumption).
  assert (Ht : lit "txt" ∈ tags) by (unfold tags; repeat constructor).
  assert (Hs : lit "srt" ∈ tags) by (unfold tags; repeat constructor).
  assert (Hv : lit "vtt" ∈ tags) by (unfold tags; repeat constructor).
  assert (Hj : lit "json" ∈ tags) by (unfold tags; repeat constructor).
  apply writes_within_bind; [|intros _; apply writes_within_bind; [|intros _;
    apply writes_within_bind; [|intros _]]];
    apply writes_within_when'; intros Hb; cbv zeta.
  - specialize (Hin _ Ht Hb).
    repeat first [apply writes_within_open_w; exact Hin
                 | apply writes_within_write; exact Hin | within_step].
  - specialize (Hin _ Hs Hb).
    repeat first [apply writes_within_open_w; exact Hin
                 | apply writes_within_write; exact Hin | within_step].
  - specialize (Hin _ Hv Hb).
    repeat first [apply writes_within_open_w; exact Hin
                 | apply writes_within_write; exact Hin | within_step].
  - specialize (Hin _ Hj Hb).
    repeat first [apply writes_within_open_w; exact Hin
                 | apply writes_within_write; exact Hin | within_step].
Qed.

(** The formats after txt leave the txt file alone. *)
Lemma save_outputs_after_txt jd base result formats with_words :
  exists rest,
    (forall w, save_outputs jd base result formats with_words w =
               bind (makedirs (dirname base)) (fun _ =>
                 bind (when (bool_decide (lit "txt" ∈ formats))
                         (bind (open_w (base ++ lit ".txt"))
                            (fun _ => write (base ++ lit ".txt") (strip (r_text result) ++ nl))))
                      (fun _ => rest)) w) /\
    writes_within (fun p => p <> base ++ lit ".txt") rest.
Proof.
  eexists. split; [intros w; unfold save_outputs; reflexivity|].
  assert (Hs : base ++ lit ".srt" <> base ++ lit ".txt")
    by (intros H; apply app_inv_head in H; discriminate H).
  assert (Hv : base ++ lit ".vtt" <> base ++ lit ".txt")
    by (intros H; apply app_inv_head in H; discriminate H).
  assert (Hj : base ++ lit ".json" <> base ++ lit ".txt")
    by (intros H; apply app_inv_head in H; discriminate H).
  apply writes_within_bind; [|intros _; apply writes_within_bind; [|intros _]];
    apply writes_within_when; cbv zeta;
    repeat first [apply writes_within_open_w; assumption
                 | apply writes_within_write; assumption | within_step].
Qed.

(** ** The cues *)

Lemma srt_lines_spec seg with_words :
  join nl (srt_lines seg with_words) ++ nl =
  strip (seg_text seg) ++ nl ++
  match spec_word_line seg with_words with
  | Some line => line ++ nl
  | None => []
  end.
Proof.
  unfold srt_lines, spec_word_line.
  destruct with_words; [destruct (seg_words seg) as [ws|]|]; cbn [app join];
    try (rewrite app_nil_r; reflexivity).
  destruct (join (lit " ") (map w_word ws)) as [|c word_line]; cbn [app join].
  - rewrite app_nil_r. reflexivity.
  - rewrite <- !app_assoc. reflexivity.
Qed.

Lemma srt_cue_spec i seg with_words :
  well_timed seg -> srt_cue i seg with_words = Ok (spec_srt_cue i seg with_words).
Proof.
  intros [[[Bs Hs] [Be He]] [Ps Pe]].
  apply Qabs_Qlt_condition in Hs, He.
  destruct (timestamps_nonneg _ Bs Ps (proj2 Hs)) as [Es _].
  destruct (timestamps_nonneg _ Be Pe (proj2 He)) as [Ee _].
  unfold srt_cue, spec_srt_cue. rewrite Es, Ee. cbn [res_bind]. f_equal.
  rewrite <- !app_assoc. do 5 f_equal.
  rewrite (app_assoc (join nl _) nl nl), srt_lines_spec, <- !app_assoc. reflexivity.
Qed.

Lemma vtt_cue_spec seg : well_timed seg -> vtt_cue seg = Ok (spec_vtt_cue seg).
Proof.
  intros [[[Bs Hs] [Be He]] [Ps Pe]].
  apply Qabs_Qlt_condition in Hs, He.
  destruct (timestamps_nonneg _ Bs Ps (proj2 Hs)) as [_ Es].
  destruct (timestamps_nonneg _ Be Pe (proj2 He)) as [_ Ee].
  unfold vtt_cue, spec_vtt_cue. rewrite Es, Ee. reflexivity.
Qed.

Lemma srt_cue_total i seg with_words :
  timed seg ->
  exists start end_,
    secs_to_ts (seg_start seg) = Ok start /\ secs_to_ts (seg_end seg) = Ok end_ /\
    srt_cue i seg with_words =
      Ok (str_of_Z i ++ nl ++ start ++ lit " --> " ++ end_ ++ nl
            ++ join nl (srt_lines seg with_words) ++ nl ++ nl).
Proof.
  intros [Hs He].
  destruct (timestamps_total _ Hs) as (bs & _ & Es).
  destruct (timestamps_total _ He) as (be & _ & Ee).
  eexists _, _. split; [exact Es|]. split; [exact Ee|].
  unfold srt_cue. rewrite Es, Ee. cbn [res_bind]. rewrite <- !app_assoc. reflexivity.
Qed.

Lemma vtt_cue_total seg :
  timed seg ->
  exists start end_,
    vtt_ts (seg_start seg) = Ok start /\ vtt_ts (seg_end seg) = Ok end_ /\
    vtt_cue seg = Ok (start ++ lit " --> " ++ end_ ++ nl ++ strip (seg_text seg) ++ nl ++ nl).
Proof.
  intros [Hs He].
  destruct (timestamps_total _ Hs) as (bs & Es & _).
  destruct (timestamps_total _ He) as (be & Ee & _).
  eexists _, _. split; [exact Es|]. split; [exact Ee|].
  unfold vtt_cue. rewrite Es, Ee. reflexivity.
Qed.

Lemma res_map_total {A B} (f : A -> res B) l :
  Forall (fun x => exists y, f x = Ok y) l -> exists ys, res_map f l = Ok ys.
Proof.
  induction 1 as [|x l [y Hy] _ [ys IH]]; [exists []; reflexivity|].
  exists (y :: ys). cbn [res_map]. rewrite Hy, IH. reflexivity.
Qed.

Lemma res_map_spec {A B} (f : A -> res B) (g : A -> B) l :
  Forall (fun x => f x = Ok (g x)) l -> res_map f l = Ok (map g l).
Proof.
  induction 1 as [|x l Hx _ IH]; [reflexivity|].
  cbn [res_map map]. rewrite Hx, IH. reflexivity.
Qed.

Lemma res_map_length {A B} (f : A -> res B) l ys :
  res_map f l = Ok ys -> length ys = length l.
Proof.
  revert ys. induction l as [|x l IH]; intros ys H; cbn [res_map] in H.
  - injection H as <-. reflexivity.
  - destruct (f x) as [y|e]; [|discriminate H].
    destruct (res_map f l) as [ys'|e]; [|discriminate H].
    injection H as <-. cbn [length]. rewrite (IH ys' eq_refl). reflexivity.
Qed.

Lemma Forall_enumerate {A} (P : A -> Prop) k (l : list A) :
  Forall P l -> Forall (fun x => P (snd x)) (enumerate k l).
Proof.
  intros H. revert k. induction H as [|x l Hx _ IH]; intros k; cbn [enumerate]; constructor.
  - exact Hx.
  - apply IH.
Qed.

Lemma enumerate_spec {A} k (l : list A) :
  map snd (enumerate k l) = l /\
  map fst (enumerate k l) = map (fun n => k + Z.of_nat n) (seq 0 (length l)).
Proof.
  revert k. induction l as [|x l IH]; intros k; [split; reflexivity|].
  cbn [enumerate map length seq fst snd]. destruct (IH (k + 1)) as [H1 H2].
  rewrite H1, H2. split; [reflexivity|]. f_equal; [f_equal; lia|].
  rewrite <- seq_shift, map_map. apply map_ext. intros n. lia.
Qed.

Lemma srt_cues_spec k segs with_words :
  Forall well_timed segs ->
  res_map (fun x => srt_cue (fst x) (snd x) with_words) (enumerate k segs) =
  Ok (map (fun x => spec_srt_cue (fst x) (snd x) with_words) (enumerate k segs)).
Proof.
  intros H. apply res_map_spec. apply (Forall_enumerate _ k) in H.
  revert H. apply List.Forall_impl. intros [i seg] Hw. apply srt_cue_spec. exact Hw.
Qed.

Lemma vtt_cues_spec segs :
  Forall well_timed segs -> res_map vtt_cue segs = Ok (map spec_vtt_cue segs).
Proof.
  intros H. apply res_map_spec. revert H. apply List.Forall_impl.
  intros seg. apply vtt_cue_spec.
Qed.

Lemma srt_cues_total k segs with_words :
  Forall timed segs ->
  exists cues,
    res_map (fun x => srt_cue (fst x) (snd x) with_words) (enumerate k segs) = Ok cues.
Proof.
  intros H. apply res_map_total. apply (Forall_enumerate _ k) in H.
  revert H. apply List.Forall_impl. intros [i seg] Hw.
  destruct (srt_cue_total i seg with_words Hw) as (s & e & _ & _ & Hc).
  eexists. exact Hc.
Qed.

Lemma vtt_cues_total segs :
  Forall timed segs -> exists cues, res_map vtt_cue segs = Ok cues.
Proof.
  intros H. apply res_map_total. revert H. apply List.Forall_impl. intros seg Hw.
  destruct (vtt_cue_total seg Hw) as (s & e & _ & _ & Hc). eexists. exact Hc.
Qed.

(** ** The planned files *)

Lemma emit_all_frame plan w :
  dirs (emit_all plan w) = dirs w /\ denied (emit_all plan w) = denied w /\
  log (emit_all plan w) = log w ++ concat (map file_events plan).
Proof.
  revert w. induction plan as [|[p cs] plan IH]; intros w; cbn [emit_all fold_left].
  - split; [reflexivity|]. split; [reflexivity|]. symmetry. apply app_nil_r.
  - destruct (IH (emit p cs w)) as (Hd & Hn & Hl). unfold emit_all in *.
    cbn [fst snd]. rewrite Hd, Hn, Hl. cbn [emit dirs denied log map concat file_events fst snd].
    split; [reflexivity|]. split; [reflexivity|]. rewrite <- app_assoc. reflexivity.
Qed.

Lemma emit_all_other plan w p :
  p ∉ map fst plan -> files (emit_all plan w) !! p = files w !! p.
Proof.
  revert w. induction plan as [|[q cs] plan IH]; intros w Hp; [reflexivity|].
  cbn [emit_all fold_left fst snd]. cbn [map fst] in Hp.
  apply not_elem_of_cons in Hp. destruct Hp as [Hq Hp].
  change (files (emit_all plan (emit q cs w)) !! p = files w !! p).
  rewrite (IH _ Hp). cbn [emit files]. apply lookup_insert_ne. congruence.
Qed.

Lemma emit_all_written plan w p cs :
  NoDup (map fst plan) -> (p, cs) ∈ plan ->
  files (emit_all plan w) !! p = Some (concat cs).
Proof.
  revert w. induction plan as [|[q cs'] plan IH]; intros w Hnd Hin.
  - apply elem_of_nil in Hin. contradiction.
  - cbn [map fst] in Hnd. apply NoDup_cons in Hnd. destruct Hnd as [Hq Hnd].
    cbn [emit_all fold_left fst snd].
    change (files (emit_all plan (emit q cs' w)) !! p = Some (concat cs)).
    apply elem_of_cons in Hin. destruct Hin as [Heq|Hin].
    + injection Heq as -> ->. rewrite (emit_all_other _ _ _ Hq).
      cbn [emit files]. apply lookup_insert_eq.
    + apply (IH _ Hnd Hin).
Qed.

Lemma planned_NoDup jd base result formats srt_cues vtt_cues :
  NoDup (map fst (planned jd base result formats srt_cues vtt_cues)).
Proof. rewrite planned_paths. apply NoDup_out_paths. Qed.

(** ** Directory creation and the files *)

Lemma makedirs_writable base ext w :
  ext <> [] -> writable w (base ++ ext) ->
  writable (snd (makedirs (dirname base) w)) (base ++ ext).
Proof.
  intros Hext [Hd Hn].
  destruct (makedirs_spec (dirname base) w) as (r & w1 & Hmk & _ & Hn1 & _ & _ & Hs & _).
  rewrite Hmk. cbn [snd]. split; [|rewrite Hn1; exact Hn].
  intros Hin. apply Hs in Hin. apply elem_of_union in Hin. destruct Hin as [Hin|Hin].
  - exact (Hd Hin).
  - apply elem_of_list_to_set in Hin.
    assert (Hlen : (length (base ++ ext) <= length (dirname base))%nat).
    { apply elem_of_app in Hin. destruct Hin as [Hin|Hin].
      - apply ancestors_length. exact Hin.
      - apply list_elem_of_singleton in Hin. rewrite <- Hin. reflexivity. }
    pose proof (dirname_length base) as Hb. rewrite length_app in Hlen.
    destruct ext; [congruence|]. cbn [length] in Hlen. lia.
Qed.

(** A call whose directory can be made, whose requested files are
    writable and whose segments, when cues are wanted, carry seconds
    values writes the planned files and returns. *)
Lemma save_outputs_success jd base result formats with_words w :
  fst (makedirs (dirname base) w) = Ok tt ->
  (forall tag, tag ∈ requested formats -> writable w (out_path base tag)) ->
  (lit "srt" ∈ formats \/ lit "vtt" ∈ formats -> Forall timed (r_segments result)) ->
  exists srt_cues vtt_cues,
    (lit "srt" ∈ formats ->
     res_map (fun x => srt_cue (fst x) (snd x) with_words) (enumerate 1 (r_segments result))
       = Ok srt_cues) /\
    (lit "vtt" ∈ formats -> res_map vtt_cue (r_segments result) = Ok vtt_cues) /\
    save_outputs jd base result formats with_words w =
    (Ok tt, emit_all (planned jd base result formats srt_cues vtt_cues)
              (snd (makedirs (dirname base) w))).
Proof.
  intros Hmk Hwr Htimed.
  assert (Hsrt : exists srt_cues, lit "srt" ∈ formats ->
            res_map (fun x => srt_cue (fst x) (snd x) with_words)
              (enumerate 1 (r_segments result)) = Ok srt_cues).
  { destruct (decide (lit "srt" ∈ formats)) as [Hin|Hin].
    - destruct (srt_cues_total 1 _ with_words (Htimed (or_introl Hin))) as [cues Hc].
      exists cues. intros _. exact Hc.
    - exists []. intros Hin'. contradiction. }
  assert (Hvtt : exists vtt_cues, lit "vtt" ∈ formats ->
            res_map vtt_cue (r_segments result) = Ok vtt_cues).
  { destruct (decide (lit "vtt" ∈ formats)) as [Hin|Hin].
    - destruct (vtt_cues_total _ (Htimed (or_intror Hin))) as [cues Hc].
      exists cues. intros _. exact Hc.
    - exists []. intros Hin'. contradiction. }
  destruct Hsrt as [srt_cues Hsrt]. destruct Hvtt as [vtt_cues Hvtt].
  exists srt_cues, vtt_cues. split; [exact Hsrt|]. split; [exact Hvtt|].
  apply save_outputs_run.
  - destruct (makedirs (dirname base) w) as [r w1]. cbn [fst snd] in *. rewrite Hmk. reflexivity.
  - intros p cs Hin.
    assert (Hp : p ∈ map fst (planned jd base result formats srt_cues vtt_cues)).
    { apply (list_elem_of_fmap_2 fst) in Hin. exact Hin. }
    rewrite planned_paths in Hp. apply list_elem_of_fmap in Hp.
    destruct Hp as (tag & -> & Htag).
    apply (makedirs_writable base (lit "." ++ tag)); [discriminate|].
    apply Hwr. exact Htag.
  - exact Hsrt.
  - exact Hvtt.
Qed.
Local Open Scope Z_scope.

(** * The claims *)

Lemma length_format_d_2 z : (2 <= length (format_d 2 z))%nat.
Proof. unfold format_d. apply length_zero_pad. Qed.

Lemma length_format_d_lt_100 z : 0 <= z < 100 -> length (format_d 2 z) = 2%nat.
Proof.
  intros Hz. rewrite format_d_nonneg by lia. apply length_zero_pad.
  cbn [length]. apply length_str_lt_100. exact Hz.
Qed.

Lemma length_millis z : 0 <= z < 1000 -> length (zero_pad 3 [] (str_of_Z z)) = 3%nat.
Proof. intros Hz. apply length_zero_pad. cbn [length]. apply length_str_lt_1000. exact Hz. Qed.

Lemma spec_minutes_range t : 0 <= spec_minutes t < 60.
Proof.
  unfold spec_minutes. destruct (Qmod_bounds t 3600 ltac:(reflexivity)) as [H0 H1].
  split.
  - apply Qfloor_nonneg. apply Qle_shift_div_l; [reflexivity|]. lra.
  - assert (H : (Qfloor (Qmod t 3600 / 60) < 59 + 1)%Z); [|lia].
    rewrite Zlt_Qlt. eapply Qle_lt_trans; [apply Qfloor_le|].
    apply Qlt_shift_div_r; [reflexivity|]. change (inject_Z (59 + 1) * 60)%Q with 3600%Q. exact H1.
Qed.

Lemma spec_timestamp_comma t :
  spec_timestamp (ch ",") t = replace (ch ".") (ch ",") (spec_timestamp (ch ".") t).
Proof.
  unfold spec_timestamp. cbv zeta. rewrite !replace_app, !replace_format_d.
  rewrite replace_zero_pad by (reflexivity || apply replace_str_of_Z). reflexivity.
Qed.

(** C1 (for seconds values below 2^53): the timestamp of a finite
    non-negative seconds value [t] is made of the hours [floor(t/3600)]
    zero-padded to two digits at least and not capped, the minutes
    [floor((t mod 3600)/60)] on two digits, and the seconds [t mod 60]
    rounded to three decimals with a two-digit integer part; the vtt
    expression renders the same fields with a period for the comma.  The
    values 0, 5, 65 and 3661.5 render as the specification lists them, and
    100 hours need three digits. *)
Theorem C1_timestamp_rendering :
  (forall t : float,
      binary64 t -> (0 <= F2Q t)%Q -> (F2Q t < inject_Z (2 ^ 53))%Q ->
      let ms := round_half_even (spec_seconds (F2Q t) * inject_Z 1000) in
      secs_to_ts t = Ok (spec_timestamp (ch ",") (F2Q t)) /\
      vtt_ts t = Ok (spec_timestamp (ch ".") (F2Q t)) /\
      spec_timestamp (ch ",") (F2Q t) =
        replace (ch ".") (ch ",") (spec_timestamp (ch ".") (F2Q t)) /\
      0 <= spec_hours (F2Q t) /\
      (2 <= length (format_d 2 (spec_hours (F2Q t))))%nat /\
      0 <= spec_minutes (F2Q t) < 60 /\
      length (format_d 2 (spec_minutes (F2Q t))) = 2%nat /\
      0 <= ms <= 60000 /\
      length (format_d 2 (ms / 1000)) = 2%nat /\
      length (zero_pad 3 [] (str_of_Z (ms mod 1000))) = 3%nat) /\
  secs_to_ts (float_of_Z 0) = Ok (lit "00:00:00,000") /\
  secs_to_ts (float_of_Z 5) = Ok (lit "00:00:05,000") /\
  secs_to_ts (float_of_Z 65) = Ok (lit "00:01:05,000") /\
  secs_to_ts (dyadic 7323 (-1)) = Ok (lit "01:01:01,500") /\
  vtt_ts (float_of_Z 0) = Ok (lit "00:00:00.000") /\
  vtt_ts (float_of_Z 5) = Ok (lit "00:00:05.000") /\
  vtt_ts (float_of_Z 65) = Ok (lit "00:01:05.000") /\
  vtt_ts (dyadic 7323 (-1)) = Ok (lit "01:01:01.500") /\
  secs_to_ts (float_of_Z 360000) = Ok (lit "100:00:00,000").
Proof.
  split; [|repeat split; vm_compute; reflexivity].
  intros t Bt H0 H1 ms.
  destruct (timestamps_nonneg t Bt H0 H1) as [Hs Hv].
  split; [exact Hs|]. split; [exact Hv|]. split; [apply spec_timestamp_comma|].
  split.
  { unfold spec_hours. apply Qfloor_nonneg. apply Qle_shift_div_l; [reflexivity|]. lra. }
  split; [apply length_format_d_2|].
  pose proof (spec_minutes_range (F2Q t)) as Hm.
  split; [exact Hm|]. split; [apply length_format_d_lt_100; lia|].
  assert (Hms : 0 <= ms <= 60000).
  { destruct (Qmod_bounds (F2Q t) 60 ltac:(reflexivity)) as [Ha Hb].
    apply millis_range; assumption. }
  split; [exact Hms|]. split.
  - apply length_format_d_lt_100. split; [apply Z.div_pos; lia|].
    apply Z.div_lt_upper_bound; lia.
  - apply length_millis. apply Z.mod_pos_bound. lia.
Qed.

Lemma C1_timestamp_rendering_witness :
  secs_to_ts (dyadic 7323 (-1)) = Ok (spec_timestamp (ch ",") (F2Q (dyadic 7323 (-1)))).
Proof.
  apply (proj1 C1_timestamp_rendering (dyadic 7323 (-1))).
  - split; vm_compute; reflexivity.
  - vm_compute. discriminate.
  - vm_compute. reflexivity.
Defined.

(** C1 fails far from the data: at 0x1.00eadbc3be93bp+63 seconds the
    subtraction [t - t % 3600] is rounded, and the hours field is one
    below [floor(t/3600)]. *)
Lemma C1_hours_counterexample :
  binary64 far_secs /\ (0 <= F2Q far_secs)%Q /\
  secs_to_ts far_secs = Ok (lit "2571229285003096:18:56,000") /\
  spec_hours (F2Q far_secs) = 2571229285003097 /\
  spec_timestamp (ch ",") (F2Q far_secs) = lit "2571229285003097:18:56,000".
Proof.
  split; [split; vm_compute; reflexivity|].
  split; [vm_compute; discriminate|].
  split; [vm_compute; reflexivity|].
  split; vm_compute; reflexivity.
Qed.

(** C9: the double nearest to 59.9996 lies below the minute, and its
    seconds field rounds to 60.000 while the minutes stay 00. *)
Theorem C9_sixty_seconds_field :
  exists t : float,
    binary64 t /\ (0 <= F2Q t)%Q /\ (F2Q t < 60)%Q /\
    (Qabs (F2Q t - (599996 # 10000)) < (1 # 2 ^ 47))%Q /\
    secs_to_ts t = Ok (lit "00:00:60,000") /\
    vtt_ts t = Ok (lit "00:00:60.000").
Proof.
  exists near_minute.
  split; [split; vm_compute; reflexivity|].
  split; [vm_compute; discriminate|].
  split; [vm_compute; reflexivity|].
  split; [vm_compute; reflexivity|].
  split; vm_compute; reflexivity.
Qed.

(** ** The files *)

Lemma makedirs_files d w : files (snd (makedirs d w)) = files w.
Proof.
  destruct (makedirs_spec d w) as (r & w1 & Hmk & Hf & _). rewrite Hmk. exact Hf.
Qed.

Lemma makedirs_dir_exists base ext w :
  fst (makedirs (dirname base) w) = Ok tt ->
  Forall (fun c => (c =? sep)%N = false) ext ->
  dir_exists (snd (makedirs (dirname base) w)) (dirname (base ++ ext)) = true.
Proof.
  intros Hmk Hext.
  destruct (makedirs_spec (dirname base) w) as (r & w1 & Hmk' & _ & _ & _ & _ & _ & Hin & _).
  rewrite Hmk' in *. cbn [fst snd] in *. destruct (Hin Hmk) as (_ & Hd & _).
  rewrite (dirname_ext _ _ Hext). unfold dir_exists.
  destruct (rstrip_sep (dirname base)); [reflexivity|].
  apply bool_decide_eq_true. exact Hd.
Qed.

(** The txt file of a call that asks for it, whatever the later formats
    do. *)
Lemma save_outputs_txt jd base result formats with_words w :
  lit "txt" ∈ formats ->
  fst (makedirs (dirname base) w) = Ok tt ->
  writable w (base ++ lit ".txt") ->
  files (snd (save_outputs jd base result formats with_words w)) !! (base ++ lit ".txt") =
  Some (strip (r_text result) ++ nl).
Proof.
  intros Hin Hmk Hwr.
  destruct (save_outputs_after_txt jd base result formats with_words) as (rest & Heq & Hrest).
  rewrite Heq.
  pose proof (makedirs_writable base (lit ".txt") w ltac:(discriminate) Hwr) as Hwr1.
  pose proof (makedirs_dir_exists base (lit ".txt") w Hmk
                ltac:(apply ext_no_sep; reflexivity)) as Hde.
  destruct (makedirs (dirname base) w) as [r0 w1] eqn:E. cbn [fst snd] in *. subst r0.
  rewrite (bind_ok _ _ _ _ _ E).
  rewrite (bool_decide_eq_true_2 _ Hin). cbn [when].
  rewrite (bind_ok _ _ _ _ _ (block_one _ (strip (r_text result) ++ nl) w1 Hwr1 Hde)).
  destruct (Hrest (emit (base ++ lit ".txt") [strip (r_text result) ++ nl] w1))
    as (_ & _ & Hf & _).
  rewrite Hf by (intros H; apply H; reflexivity).
  cbn [emit files concat]. rewrite app_nil_r. apply lookup_insert_eq.
Qed.

(** C4: when txt is requested, the directory can be made and the path is
    writable, the txt file holds the text stripped of the whitespace at
    both ends and one newline after it; the stripped text ends in no
    newline of its own, and the file is the same whatever the segments. *)
Theorem C4_txt_file (json_dumps : TranscriptionResult -> pystr) base result formats
    with_words w :
  lit "txt" ∈ formats ->
  fst (makedirs (dirname base) w) = Ok tt ->
  writable w (base ++ lit ".txt") ->
  let body := strip (r_text result) in
  files (snd (save_outputs json_dumps base result formats with_words w))
    !! (base ++ lit ".txt") = Some (body ++ nl) /\
  (exists l r, r_text result = l ++ body ++ r /\
               forallb isspace l = true /\ forallb isspace r = true) /\
  (forall c s, body = c :: s -> isspace c = false) /\
  (forall c s, body = s ++ [c] -> isspace c = false) /\
  (forall s, body <> s ++ nl) /\
  (forall segments,
      files (snd (save_outputs json_dumps base
                    {| r_text := r_text result; r_segments := segments |}
                    formats with_words w))
        !! (base ++ lit ".txt") = Some (body ++ nl)).
Proof.
  intros Hin Hmk Hwr body. subst body.
  destruct (strip_spec (r_text result)) as (Hdec & Hhead & Hlast).
  split; [apply save_outputs_txt; assumption|].
  split; [exact Hdec|]. split; [exact Hhead|]. split; [exact Hlast|].
  split; [intros s; apply strip_no_trailing_newline|].
  intros segments.
  apply (save_outputs_txt json_dumps base {| r_text := r_text result; r_segments := segments |});
    assumption.
Qed.

Lemma save_outputs_recognized jd base result formats with_words w :
  save_outputs jd base result formats with_words w =
  save_outputs jd base result (formats ∩ recognized) with_words w.
Proof.
  assert (H : forall tag, tag ∈ recognized ->
            bool_decide (tag ∈ formats ∩ recognized) = bool_decide (tag ∈ formats)).
  { intros tag Ht. apply bool_decide_ext. rewrite elem_of_intersection. tauto. }
  unfold save_outputs. rewrite !H; [reflexivity| | | |]; unfold recognized;
    rewrite !elem_of_union, !elem_of_singleton; tauto.
Qed.

Lemma save_outputs_frame jd base result formats with_words w p :
  p ∉ map (out_path base) (requested formats) ->
  files (snd (save_outputs jd base result formats with_words w)) !! p = files w !! p.
Proof.
  intros Hp.
  destruct (save_outputs_shape jd base result formats with_words) as (rest & Heq & Hrest).
  rewrite Heq. unfold bind. pose proof (makedirs_files (dirname base) w) as Hf.
  destruct (makedirs (dirname base) w) as [[[]|e] w1]; cbn [snd] in *.
  - destruct (Hrest w1) as (_ & _ & Hfr & _). rewrite (Hfr p Hp), Hf. reflexivity.
  - rewrite Hf. reflexivity.
Qed.

Lemma opened_app evs evs' : opened (evs ++ evs') = opened evs ++ opened evs'.
Proof. unfold opened. apply flat_map_app. Qed.

Lemma opened_file_events pc : opened (file_events pc) = [fst pc].
Proof.
  unfold file_events. cbn [opened flat_map app]. f_equal.
  induction (snd pc) as [|c cs IH]; [reflexivity|exact IH].
Qed.

Lemma opened_plan plan : opened (concat (map file_events plan)) = map fst plan.
Proof.
  induction plan as [|pc plan IH]; [reflexivity|].
  cbn [map concat]. rewrite opened_app, opened_file_events, IH. reflexivity.
Qed.

(** The trace of a call: the directory first, then file operations on
    the requested files only; no directory is made after the first
    step. *)
Lemma save_outputs_trace jd base result formats with_words w :
  exists evs,
    log (snd (save_outputs jd base result formats with_words w)) =
      log w ++ EMakedirs (dirname base) :: evs /\
    Forall (file_event_within (fun p => p ∈ map (out_path base) (requested formats))) evs /\
    (fst (makedirs (dirname base) w) <> Ok tt -> evs = []) /\
    dirs (snd (save_outputs jd base result formats with_words w)) =
      dirs (snd (makedirs (dirname base) w)).
Proof.
  destruct (save_outputs_shape jd base result formats with_words) as (rest & Heq & Hrest).
  rewrite Heq. unfold bind.
  destruct (makedirs_spec (dirname base) w) as (r & w1 & Hmk & _ & _ & Hl & _).
  rewrite Hmk. cbn [fst snd]. destruct r as [[]|e]; cbn [snd].
  - destruct (Hrest w1) as (Hd & _ & _ & evs & Hlog & Hev).
    exists evs. split; [rewrite Hlog, Hl, <- app_assoc; reflexivity|].
    split; [exact Hev|]. split; [intros H; contradiction|exact Hd].
  - exists []. split; [exact Hl|]. split; [constructor|]. split; reflexivity.
Qed.

(** C5: the call behaves as on the recognized tags of the request, and,
    returning or raising, leaves every file other than [{base}.{tag}] of
    a requested recognized tag as it was.  When the directory can be
    made, these files are writable and the segments carry seconds values,
    it returns, having opened the file of each such tag once, in the
    order txt, srt, vtt, json, and each holds what was written to it
    whatever it held before.  None is opened for a request with no
    recognized tag; the four tags give four files. *)
Theorem C5_one_file_per_tag (json_dumps : TranscriptionResult -> pystr) base result formats
    with_words w :
  let run := save_outputs json_dumps base result formats with_words w in
  run = save_outputs json_dumps base result (formats ∩ recognized) with_words w /\
  (forall p, p ∉ map (out_path base) (requested formats) ->
             files (snd run) !! p = files w !! p) /\
  (fst (makedirs (dirname base) w) = Ok tt ->
   (forall tag, tag ∈ requested formats -> writable w (out_path base tag)) ->
   (lit "srt" ∈ formats \/ lit "vtt" ∈ formats -> Forall timed (r_segments result)) ->
   exists plan,
     map fst plan = map (out_path base) (requested formats) /\
     NoDup (map fst plan) /\
     fst run = Ok tt /\
     opened (log (snd run)) = opened (log w) ++ map fst plan /\
     forall p chunks, (p, chunks) ∈ plan -> files (snd run) !! p = Some (concat chunks)) /\
  (requested formats = [] ->
   files (snd run) = files w /\ log (snd run) = log w ++ [EMakedirs (dirname base)]) /\
  (forall tag, tag ∈ requested formats <-> tag ∈ recognized /\ tag ∈ formats) /\
  requested ∅ = [] /\
  requested {[ lit "txt" ]} = [lit "txt"] /\
  requested {[ lit "srt"; lit "xml" ]} = [lit "srt"] /\
  requested {[ lit "txt"; lit "srt"; lit "vtt"; lit "json" ]}
    = [lit "txt"; lit "srt"; lit "vtt"; lit "json"].
Proof.
  intros run. subst run.
  split; [apply save_outputs_recognized|].
  split; [intros p Hp; apply save_outputs_frame; exact Hp|].
  split.
  { intros Hmk Hwr Htimed.
    destruct (save_outputs_success json_dumps base result formats with_words w Hmk Hwr Htimed)
      as (srt_cues & vtt_cues & _ & _ & Hrun).
    exists (planned json_dumps base result formats srt_cues vtt_cues).
    split; [apply planned_paths|]. split; [apply planned_NoDup|].
    rewrite Hrun. cbn [fst snd]. split; [reflexivity|].
    destruct (emit_all_frame (planned json_dumps base result formats srt_cues vtt_cues)
                (snd (makedirs (dirname base) w))) as (_ & _ & Hlog).
    split.
    - rewrite Hlog, opened_app, opened_plan. f_equal.
      destruct (makedirs_spec (dirname base) w) as (r & w1 & Hmk' & _ & _ & Hl & _).
      rewrite Hmk'. cbn [snd]. rewrite Hl, opened_app. cbn. apply app_nil_r.
    - intros p chunks Hin. apply emit_all_written; [apply planned_NoDup|exact Hin]. }
  split.
  { intros Hnone. split.
    - apply map_eq. intros p. apply save_outputs_frame. rewrite Hnone. apply not_elem_of_nil.
    - destruct (save_outputs_trace json_dumps base result formats with_words w)
        as (evs & Hlog & Hev & _).
      rewrite Hlog. rewrite Hnone in Hev. destruct Hev as [|ev evs Hev _]; [reflexivity|].
      destruct ev; cbn in Hev; try contradiction; apply elem_of_nil in Hev; contradiction. }
  split.
  { intros tag. rewrite requested_spec. unfold tags, recognized.
    rewrite !elem_of_cons, elem_of_nil, !elem_of_union, !elem_of_singleton. tauto. }
  repeat split; vm_compute; reflexivity.
Qed.

(** C7: the first call of [save_outputs] to the operating system makes
    the parent directory of the base path; only file operations follow.
    When it succeeds, the directory and its ancestors exist from then on.
    When it fails, the call fails with the same error, no file is opened
    and the files are what they were. *)
Theorem C7_directory_first (json_dumps : TranscriptionResult -> pystr) base result formats
    with_words w :
  let d := dirname base in
  let run := save_outputs json_dumps base result formats with_words w in
  (exists evs,
      log (snd run) = log w ++ EMakedirs d :: evs /\
      Forall (file_event_within (fun p => p ∈ map (out_path base) (requested formats))) evs) /\
  (fst (makedirs d w) = Ok tt ->
   d ∈ dirs (snd run) /\ forall a, a ∈ ancestors d -> a ∈ dirs (snd run)) /\
  (forall e, fst (makedirs d w) = Raise e ->
   fst run = Raise e /\ files (snd run) = files w /\
   log (snd run) = log w ++ [EMakedirs d]).
Proof.
  intros d run. subst d run.
  destruct (save_outputs_trace json_dumps base result formats with_words w)
    as (evs & Hlog & Hev & Hnil & Hdirs).
  split; [exists evs; split; assumption|]. split.
  - intros Hmk. rewrite Hdirs.
    destruct (makedirs_spec (dirname base) w) as (r & w1 & Hmk' & _ & _ & _ & _ & _ & Hin & _).
    rewrite Hmk' in *. cbn [fst snd] in *. destruct (Hin Hmk) as (_ & Hd & Ha).
    split; assumption.
  - intros e Hmk. split; [|split].
    + destruct (save_outputs_shape json_dumps base result formats with_words)
        as (rest & Heq & _).
      rewrite Heq. unfold bind. destruct (makedirs (dirname base) w) as [r w1].
      cbn [fst] in Hmk. subst r. reflexivity.
    + apply map_eq. intros p.
      destruct (save_outputs_shape json_dumps base result formats with_words)
        as (rest & Heq & _).
      rewrite Heq. unfold bind. pose proof (makedirs_files (dirname base) w) as Hf.
      destruct (makedirs (dirname base) w) as [r w1].
      cbn [fst snd] in *. subst r. cbn [snd]. rewrite Hf. reflexivity.
    + rewrite Hlog, Hnil; [reflexivity|]. rewrite Hmk. discriminate.
Qed.

Lemma no_sep_Forall (p : path) : sep ∉ p <-> Forall (fun c => (c =? sep)%N = false) p.
Proof.
  rewrite Forall_forall. split.
  - intros H c Hc. apply N.eqb_neq. intros ->. exact (H Hc).
  - intros H Hin. specialize (H _ Hin). rewrite N.eqb_refl in H. discriminate.
Qed.

(** C10: for a base path without separator the parent directory is the
    empty path, making it raises FileNotFoundError, and the call ends
    there: no file is opened or changed, for any request.  Yet the file
    of every tag lies in the current directory, where opening a writable
    path succeeds. *)
Theorem C10_bare_base_path (json_dumps : TranscriptionResult -> pystr) base result formats
    with_words w :
  sep ∉ base ->
  let run := save_outputs json_dumps base result formats with_words w in
  dirname base = [] /\
  fst run = Raise FileNotFoundError /\
  files (snd run) = files w /\ dirs (snd run) = dirs w /\
  log (snd run) = log w ++ [EMakedirs []] /\
  (forall tag, tag ∈ tags ->
     dirname (out_path base tag) = [] /\
     (writable w (out_path base tag) -> fst (open_w (out_path base tag) w) = Ok tt)).
Proof.
  intros Hsep run. subst run.
  assert (Hd : dirname base = []) by (apply dirname_nil, no_sep_Forall; exact Hsep).
  split; [exact Hd|].
  assert (Hrun : save_outputs json_dumps base result formats with_words w =
                 (Raise FileNotFoundError,
                  {| dirs := dirs w; files := files w; denied := denied w;
                     log := log w ++ [EMakedirs []] |})).
  { destruct (save_outputs_shape json_dumps base result formats with_words) as (rest & Heq & _).
    rewrite Heq, Hd. reflexivity. }
  rewrite Hrun. cbn [fst snd dirs files log].
  split; [reflexivity|]. split; [reflexivity|]. split; [reflexivity|]. split; [reflexivity|].
  intros tag Htag.
  assert (Ht : dirname (out_path base tag) = []).
  { apply dirname_nil. unfold out_path. apply Forall_app. split; [apply no_sep_Forall; exact Hsep|].
    unfold tags in Htag. rewrite !elem_of_cons, elem_of_nil in Htag.
    destruct Htag as [->|[->|[->|[->|[]]]]]; repeat constructor. }
  split; [exact Ht|]. intros Hwr.
  rewrite (open_w_run _ w Hwr); [reflexivity|]. rewrite Ht. reflexivity.
Qed.

Lemma planned_srt jd base result formats srt_cues vtt_cues :
  lit "srt" ∈ formats ->
  (base ++ lit ".srt", srt_cues) ∈ planned jd base result formats srt_cues vtt_cues.
Proof.
  intros Hin. unfold planned. rewrite (bool_decide_eq_true_2 _ Hin).
  apply elem_of_app. right. apply elem_of_app. left. apply list_elem_of_here.
Qed.

Lemma planned_vtt jd base result formats srt_cues vtt_cues :
  lit "vtt" ∈ formats ->
  (base ++ lit ".vtt", (lit "WEBVTT" ++ nl ++ nl) :: vtt_cues)
    ∈ planned jd base result formats srt_cues vtt_cues.
Proof.
  intros Hin. unfold planned. rewrite (bool_decide_eq_true_2 _ Hin).
  apply elem_of_app. right. apply elem_of_app. right. apply elem_of_app. left.
  apply list_elem_of_here.
Qed.

Lemma well_timed_timed segs : Forall well_timed segs -> Forall timed segs.
Proof. apply List.Forall_impl. intros seg [H _]. exact H. Qed.

(** C2: when srt is requested, the segments are well timed, the
    directory can be made and the requested files are writable, the srt
    file is the concatenation of the cues of the segments in order,
    numbered from 1: index line, time line with comma timestamps, trimmed
    text, the word line if any, blank line.  The source builds no word
    line when the flag is off or the words are absent, and the line
    [hi there] for the words [hi], [there]. *)
Theorem C2_srt_file (json_dumps : TranscriptionResult -> pystr) base result formats
    with_words w :
  lit "srt" ∈ formats ->
  Forall well_timed (r_segments result) ->
  fst (makedirs (dirname base) w) = Ok tt ->
  (forall tag, tag ∈ requested formats -> writable w (out_path base tag)) ->
  let numbered := enumerate 1 (r_segments result) in
  files (snd (save_outputs json_dumps base result formats with_words w))
    !! (base ++ lit ".srt")
  = Some (concat (map (fun x => spec_srt_cue (fst x) (snd x) with_words) numbered)) /\
  map fst numbered = map (fun n => 1 + Z.of_nat n) (seq 0 (length (r_segments result))) /\
  map snd numbered = r_segments result /\
  (forall seg, srt_lines seg false = [strip (seg_text seg)]) /\
  (forall seg, seg_words seg = None -> srt_lines seg true = [strip (seg_text seg)]) /\
  (forall seg hi there,
      seg_words seg = Some [hi; there] -> w_word hi = lit "hi" -> w_word there = lit "there" ->
      srt_lines seg true = [strip (seg_text seg); lit "hi there"]).
Proof.
  intros Hin Hseg Hmk Hwr numbered. subst numbered.
  destruct (enumerate_spec 1 (r_segments result)) as [Hsnd Hfst].
  split; [|split; [exact Hfst|split; [exact Hsnd|]]].
  - destruct (save_outputs_success json_dumps base result formats with_words w Hmk Hwr
                (fun _ => well_timed_timed _ Hseg))
      as (srt_cues & vtt_cues & Hsrt & _ & Hrun).
    rewrite Hrun. cbn [snd].
    rewrite (emit_all_written _ _ _ srt_cues (planned_NoDup _ _ _ _ _ _)
               (planned_srt _ _ _ _ _ _ Hin)).
    specialize (Hsrt Hin). rewrite (srt_cues_spec 1 _ with_words Hseg) in Hsrt.
    injection Hsrt as <-. reflexivity.
  - split; [intros seg; reflexivity|]. split.
    + intros seg Hnone. unfold srt_lines. rewrite Hnone. reflexivity.
    + intros seg hi there Hws Hhi Hthere. unfold srt_lines. rewrite Hws.
      cbn [map]. rewrite Hhi, Hthere. reflexivity.
Qed.

(** C3: when vtt is requested, under the same conditions, the vtt file
    is the header [WEBVTT], a blank line, and the cues of the segments in
    order, unnumbered: time line with period timestamps, trimmed text,
    blank line.  The file is the same for both values of the word-line
    flag. *)
Theorem C3_vtt_file (json_dumps : TranscriptionResult -> pystr) base result formats w :
  lit "vtt" ∈ formats ->
  Forall well_timed (r_segments result) ->
  fst (makedirs (dirname base) w) = Ok tt ->
  (forall tag, tag ∈ requested formats -> writable w (out_path base tag)) ->
  forall with_words : bool,
    files (snd (save_outputs json_dumps base result formats with_words w))
      !! (base ++ lit ".vtt")
    = Some (lit "WEBVTT" ++ nl ++ nl ++ concat (map spec_vtt_cue (r_segments result))).
Proof.
  intros Hin Hseg Hmk Hwr with_words.
  destruct (save_outputs_success json_dumps base result formats with_words w Hmk Hwr
              (fun _ => well_timed_timed _ Hseg))
    as (srt_cues & vtt_cues & _ & Hvtt & Hrun).
  rewrite Hrun. cbn [snd].
  rewrite (emit_all_written _ _ _ _ (planned_NoDup _ _ _ _ _ _)
             (planned_vtt _ _ _ _ _ _ Hin)).
  specialize (Hvtt Hin). rewrite (vtt_cues_spec _ Hseg) in Hvtt.
  injection Hvtt as <-. cbn [concat]. rewrite <- !app_assoc. reflexivity.
Qed.

(** C8: for a segment whose end lies before its start, the start not
    negative, both cue renderers return: the start is rendered as
    specified, the end as whatever the arithmetic gives, the vtt
    rendering being the srt one with a period for the comma. *)
Theorem C8_reversed_segment (i : Z) (seg : Segment) (with_words : bool) :
  timed seg ->
  (F2Q (seg_end seg) < F2Q (seg_start seg))%Q ->
  (0 <= F2Q (seg_start seg))%Q ->
  exists end_vtt : pystr,
    vtt_ts (seg_end seg) = Ok end_vtt /\
    secs_to_ts (seg_end seg) = Ok (replace (ch ".") (ch ",") end_vtt) /\
    srt_cue i seg with_words =
      Ok (str_of_Z i ++ nl
            ++ spec_timestamp (ch ",") (F2Q (seg_start seg)) ++ lit " --> "
            ++ replace (ch ".") (ch ",") end_vtt ++ nl
            ++ join nl (srt_lines seg with_words) ++ nl ++ nl) /\
    vtt_cue seg =
      Ok (spec_timestamp (ch ".") (F2Q (seg_start seg)) ++ lit " --> " ++ end_vtt ++ nl
            ++ strip (seg_text seg) ++ nl ++ nl).
Proof.
  intros [[Bs Hs] He] _ H0.
  apply Qabs_Qlt_condition in Hs.
  destruct (timestamps_nonneg _ Bs H0 (proj2 Hs)) as [Es Ev].
  destruct (timestamps_total _ He) as (end_vtt & Ev' & Es').
  exists end_vtt. split; [exact Ev'|]. split; [exact Es'|]. split.
  - unfold srt_cue. rewrite Es, Es'. cbn [res_bind]. rewrite <- !app_assoc. reflexivity.
  - unfold vtt_cue. rewrite Ev, Ev'. reflexivity.
Qed.

(** ** Sample runs *)

Ltac timed_sample :=
  unfold well_timed, timed, seconds, binary64; cbn [seg_start seg_end];
  repeat split; vm_compute; solve [reflexivity | discriminate].

Lemma sample_well_timed : Forall well_timed (r_segments sample_result).
Proof. repeat constructor; timed_sample. Defined.

Lemma sample_writable (formats : gset pystr) tag :
  tag ∈ requested formats -> writable empty_world (out_path (lit "out/a") tag).
Proof. intros _. split; apply not_elem_of_empty. Defined.

Lemma sample_makedirs : fst (makedirs (dirname (lit "out/a")) empty_world) = Ok tt.
Proof. vm_compute. reflexivity. Defined.

Lemma C4_txt_file_witness :
  files (snd (save_outputs sample_json (lit "out/a") sample_result {[ lit "txt" ]} false
                empty_world))
    !! lit "out/a.txt" = Some (lit "Hello world. Hi there." ++ nl).
Proof.
  refine (proj1 (C4_txt_file sample_json (lit "out/a") sample_result {[ lit "txt" ]} false
                   empty_world _ sample_makedirs _)).
  - apply elem_of_singleton. reflexivity.
  - split; apply not_elem_of_empty.
Defined.

Lemma C2_srt_file_witness :
  files (snd (save_outputs sample_json (lit "out/a") sample_result
                {[ lit "srt"; lit "txt" ]} true empty_world))
    !! lit "out/a.srt"
  = Some (lit "1" ++ nl ++ lit "00:00:00,000 --> 00:00:02,500" ++ nl
            ++ lit "Hello world." ++ nl ++ nl
            ++ lit "2" ++ nl ++ lit "00:00:02,500 --> 01:01:01,500" ++ nl
            ++ lit "Hi there." ++ nl ++ lit "hi there" ++ nl ++ nl).
Proof.
  refine (eq_trans
            (proj1 (C2_srt_file sample_json (lit "out/a") sample_result
                      {[ lit "srt"; lit "txt" ]} true empty_world _ sample_well_timed
                      sample_makedirs (sample_writable _))) _).
  - apply elem_of_union. left. apply elem_of_singleton. reflexivity.
  - vm_compute. reflexivity.
Defined.

Lemma C3_vtt_file_witness :
  files (snd (save_outputs sample_json (lit "out/a") sample_result {[ lit "vtt" ]} true
                empty_world))
    !! lit "out/a.vtt"
  = Some (lit "WEBVTT" ++ nl ++ nl
            ++ lit "00:00:00.000 --> 00:00:02.500" ++ nl ++ lit "Hello world." ++ nl ++ nl
            ++ lit "00:00:02.500 --> 01:01:01.500" ++ nl ++ lit "Hi there." ++ nl ++ nl).
Proof.
  refine (eq_trans
            (C3_vtt_file sample_json (lit "out/a") sample_result {[ lit "vtt" ]} empty_world
               _ sample_well_timed sample_makedirs (sample_writable _) true) _).
  - apply elem_of_singleton. reflexivity.
  - vm_compute. reflexivity.
Defined.

Lemma C8_reversed_segment_witness :
  exists end_vtt : pystr,
    vtt_ts (float_of_Z (-1)) = Ok end_vtt /\
    secs_to_ts (float_of_Z (-1)) = Ok (replace (ch ".") (ch ",") end_vtt) /\
    srt_cue 1 reversed_segment false =
      Ok (str_of_Z 1 ++ nl
            ++ spec_timestamp (ch ",") (F2Q (float_of_Z 5)) ++ lit " --> "
            ++ replace (ch ".") (ch ",") end_vtt ++ nl
            ++ join nl (srt_lines reversed_segment false) ++ nl ++ nl) /\
    vtt_cue reversed_segment =
      Ok (spec_timestamp (ch ".") (F2Q (float_of_Z 5)) ++ lit " --> " ++ end_vtt ++ nl
            ++ strip (lit "back") ++ nl ++ nl).
Proof.
  apply (C8_reversed_segment 1 reversed_segment false).
  - unfold timed, seconds, binary64; cbn [seg_start seg_end reversed_segment];
      repeat split; vm_compute; reflexivity.
  - vm_compute. reflexivity.
  - vm_compute. discriminate.
Defined.

Lemma C10_bare_base_path_witness :
  fst (save_outputs sample_json (lit "a") sample_result {[ lit "txt" ]} false empty_world)
  = Raise FileNotFoundError.
Proof.
  refine (proj1 (proj2 (C10_bare_base_path sample_json (lit "a") sample_result
                          {[ lit "txt" ]} false empty_world _))).
  intros H. apply list_elem_of_singleton in H. discriminate H.
Defined.

Lemma C5_one_file_per_tag_witness :
  exists plan,
    map fst plan = [lit "out/a.txt"; lit "out/a.srt"; lit "out/a.vtt"; lit "out/a.json"] /\
    NoDup (map fst plan) /\
    fst (save_outputs sample_json (lit "out/a") sample_result recognized true empty_world)
      = Ok tt /\
    opened (log (snd (save_outputs sample_json (lit "out/a") sample_result recognized true
                        empty_world)))
      = opened (log empty_world) ++ map fst plan /\
    forall p chunks, (p, chunks) ∈ plan ->
      files (snd (save_outputs sample_json (lit "out/a") sample_result recognized true
                    empty_world)) !! p = Some (concat chunks).
Proof.
  apply (proj1 (proj2 (proj2 (C5_one_file_per_tag sample_json (lit "out/a") sample_result
                                recognized true empty_world)))).
  - exact sample_makedirs.
  - apply sample_writable.
  - intros _. exact (well_timed_timed _ sample_well_timed).
Defined.

Lemma C7_directory_first_witness :
  lit "out" ∈ dirs (snd (save_outputs sample_json (lit "out/a") sample_result
                           {[ lit "txt" ]} false empty_world)).
Proof.
  exact (proj1 (proj1 (proj2 (C7_directory_first sample_json (lit "out/a") sample_result
                                {[ lit "txt" ]} false empty_world)) sample_makedirs)).
Defined.
Local Open Scope Z_scope.

(** * Further properties of the serializer *)

Lemma for_each_app {A} (l1 l2 : list A) (body : A -> io unit) w :
  for_each (l1 ++ l2) body w = bind (for_each l1 body) (fun _ => for_each l2 body) w.
Proof.
  revert w. induction l1 as [|x l1 IH]; intros w; [reflexivity|].
  cbn [app for_each]. unfold bind in *. destruct (body x w) as [[[]|e] w1]; [|reflexivity].
  apply IH.
Qed.

Lemma enumerate_app {A} k (l1 l2 : list A) :
  enumerate k (l1 ++ l2) = enumerate k l1 ++ enumerate (k + Z.of_nat (length l1)) l2.
Proof.
  revert k. induction l1 as [|x l1 IH]; intros k.
  - cbn [app enumerate length]. rewrite Z.add_0_r. reflexivity.
  - cbn [app enumerate length]. rewrite IH. do 3 f_equal. lia.
Qed.

(** A time that is no number raises in both timestamp expressions. *)
Lemma timestamps_nonfinite t :
  is_finite t = false ->
  secs_to_ts t = Raise ValueError /\ vtt_ts t = Raise ValueError.
Proof. destruct t as [s|[|]| |s m e]; try discriminate; intros _; split; reflexivity. Qed.

Lemma srt_cue_nonfinite i seg with_words :
  is_finite (seg_start seg) = false -> srt_cue i seg with_words = Raise ValueError.
Proof.
  intros H. unfold srt_cue. rewrite (proj1 (timestamps_nonfinite _ H)). reflexivity.
Qed.

(** The srt loop stopped by a segment whose cue raises: the cues before
    it stay written. *)
Lemma srt_block_raise p (f : Z * Segment -> res pystr) (body : Z * Segment -> io unit)
    good bad after cs e w :
  writable w p -> dir_exists w (dirname p) = true ->
  (forall x w, body x w = bind (lift (f x)) (fun cue => write p cue) w) ->
  res_map f good = Ok cs -> f bad = Raise e ->
  bind (open_w p) (fun _ => for_each (good ++ bad :: after) body) w = (Raise e, emit p cs w).
Proof.
  intros Hw Hd Hb Hgood Hbad. rewrite (bind_ok _ _ _ _ _ (open_w_run p w Hw Hd)).
  rewrite (for_each_ext _ body _ _ Hb), for_each_app.
  rewrite (bind_ok _ _ _ _ _ (for_each_emit p f good cs [] w Hgood)).
  cbn [for_each app]. unfold bind, lift. rewrite Hbad. reflexivity.
Qed.

(** X1. A segment whose start is a NaN or an infinity stops the srt loop
    with ValueError: the call fails, yet the txt file is already written
    and the srt file holds the cues of the segments before it; the vtt
    and json files are not touched. *)
Theorem srt_failure_leaves_partial_output (json_dumps : TranscriptionResult -> pystr)
    base result formats with_words w good bad after :
  r_segments result = good ++ bad :: after ->
  Forall timed good ->
  is_finite (seg_start bad) = false ->
  lit "srt" ∈ formats ->
  fst (makedirs (dirname base) w) = Ok tt ->
  (forall tag, tag ∈ requested formats -> writable w (out_path base tag)) ->
  let run := save_outputs json_dumps base result formats with_words w in
  fst run = Raise ValueError /\
  (exists cues,
      res_map (fun x => srt_cue (fst x) (snd x) with_words) (enumerate 1 good) = Ok cues /\
      length cues = length good /\
      files (snd run) !! (base ++ lit ".srt") = Some (concat cues)) /\
  (lit "txt" ∈ formats ->
   files (snd run) !! (base ++ lit ".txt") = Some (strip (r_text result) ++ nl)) /\
  files (snd run) !! (base ++ lit ".vtt") = files w !! (base ++ lit ".vtt") /\
  files (snd run) !! (base ++ lit ".json") = files w !! (base ++ lit ".json").
Proof.
  intros Hsegs Hgood Hbad Hsrt Hmk Hwr run.
  destruct (srt_cues_total 1 good with_words Hgood) as [cues Hcues].
  assert (Hlen : length cues = length good).
  { rewrite (res_map_length _ _ _ Hcues).
    rewrite <- (length_map snd), (proj1 (enumerate_spec 1 good)). reflexivity. }
  assert (Htag : forall tag, tag ∈ tags -> tag ∈ formats ->
            writable (snd (makedirs (dirname base) w)) (out_path base tag)).
  { intros tag Ht Hf. apply (makedirs_writable base (lit "." ++ tag)); [discriminate|].
    apply Hwr. apply requested_spec. split; assumption. }
  assert (Hde : forall ext, forallb (fun c => negb (c =? sep)%N) (lit ext) = true ->
            dir_exists (snd (makedirs (dirname base) w)) (dirname (base ++ lit ext)) = true).
  { intros ext Hext. apply makedirs_dir_exists; [exact Hmk|apply ext_no_sep; exact Hext]. }
  pose proof (makedirs_files (dirname base) w) as Hfiles.
  destruct (makedirs (dirname base) w) as [r0 w1] eqn:E. cbn [fst snd] in *. subst r0.
  set (w2 := if bool_decide (lit "txt" ∈ formats)
             then emit (base ++ lit ".txt") [strip (r_text result) ++ nl] w1 else w1).
  assert (Hrun : run = (Raise ValueError, emit (base ++ lit ".srt") cues w2)).
  { subst run. unfold save_outputs. rewrite (bind_ok _ _ _ _ _ E).
    assert (H2 : when (bool_decide (lit "txt" ∈ formats))
                   (bind (open_w (base ++ lit ".txt"))
                      (fun _ => write (base ++ lit ".txt") (strip (r_text result) ++ nl))) w1
                 = (Ok tt, w2)).
    { subst w2. destruct (bool_decide (lit "txt" ∈ formats)) eqn:Et; [|reflexivity].
      apply bool_decide_eq_true in Et. cbn [when]. apply block_one.
      - apply (Htag (lit "txt")); [unfold tags; repeat constructor|exact Et].
      - apply (Hde ".txt"%string). reflexivity. }
    cbv zeta. rewrite (bind_ok _ _ _ _ _ H2).
    rewrite (bool_decide_eq_true_2 _ Hsrt). cbn [when].
    apply bind_raise. rewrite Hsegs, enumerate_app. cbn [enumerate].
    apply (srt_block_raise _ (fun x => srt_cue (fst x) (snd x) with_words)).
    - assert (Hw1 : writable w1 (base ++ lit ".srt")).
      { apply (Htag (lit "srt")); [unfold tags; repeat constructor|exact Hsrt]. }
      subst w2. destruct (bool_decide (lit "txt" ∈ formats)); exact Hw1.
    - assert (Hd1 : dir_exists w1 (dirname (base ++ lit ".srt")) = true).
      { apply (Hde ".srt"%string). reflexivity. }
      subst w2. destruct (bool_decide (lit "txt" ∈ formats)); exact Hd1.
    - intros [i seg] w'. reflexivity.
    - exact Hcues.
    - apply srt_cue_nonfinite. exact Hbad. }
  rewrite Hrun. cbn [fst snd emit files].
  assert (Hne : forall a b : string, lit a <> lit b -> base ++ lit a <> base ++ lit b).
  { intros a b Hab H. apply app_inv_head in H. exact (Hab H). }
  split; [reflexivity|]. split; [|split; [|split]].
  - exists cues. split; [exact Hcues|]. split; [exact Hlen|]. apply lookup_insert_eq.
  - intros Htxt. rewrite lookup_insert_ne by (apply Hne; discriminate).
    subst w2. rewrite (bool_decide_eq_true_2 _ Htxt). cbn [emit files concat].
    rewrite app_nil_r. apply lookup_insert_eq.
  - rewrite lookup_insert_ne by (apply Hne; discriminate).
    subst w2. destruct (bool_decide (lit "txt" ∈ formats)); cbn [emit files];
      rewrite ?lookup_insert_ne by (apply Hne; discriminate); rewrite Hfiles; reflexivity.
  - rewrite lookup_insert_ne by (apply Hne; discriminate).
    subst w2. destruct (bool_decide (lit "txt" ∈ formats)); cbn [emit files];
      rewrite ?lookup_insert_ne by (apply Hne; discriminate); rewrite Hfiles; reflexivity.
Qed.

Lemma mkdirs_existing leaf l w :
  (forall a, a ∈ l -> a ∈ dirs w) -> for_each l (mkdir_one leaf) w = (Ok tt, w).
Proof.
  induction l as [|a l IH]; intros H; [reflexivity|].
  cbn [for_each]. unfold bind, mkdir_one at 1.
  rewrite bool_decide_eq_true_2 by (apply H; apply list_elem_of_here).
  apply IH. intros b Hb. apply H. apply list_elem_of_further. exact Hb.
Qed.

(** Making a directory that exists with its ancestors changes nothing
    but the trace. *)
Lemma makedirs_existing d w :
  d <> [] -> d ∈ dirs w -> (forall a, a ∈ ancestors d -> a ∈ dirs w) ->
  makedirs d w = (Ok tt, {| dirs := dirs w; files := files w; denied := denied w;
                            log := log w ++ [EMakedirs d] |}).
Proof.
  intros Hne Hd Ha. unfold makedirs, bind, record. destruct d as [|c d]; [congruence|].
  apply mkdirs_existing. cbn [dirs]. intros a Hin. apply elem_of_app in Hin.
  destruct Hin as [Hin|Hin]; [apply Ha; exact Hin|].
  apply list_elem_of_singleton in Hin. subst a. exact Hd.
Qed.

Lemma planned_cues jd base result formats srt_cues vtt_cues srt_cues' vtt_cues' :
  (lit "srt" ∈ formats -> srt_cues = srt_cues') ->
  (lit "vtt" ∈ formats -> vtt_cues = vtt_cues') ->
  planned jd base result formats srt_cues vtt_cues =
  planned jd base result formats srt_cues' vtt_cues'.
Proof.
  intros Hs Hv. unfold planned.
  destruct (bool_decide (lit "srt" ∈ formats)) eqn:Es;
    [apply bool_decide_eq_true in Es; rewrite (Hs Es)|];
    (destruct (bool_decide (lit "vtt" ∈ formats)) eqn:Ev;
     [apply bool_decide_eq_true in Ev; rewrite (Hv Ev)|]); reflexivity.
Qed.

(** X2. A call that succeeded can be repeated: the second call returns
    as well and leaves every file and directory as the first call left
    them. *)
Theorem save_outputs_idempotent (json_dumps : TranscriptionResult -> pystr) base result
    formats with_words w :
  fst (makedirs (dirname base) w) = Ok tt ->
  (forall tag, tag ∈ requested formats -> writable w (out_path base tag)) ->
  (lit "srt" ∈ formats \/ lit "vtt" ∈ formats -> Forall timed (r_segments result)) ->
  let once := snd (save_outputs json_dumps base result formats with_words w) in
  let twice := save_outputs json_dumps base result formats with_words once in
  fst twice = Ok tt /\ files (snd twice) = files once /\ dirs (snd twice) = dirs once.
Proof.
  intros Hmk Hwr Htimed once twice.
  destruct (save_outputs_success json_dumps base result formats with_words w Hmk Hwr Htimed)
    as (srt_cues & vtt_cues & Hsrt & Hvtt & Hrun).
  set (plan := planned json_dumps base result formats srt_cues vtt_cues) in *.
  assert (Honce : once = emit_all plan (snd (makedirs (dirname base) w))).
  { subst once. rewrite Hrun. reflexivity. }
  destruct (emit_all_frame plan (snd (makedirs (dirname base) w))) as (Hd1 & Hn1 & _).
  rewrite <- Honce in Hd1, Hn1.
  destruct (makedirs_spec (dirname base) w)
    as (r & w1 & Hmk' & _ & Hn0 & _ & _ & _ & Hin & _).
  rewrite Hmk' in *. cbn [fst snd] in *. destruct (Hin Hmk) as (Hne & Hd & Ha).
  assert (Hmk2 : makedirs (dirname base) once =
                 (Ok tt, {| dirs := dirs once; files := files once; denied := denied once;
                            log := log once ++ [EMakedirs (dirname base)] |})).
  { apply makedirs_existing; [exact Hne|rewrite Hd1; exact Hd|].
    intros a Hin'. rewrite Hd1. apply Ha. exact Hin'. }
  assert (Hwr2 : forall tag, tag ∈ requested formats -> writable once (out_path base tag)).
  { intros tag Htag.
    pose proof (makedirs_writable base (lit "." ++ tag) w ltac:(discriminate) (Hwr tag Htag))
      as [Hx Hy].
    rewrite Hmk' in Hx, Hy. cbn [snd] in Hx, Hy. split; [rewrite Hd1|rewrite Hn1]; assumption. }
  destruct (save_outputs_success json_dumps base result formats with_words once
              ltac:(rewrite Hmk2; reflexivity) Hwr2 Htimed)
    as (srt_cues' & vtt_cues' & Hsrt' & Hvtt' & Hrun').
  rewrite (planned_cues _ _ _ _ srt_cues' vtt_cues' srt_cues vtt_cues) in Hrun'.
  2: { intros H. specialize (Hsrt H). specialize (Hsrt' H). congruence. }
  2: { intros H. specialize (Hvtt H). specialize (Hvtt' H). congruence. }
  fold plan in Hrun'. subst twice. rewrite Hrun', Hmk2. cbn [fst snd].
  split; [reflexivity|]. split.
  - apply map_eq. intros p.
    destruct (decide (p ∈ map fst plan)) as [Hp|Hp].
    + apply list_elem_of_fmap in Hp. destruct Hp as ([q cs] & -> & Hin2). cbn [fst].
      rewrite (emit_all_written plan _ q cs (planned_NoDup _ _ _ _ _ _) Hin2).
      rewrite Honce.
      rewrite (emit_all_written plan _ q cs (planned_NoDup _ _ _ _ _ _) Hin2). reflexivity.
    + rewrite (emit_all_other plan _ p Hp). reflexivity.
  - destruct (emit_all_frame plan
                {| dirs := dirs once; files := files once; denied := denied once;
                   log := log once ++ [EMakedirs (dirname base)] |}) as (Hd2 & _).
    exact Hd2.
Qed.

(** X3. The json file of a successful call holds the encoding of the
    whole result, whatever the word-line flag. *)
Theorem json_file_content (json_dumps : TranscriptionResult -> pystr) base result formats w :
  lit "json" ∈ formats ->
  fst (makedirs (dirname base) w) = Ok tt ->
  (forall tag, tag ∈ requested formats -> writable w (out_path base tag)) ->
  (lit "srt" ∈ formats \/ lit "vtt" ∈ formats -> Forall timed (r_segments result)) ->
  forall with_words : bool,
    files (snd (save_outputs json_dumps base result formats with_words w))
      !! (base ++ lit ".json") = Some (json_dumps result).
Proof.
  intros Hin Hmk Hwr Htimed with_words.
  destruct (save_outputs_success json_dumps base result formats with_words w Hmk Hwr Htimed)
    as (srt_cues & vtt_cues & _ & _ & Hrun).
  rewrite Hrun. cbn [snd].
  rewrite (emit_all_written _ _ (base ++ lit ".json") [json_dumps result]
             (planned_NoDup _ _ _ _ _ _)).
  - cbn [concat]. rewrite app_nil_r. reflexivity.
  - unfold planned. rewrite (bool_decide_eq_true_2 _ Hin).
    apply elem_of_app. right. apply elem_of_app. right. apply elem_of_app. right.
    apply list_elem_of_here.
Qed.

(** * The command line driver *)

Lemma split_nonempty c s : split c s <> [].
Proof.
  destruct s as [|x s]; cbn [split]; [discriminate|].
  destruct (x =? c)%N; [discriminate|]. destruct (split c s); discriminate.
Qed.

(** Splitting at a separator splits the text on both sides. *)
Lemma split_app c a b : split c (a ++ c :: b) = split c a ++ split c b.
Proof.
  induction a as [|x a IH]; cbn [app split].
  - rewrite N.eqb_refl. reflexivity.
  - rewrite IH. destruct (x =? c)%N; [reflexivity|].
    pose proof (split_nonempty c a) as Hne.
    destruct (split c a) as [|piece pieces]; [congruence|]. reflexivity.
Qed.

Lemma split_pieces c s : Forall (fun piece => c ∉ piece) (split c s).
Proof.
  induction s as [|x s IH]; cbn [split].
  - constructor; [apply not_elem_of_nil|constructor].
  - destruct (x =? c)%N eqn:E.
    + constructor; [apply not_elem_of_nil|exact IH].
    + destruct (split c s) as [|piece pieces]; [repeat constructor|].
      * intros H. apply list_elem_of_singleton in H. subst. rewrite N.eqb_refl in E. discriminate.
      * apply Forall_cons_1 in IH. destruct IH as [Hp Hps]. constructor; [|exact Hps].
        intros H. apply elem_of_cons in H. destruct H as [->|H]; [|exact (Hp H)].
        rewrite N.eqb_refl in E. discriminate.
Qed.

Lemma split_join c s : join [c] (split c s) = s.
Proof.
  induction s as [|x s IH]; [reflexivity|]. cbn [split].
  pose proof (split_nonempty c s) as Hne.
  destruct (x =? c)%N eqn:E.
  - apply N.eqb_eq in E. subst x. destruct (split c s) as [|piece pieces]; [congruence|].
    cbn [join app] in *. rewrite IH. reflexivity.
  - destruct (split c s) as [|piece pieces]; [congruence|].
    destruct pieces; cbn [join app] in *; rewrite <- IH; reflexivity.
Qed.

Lemma split_no_sep c s : c ∉ s -> split c s = [s].
Proof.
  induction s as [|x s IH]; intros H; [reflexivity|].
  apply not_elem_of_cons in H. destruct H as [Hx Hs]. cbn [split].
  replace (x =? c)%N with false by (symmetry; apply N.eqb_neq; congruence).
  rewrite (IH Hs). reflexivity.
Qed.

Section DriverFacts.

Variable lower : pystr -> pystr.

Lemma parse_formats_spec arg tag :
  tag ∈ parse_formats lower arg <->
  exists piece, piece ∈ split (ch ",") arg /\ strip piece <> [] /\ tag = lower (strip piece).
Proof.
  unfold parse_formats. rewrite elem_of_list_to_set, list_elem_of_fmap. split.
  - intros (piece & -> & Hin). apply list_elem_of_filter in Hin. destruct Hin as [Hs Hin].
    exists piece. split; [exact Hin|]. split; [exact Hs|reflexivity].
  - intros (piece & Hin & Hs & ->). exists piece. split; [reflexivity|].
    apply list_elem_of_filter. split; assumption.
Qed.

(** The request of a comma-separated list is the union of the requests of
    its parts: order and repetition do not matter. *)
Lemma parse_formats_app a b :
  parse_formats lower (a ++ ch "," :: b) = parse_formats lower a ∪ parse_formats lower b.
Proof.
  unfold parse_formats. rewrite split_app, filter_app, map_app, list_to_set_app_L. reflexivity.
Qed.

End DriverFacts.

(** ** The base path of the outputs *)

Lemma rsplit_sep_app p : fst (rsplit_sep p) ++ snd (rsplit_sep p) = p.
Proof.
  induction p as [|c p IH]; [reflexivity|]. cbn [rsplit_sep].
  destruct (rsplit_sep p) as [h t]. cbn [fst snd] in *.
  destruct h as [|x h]; [|cbn [fst snd app]; rewrite <- IH; reflexivity].
  destruct (c =? sep)%N; cbn [fst snd app]; rewrite <- IH; reflexivity.
Qed.

Lemma basename_no_sep p : sep ∉ basename p.
Proof.
  unfold basename. induction p as [|c p IH]; [apply not_elem_of_nil|].
  cbn [rsplit_sep]. destruct (rsplit_sep p) as [h t]. cbn [fst snd] in *.
  destruct h as [|x h]; [|exact IH].
  destruct (c =? sep)%N eqn:E; cbn [snd]; [exact IH|].
  apply not_elem_of_cons. split; [|exact IH]. intros <-. rewrite N.eqb_refl in E. discriminate.
Qed.

Lemma rsplit_sep_no_sep p : sep ∉ p -> rsplit_sep p = ([], p).
Proof.
  intros H.
  assert (Hf : fst (rsplit_sep p) = []) by (apply rsplit_sep_nil, no_sep_Forall; exact H).
  pose proof (rsplit_sep_app p) as Ha. rewrite Hf in Ha. cbn [app] in Ha.
  destruct (rsplit_sep p) as [h t]. cbn [fst snd] in *. subst h t. reflexivity.
Qed.

Lemma rsplit_on_app c p : fst (rsplit_on c p) ++ snd (rsplit_on c p) = p.
Proof.
  induction p as [|x p IH]; [reflexivity|]. cbn [rsplit_on].
  destruct (rsplit_on c p) as [h t]. cbn [fst snd] in *.
  destruct h as [|y h]; [|cbn [fst snd app]; rewrite <- IH; reflexivity].
  destruct (x =? c)%N; cbn [fst snd app]; rewrite <- IH; reflexivity.
Qed.

Lemma removelast_subset {A} (l : list A) x : x ∈ removelast l -> x ∈ l.
Proof.
  induction l as [|a l IH]; cbn [removelast]; [intros H; exact H|].
  destruct l as [|b l]; [intros H; apply elem_of_nil in H; contradiction|].
  intros H. apply elem_of_cons in H. destruct H as [->|H].
  - apply list_elem_of_here.
  - apply list_elem_of_further. apply IH. exact H.
Qed.

(** The stem of a file name holds no separator. *)
Lemma stem_no_sep p : sep ∉ fst (splitext (basename p)).
Proof.
  pose proof (basename_no_sep p) as Hb. set (name := basename p) in *.
  unfold splitext. rewrite (rsplit_sep_no_sep name Hb).
  pose proof (rsplit_on_app (ch ".") name) as Ha.
  destruct (rsplit_on (ch ".") name) as [stem_dot ext]. cbn [fst snd] in Ha.
  destruct stem_dot as [|x stem_dot]; [exact Hb|]. cbv beta iota zeta.
  match goal with |- context [forallb ?f ?l] => destruct (forallb f l) end;
    cbn [fst app]; [exact Hb|].
  intros Hin. apply removelast_subset in Hin. apply Hb. rewrite <- Ha.
  apply elem_of_app. left. exact Hin.
Qed.

Lemma lstrip_sep_spec s :
  lstrip_sep s = [] /\ Forall (fun c => c = sep) s \/
  exists c t, lstrip_sep s = c :: t /\ c <> sep /\ (length (c :: t) <= length s)%nat.
Proof.
  induction s as [|c s IH]; [left; split; [reflexivity|constructor]|].
  cbn [lstrip_sep]. destruct (c =? sep)%N eqn:E.
  - apply N.eqb_eq in E. destruct IH as [[H1 H2]|(x & t & H1 & H2 & H3)].
    + left. split; [exact H1|constructor; assumption].
    + right. exists x, t. split; [exact H1|]. split; [exact H2|]. cbn [length] in *. lia.
  - right. exists c, s. split; [reflexivity|]. split; [|reflexivity].
    intros ->. rewrite N.eqb_refl in E. discriminate.
Qed.

Lemma rstrip_sep_snoc s : rstrip_sep (s ++ [sep]) = rstrip_sep s.
Proof. unfold rstrip_sep. rewrite rev_app_distr. cbn [rev app lstrip_sep]. reflexivity. Qed.

Lemma rstrip_sep_fixed s c : c <> sep -> rstrip_sep (s ++ [c]) = s ++ [c].
Proof.
  intros Hc. unfold rstrip_sep. rewrite rev_app_distr. cbn [rev app lstrip_sep].
  replace (c =? sep)%N with false by (symmetry; apply N.eqb_neq; exact Hc).
  cbn [rev]. rewrite rev_involutive. reflexivity.
Qed.

Lemma rstrip_sep_idem s : rstrip_sep (rstrip_sep s) = rstrip_sep s.
Proof.
  unfold rstrip_sep. rewrite rev_involutive.
  destruct (lstrip_sep_spec (rev s)) as [[H _]|(c & t & H & Hc & _)]; rewrite H.
  - reflexivity.
  - cbn [lstrip_sep]. replace (c =? sep)%N with false by (symmetry; apply N.eqb_neq; exact Hc).
    reflexivity.
Qed.

Lemma rstrip_sep_length s : (length (rstrip_sep s) <= length s)%nat.
Proof.
  unfold rstrip_sep. rewrite length_rev.
  destruct (lstrip_sep_spec (rev s)) as [[H _]|(c & t & H & _ & Hl)]; rewrite H.
  - cbn. lia.
  - rewrite length_rev in Hl. exact Hl.
Qed.

Lemma rsplit_sep_dir a b : sep ∉ b -> rsplit_sep (a ++ [sep] ++ b) = (a ++ [sep], b).
Proof.
  intros Hb. rewrite app_assoc, rsplit_sep_ext by (apply no_sep_Forall; exact Hb).
  assert (H : rsplit_sep (a ++ [sep]) = (a ++ [sep], [])).
  { induction a as [|c a IH]; [reflexivity|]. cbn [app rsplit_sep]. rewrite IH.
    destruct (a ++ [sep]) eqn:E; [destruct a; discriminate|reflexivity]. }
  rewrite H. reflexivity.
Qed.

Lemma snoc_cases {A} (l : list A) : l = [] \/ exists l' z, l = l' ++ [z].
Proof.
  destruct (rev l) as [|z r] eqn:E.
  - left. apply (f_equal (@rev A)) in E. rewrite rev_involutive in E. exact E.
  - right. exists (rev r), z. apply (f_equal (@rev A)) in E. rewrite rev_involutive in E.
    exact E.
Qed.

(** The parent directory of the base path is the output directory, or
    the output directory without its trailing separators. *)
Lemma dirname_out_base output_dir input :
  output_dir <> [] ->
  dirname (out_base output_dir input) = output_dir \/
  (dirname (out_base output_dir input) = rstrip_sep output_dir /\
   rstrip_sep output_dir <> [] /\ dirname output_dir = rstrip_sep output_dir).
Proof.
  intros Hne. unfold out_base. pose proof (stem_no_sep input) as Hs.
  set (base := fst (splitext (basename input))) in *.
  assert (Hb : match base with c :: _ => (c =? sep)%N | [] => false end = false).
  { destruct base as [|c base]; [reflexivity|]. apply N.eqb_neq. intros ->.
    apply Hs. apply list_elem_of_here. }
  unfold join2. rewrite Hb.
  destruct (snoc_cases output_dir) as [->|(a & z & ->)]; [congruence|].
  rewrite rev_app_distr. cbn [rev app].
  destruct (z =? sep)%N eqn:Ez.
  - apply N.eqb_eq in Ez. subst z.
    assert (Hr : rsplit_sep ((a ++ [sep]) ++ base) = (a ++ [sep], base)).
    { rewrite <- app_assoc. apply rsplit_sep_dir. exact Hs. }
    assert (Hr' : rsplit_sep (a ++ [sep]) = (a ++ [sep], [])).
    { pose proof (rsplit_sep_dir a [] ltac:(apply not_elem_of_nil)) as H.
      rewrite app_nil_r in H. exact H. }
    unfold dirname. rewrite Hr, Hr'. cbn [fst].
    destruct (rstrip_sep (a ++ [sep])) eqn:E; [left; reflexivity|].
    right. split; [reflexivity|]. split; [discriminate|reflexivity].
  - apply N.eqb_neq in Ez. left.
    assert (Hr : rsplit_sep ((a ++ [z]) ++ sep :: base) = ((a ++ [z]) ++ [sep], base)).
    { apply (rsplit_sep_dir (a ++ [z]) base). exact Hs. }
    unfold dirname. rewrite Hr. cbn [fst].
    rewrite rstrip_sep_snoc, (rstrip_sep_fixed a z Ez).
    destruct (a ++ [z]) eqn:E; [destruct a; discriminate|reflexivity].
Qed.

Lemma rsplit_sep_fst p :
  fst (rsplit_sep p) = [] \/ exists h, fst (rsplit_sep p) = h ++ [sep].
Proof.
  induction p as [|c p IH]; [left; reflexivity|]. cbn [rsplit_sep].
  destruct (rsplit_sep p) as [h t]. cbn [fst] in *. destruct h as [|x h].
  - destruct (c =? sep)%N eqn:E; cbn [fst]; [|left; reflexivity].
    apply N.eqb_eq in E. subst c. right. exists []. reflexivity.
  - cbn [fst]. right. destruct IH as [IH|[h' IH]]; [discriminate|].
    exists (c :: h'). rewrite IH. reflexivity.
Qed.

(** A parent directory that is not the root is shorter than the path. *)
Lemma dirname_shorter d :
  rstrip_sep (dirname d) <> [] -> (length (dirname d) < length d)%nat.
Proof.
  unfold dirname. intros H.
  pose proof (rsplit_sep_app d) as Happ. apply (f_equal (@length _)) in Happ.
  rewrite length_app in Happ.
  destruct (rstrip_sep (fst (rsplit_sep d))) as [|x s] eqn:E; [rewrite E in H; congruence|].
  rewrite <- E.
  destruct (rsplit_sep_fst d) as [Hnil|[h Hh]].
  - rewrite Hnil in E. discriminate.
  - rewrite Hh, rstrip_sep_snoc. pose proof (rstrip_sep_length h) as Hl.
    rewrite Hh, length_app in Happ. cbn [length] in Happ. lia.
Qed.

Lemma ancestors_fuel_stable n m d :
  (length d <= n)%nat -> (length d <= m)%nat -> ancestors_fuel n d = ancestors_fuel m d.
Proof.
  revert m d. induction n as [|n IH]; intros m d Hn Hm.
  - destruct d; [|cbn in Hn; lia]. destruct m; reflexivity.
  - destruct m as [|m].
    + destruct d; [|cbn in Hm; lia]. reflexivity.
    + cbn [ancestors_fuel].
      destruct (rstrip_sep (dirname d)) as [|x s] eqn:E; [reflexivity|].
      assert (Hlt : (length (dirname d) < length d)%nat).
      { apply dirname_shorter. rewrite E. discriminate. }
      rewrite (IH m (dirname d)) by lia. reflexivity.
Qed.

Lemma ancestors_step d :
  rstrip_sep (dirname d) <> [] -> ancestors d = ancestors (dirname d) ++ [dirname d].
Proof.
  intros H. pose proof (dirname_shorter d H) as Hlt. unfold ancestors.
  destruct (length d) as [|n] eqn:En; [lia|]. cbn [ancestors_fuel].
  destruct (rstrip_sep (dirname d)) as [|x s]; [congruence|].
  rewrite (ancestors_fuel_stable n (length (dirname d)) (dirname d)) by lia. reflexivity.
Qed.

(** Once the output directory exists with its ancestors, so does the
    parent directory of every base path. *)
Lemma out_base_dir_ready output_dir input (w : world) :
  output_dir <> [] -> output_dir ∈ dirs w ->
  (forall a, a ∈ ancestors output_dir -> a ∈ dirs w) ->
  let d := dirname (out_base output_dir input) in
  d <> [] /\ d ∈ dirs w /\ forall a, a ∈ ancestors d -> a ∈ dirs w.
Proof.
  intros Hne Hd Ha d. subst d.
  destruct (dirname_out_base output_dir input Hne) as [->|(-> & Hr & Hdn)].
  - split; [exact Hne|]. split; assumption.
  - assert (Hstep : ancestors output_dir =
                    ancestors (rstrip_sep output_dir) ++ [rstrip_sep output_dir]).
    { rewrite <- Hdn. apply ancestors_step. rewrite Hdn, rstrip_sep_idem. exact Hr. }
    split; [exact Hr|]. split.
    + apply Ha. rewrite Hstep. apply elem_of_app. right. apply list_elem_of_here.
    + intros a Hin. apply Ha. rewrite Hstep. apply elem_of_app. left. exact Hin.
Qed.

Lemma for_each_raise_prefix {A} (l l' : list A) (body : A -> io unit) w e :
  fst (for_each l body w) = Raise e -> for_each (l ++ l') body w = for_each l body w.
Proof.
  intros H. rewrite for_each_app. unfold bind.
  destruct (for_each l body w) as [[[]|e'] w']; [discriminate H|reflexivity].
Qed.

(** ** The loop over the inputs *)

Lemma process_missing jd transcribe output_dir formats word_timestamps input w :
  files w !! input = None ->
  process jd transcribe output_dir formats word_timestamps input w =
  (Ok tt, logged w [skipped input]).
Proof.
  intros H. unfold process, bind, isfile. rewrite H.
  rewrite bool_decide_eq_false_2 by (intros [x Hx]; discriminate Hx). reflexivity.
Qed.

Lemma process_present jd transcribe output_dir formats word_timestamps input w :
  is_Some (files w !! input) ->
  process jd transcribe output_dir formats word_timestamps input w =
  bind (lift (transcribe input))
    (fun result => save_outputs jd (out_base output_dir input) result formats word_timestamps) w.
Proof.
  intros H. unfold process, bind at 1, isfile. rewrite (bool_decide_eq_true_2 _ H). reflexivity.
Qed.

Lemma for_each_skipped jd transcribe output_dir formats word_timestamps inputs w :
  (forall p, p ∈ inputs -> files w !! p = None) ->
  for_each inputs (process jd transcribe output_dir formats word_timestamps) w =
  (Ok tt, logged w (map skipped inputs)).
Proof.
  revert w. induction inputs as [|p inputs IH]; intros w H.
  - cbn [for_each map ret]. unfold logged. rewrite app_nil_r. destruct w; reflexivity.
  - cbn [for_each]. rewrite (bind_ok _ _ _ _ _ (process_missing _ _ _ _ _ p w
                                                  (H p ltac:(apply list_elem_of_here)))).
    rewrite IH by (intros q Hq; apply H; apply list_elem_of_further; exact Hq).
    unfold logged. cbn [dirs files denied log map]. rewrite <- app_assoc. reflexivity.
Qed.

(** X4. Inputs that are no regular files are skipped with a warning each,
    in order; when all are, the run returns having changed no file. *)
Theorem main_skips_missing_inputs (lower : pystr -> pystr)
    (json_dumps : TranscriptionResult -> pystr) (transcribe : path -> res TranscriptionResult)
    formats_arg output_dir word_timestamps inputs w :
  (forall p, p ∈ inputs -> files w !! p = None) ->
  fst (makedirs output_dir w) = Ok tt ->
  let run := main lower json_dumps (Ok tt) transcribe formats_arg output_dir word_timestamps
               inputs w in
  fst run = Ok tt /\ files (snd run) = files w /\
  log (snd run) = log w ++ EMakedirs output_dir :: map skipped inputs.
Proof.
  intros Hmiss Hmk run.
  destruct (makedirs_spec output_dir w) as (r & w1 & Hmk' & Hf & _ & Hl & _).
  rewrite Hmk' in *. cbn [fst] in Hmk. subst r.
  assert (Hrun : run = (Ok tt, logged w1 (map skipped inputs))).
  { subst run. unfold main. cbv zeta.
    rewrite (bind_ok _ _ w tt w eq_refl), (bind_ok _ _ _ _ _ Hmk').
    apply for_each_skipped. intros p Hp. rewrite Hf. apply Hmiss. exact Hp. }
  rewrite Hrun. cbn [fst snd logged files log]. split; [reflexivity|]. split; [exact Hf|].
  rewrite Hl, <- app_assoc. reflexivity.
Qed.

(** X5. An input that raises ends the run: what follows it in the list
    changes nothing. *)
Theorem main_stops_at_first_failure (lower : pystr -> pystr)
    (json_dumps : TranscriptionResult -> pystr) (load_model : res unit)
    (transcribe : path -> res TranscriptionResult)
    formats_arg output_dir word_timestamps done input rest w e :
  fst (main lower json_dumps load_model transcribe formats_arg output_dir word_timestamps
         (done ++ [input]) w) = Raise e ->
  main lower json_dumps load_model transcribe formats_arg output_dir word_timestamps
    (done ++ input :: rest) w =
  main lower json_dumps load_model transcribe formats_arg output_dir word_timestamps
    (done ++ [input]) w.
Proof.
  unfold main. cbv zeta. unfold bind at 1 3 4, lift.
  destruct load_model as [[]|e0]; [|reflexivity].
  unfold bind at 1 2 3. destruct (makedirs output_dir w) as [[[]|e1] w1]; [|reflexivity].
  intros H. replace (done ++ input :: rest) with ((done ++ [input]) ++ rest)
    by (rewrite <- app_assoc; reflexivity).
  apply (for_each_raise_prefix _ _ _ _ e). exact H.
Qed.

(** X6. Inside [main] the directory step of [save_outputs] cannot fail:
    once the output directory was made, the parent directory of every
    base path exists, so the step only records itself. *)
Theorem main_output_directory_ready output_dir input w0 w :
  fst (makedirs output_dir w0) = Ok tt ->
  dirs (snd (makedirs output_dir w0)) ⊆ dirs w ->
  dirname (out_base output_dir input) <> [] /\
  makedirs (dirname (out_base output_dir input)) w =
  (Ok tt, logged w [EMakedirs (dirname (out_base output_dir input))]).
Proof.
  intros Hmk Hsub.
  destruct (makedirs_spec output_dir w0) as (r & w1 & Hmk' & _ & _ & _ & _ & _ & Hin & _).
  rewrite Hmk' in *. cbn [fst snd] in *. destruct (Hin Hmk) as (Hne & Hd & Ha).
  destruct (out_base_dir_ready output_dir input w Hne (Hsub _ Hd)
              (fun a Hin' => Hsub _ (Ha a Hin'))) as (Hne' & Hd' & Ha').
  split; [exact Hne'|]. apply makedirs_existing; assumption.
Qed.

(** ** The request of the command line *)

Lemma split_Forall (P : char -> Prop) c s :
  Forall P s -> Forall (Forall P) (split c s).
Proof.
  induction 1 as [|x s Hx Hs IH]; cbn [split]; [repeat constructor|].
  destruct (x =? c)%N; [constructor; [constructor|exact IH]|].
  destruct (split c s) as [|piece pieces]; [repeat constructor; exact Hx|].
  apply Forall_cons_1 in IH. destruct IH as [Hp Hps].
  constructor; [constructor; assumption|exact Hps].
Qed.

Lemma strip_Forall (P : char -> Prop) s : Forall P s -> Forall P (strip s).
Proof.
  intros H. destruct (strip_spec s) as ((l & r & Hs & _) & _).
  rewrite Hs in H. apply Forall_app in H. destruct H as [_ H].
  apply Forall_app in H. destruct H as [H _]. exact H.
Qed.

Lemma isspace_lower c :
  isspace (if ((65 <=? c) && (c <=? 90))%N then (c + 32)%N else c) = isspace c.
Proof.
  destruct ((65 <=? c) && (c <=? 90))%N eqn:E; [|reflexivity].
  apply andb_true_iff in E. destruct E as [E1 E2].
  apply N.leb_le in E1, E2. unfold isspace.
  repeat match goal with
         | |- context [(?a <=? ?b)%N] =>
             let H := fresh in destruct (N.leb_spec a b) as [H|H]; try lia
         | |- context [(?a =? ?b)%N] =>
             let H := fresh in destruct (N.eqb_spec a b) as [H|H]; try lia
         end; reflexivity.
Qed.

Lemma lstrip_lower s : lstrip (ascii_lower s) = ascii_lower (lstrip s).
Proof.
  induction s as [|c s IH]; [reflexivity|].
  cbn [ascii_lower map lstrip]. rewrite isspace_lower.
  destruct (isspace c); [exact IH|reflexivity].
Qed.

Lemma strip_lower s : strip (ascii_lower s) = ascii_lower (strip s).
Proof.
  unfold strip, rstrip. rewrite lstrip_lower. unfold ascii_lower at 1.
  rewrite <- map_rev. fold (ascii_lower (rev (lstrip s))).
  rewrite lstrip_lower. unfold ascii_lower. rewrite map_rev. reflexivity.
Qed.

Lemma ascii_lower_idem s : ascii_lower (ascii_lower s) = ascii_lower s.
Proof.
  unfold ascii_lower. rewrite map_map. apply map_ext. intros c.
  destruct ((65 <=? c) && (c <=? 90))%N eqn:E; [|rewrite E; reflexivity].
  apply andb_true_iff in E. destruct E as [E1 E2]. apply N.leb_le in E1, E2.
  replace ((65 <=? c + 32) && (c + 32 <=? 90))%N with false; [reflexivity|].
  symmetry. apply andb_false_iff. right. apply N.leb_gt. lia.
Qed.

Lemma ascii_lower_comma s : ch "," ∉ s -> ch "," ∉ ascii_lower s.
Proof.
  intros H Hin. apply H. unfold ascii_lower in Hin. apply list_elem_of_fmap in Hin.
  destruct Hin as (c & Hc & Hin).
  destruct ((65 <=? c) && (c <=? 90))%N eqn:E; [|subst c; exact Hin].
  apply andb_true_iff in E. destruct E as [E1 E2]. apply N.leb_le in E1, E2.
  change (ch ",") with 44%N in Hc. lia.
Qed.

Section Lowercase.

Variable lower : pystr -> pystr.
Hypothesis lower_ascii : forall s, is_ascii s -> lower s = ascii_lower s.

(** X7. The tags of an ASCII [--formats] argument are not empty, hold no
    comma, no capital letter and no whitespace at either end; the
    argument of a list is the union of its parts.  The default gives txt
    and srt; spaces, capitals and empty items do not matter; an unknown
    tag is kept here, and left out by [requested]. *)
Theorem parse_formats_ascii :
  (forall arg tag,
      is_ascii arg -> tag ∈ parse_formats lower arg ->
      tag <> [] /\ (ch "," ∉ tag) /\ ascii_lower tag = tag /\ strip tag = tag) /\
  (forall a b,
      parse_formats lower (a ++ ch "," :: b) = parse_formats lower a ∪ parse_formats lower b) /\
  parse_formats lower (lit "txt,srt") = {[ lit "txt"; lit "srt" ]} /\
  parse_formats lower (lit " TXT , srt,,vtt ") = {[ lit "txt"; lit "srt"; lit "vtt" ]} /\
  parse_formats lower (lit "") = ∅ /\
  parse_formats lower (lit "srt,xml") = {[ lit "srt"; lit "xml" ]} /\
  requested (parse_formats lower (lit "srt,xml")) = [lit "srt"].
Proof.
  assert (Hex : forall arg : string,
            forallb (fun c => (c <? 128)%N) (lit arg) = true ->
            parse_formats lower (lit arg) = parse_formats ascii_lower (lit arg)).
  { intros arg Harg. unfold parse_formats. f_equal. apply map_ext_in. intros piece Hin.
    apply lower_ascii. apply strip_Forall.
    apply list_elem_of_In, list_elem_of_filter in Hin. destruct Hin as [_ Hin].
    assert (Ha : is_ascii (lit arg)).
    { apply List.Forall_forall. intros c Hc. rewrite forallb_forall in Harg.
      apply N.ltb_lt. apply Harg. exact Hc. }
    pose proof (split_Forall _ (ch ",") _ Ha) as Hs.
    rewrite Forall_forall in Hs. apply Hs. exact Hin. }
  split; [|split; [apply parse_formats_app|]].
  - intros arg tag Harg Htag. apply parse_formats_spec in Htag.
    destruct Htag as (piece & Hin & Hne & ->).
    pose proof (split_Forall _ (ch ",") _ Harg) as Hs. rewrite Forall_forall in Hs.
    pose proof (split_pieces (ch ",") arg) as Hc. rewrite Forall_forall in Hc.
    rewrite (lower_ascii _ (strip_Forall _ _ (Hs _ Hin))).
    split; [|split; [|split]].
    + unfold ascii_lower. intros H. apply map_eq_nil in H. exact (Hne H).
    + apply ascii_lower_comma. intros H. apply (Hc _ Hin).
      destruct (strip_spec piece) as ((l & r & Hp & _) & _). rewrite Hp.
      apply elem_of_app. right. apply elem_of_app. left. exact H.
    + apply ascii_lower_idem.
    + rewrite strip_lower, strip_idempotent. reflexivity.
  - rewrite !Hex by reflexivity. repeat split; vm_compute; reflexivity.
Qed.


End Lowercase.

Lemma parse_formats_ascii_witness :
  parse_formats ascii_lower (lit " TXT , srt,,vtt ") = {[ lit "txt"; lit "srt"; lit "vtt" ]}.
Proof.
  exact (proj1 (proj2 (proj2 (proj2 (parse_formats_ascii ascii_lower (fun s _ => eq_refl)))))).
Defined.


(** ** Sample runs of the further properties *)

Lemma srt_failure_leaves_partial_output_witness :
  fst (save_outputs sample_json (lit "out/a") broken_result {[ lit "srt"; lit "txt" ]} false
         empty_world) = Raise ValueError.
Proof.
  refine (proj1 (srt_failure_leaves_partial_output sample_json (lit "out/a") broken_result
                   {[ lit "srt"; lit "txt" ]} false empty_world
                   (r_segments sample_result) _ [reversed_segment]
                   eq_refl (well_timed_timed _ sample_well_timed) eq_refl _
                   sample_makedirs (sample_writable _))).
  apply elem_of_union. left. apply elem_of_singleton. reflexivity.
Defined.

Lemma save_outputs_idempotent_witness :
  fst (save_outputs sample_json (lit "out/a") sample_result recognized true
         (snd (save_outputs sample_json (lit "out/a") sample_result recognized true
                 empty_world))) = Ok tt.
Proof.
  exact (proj1 (save_outputs_idempotent sample_json (lit "out/a") sample_result recognized
                  true empty_world sample_makedirs (sample_writable _)
                  (fun _ => well_timed_timed _ sample_well_timed))).
Defined.

Lemma json_file_content_witness :
  files (snd (save_outputs sample_json (lit "out/a") sample_result {[ lit "json" ]} true
                empty_world)) !! lit "out/a.json" = Some (lit "{}").
Proof.
  refine (json_file_content sample_json (lit "out/a") sample_result {[ lit "json" ]}
            empty_world _ sample_makedirs (sample_writable _) _ true).
  - apply elem_of_singleton. reflexivity.
  - intros _. exact (well_timed_timed _ sample_well_timed).
Defined.

Lemma main_skips_missing_inputs_witness :
  log (snd (main ascii_lower sample_json (Ok tt) sample_engine (lit "txt,srt")
              (lit "transcripts") false [lit "x.mp3"; lit "y.mp3"] empty_world))
  = [EMakedirs (lit "transcripts"); skipped (lit "x.mp3"); skipped (lit "y.mp3")].
Proof.
  refine (proj2 (proj2 (main_skips_missing_inputs ascii_lower sample_json sample_engine
                          (lit "txt,srt") (lit "transcripts") false
                          [lit "x.mp3"; lit "y.mp3"] empty_world _ _))).
  - intros p _. apply lookup_empty.
  - vm_compute. reflexivity.
Defined.

Lemma main_stops_at_first_failure_witness :
  main ascii_lower sample_json (Ok tt) sample_engine (lit "txt,srt") (lit "transcripts")
    false ([] ++ lit "bad.mp3" :: [lit "a.mp3"]) sample_world
  = main ascii_lower sample_json (Ok tt) sample_engine (lit "txt,srt") (lit "transcripts")
      false ([] ++ [lit "bad.mp3"]) sample_world.
Proof.
  apply (main_stops_at_first_failure ascii_lower sample_json (Ok tt) sample_engine
           (lit "txt,srt") (lit "transcripts") false [] (lit "bad.mp3") [lit "a.mp3"]
           sample_world RuntimeError).
  vm_compute. reflexivity.
Defined.

Lemma main_output_directory_ready_witness :
  dirname (out_base (lit "transcripts/") (lit "audio/talk.mp3")) <> [].
Proof.
  refine (proj1 (main_output_directory_ready (lit "transcripts/") (lit "audio/talk.mp3")
                   empty_world (snd (makedirs (lit "transcripts/") empty_world)) _ _)).
  - vm_compute. reflexivity.
  - intros x Hx. exact Hx.
Defined.
